(** * Flipbook Creator: sequence manager and grid compositor

    A shallow embedding of the order-management and export code of
    [src/Flipbook-Creator.py] (classes [ImageThumbnail], [DropZone],
    [ImageGridWidget] and [FlipbookApp]), followed by the properties of
    that code.

    Conventions.  Python integers are [Z]; a Python list is a [list]; the
    selection (a Python [set] of ints) is a [gset Z]; [None] is [option].
    Every method becomes a function from the receiver's state to its new
    state.  Calls that only repaint widgets ([rebuild_grid],
    [update_toolbar_state], [set_selected], [hide_end_drop_zone], [print])
    leave the modelled state alone and are named in comments only; what
    [rebuild_grid] puts into the layout is given by a function of its
    own.  The repaint calls index the list of thumbnails, which has one
    thumbnail for each entry of the order; where that indexing can raise
    [IndexError] the method returns an [Outcome], which tells whether
    the call returned or raised and the state it left behind. *)

From Stdlib Require Import ZArith List String Ascii Lia Floats Uint63 DecimalString DecimalZ.
From stdpp Require Import base tactics option list sorting gmap sets numbers.

Open Scope Z_scope.

(** ** Python built-ins used by the source *)

Module Py.

Section Lists.
Context {A : Type}.

(** [len(l)] as a Python int. *)
Definition len (l : list A) : Z := Z.of_nat (length l).

(** The guard [0 <= idx < len(l)] that precedes each indexed access. *)
Definition in_bounds (idx : Z) (l : list A) : bool :=
  (0 <=? idx) && (idx <? len l).

(** [l[idx]] for an index that passed [in_bounds]. *)
Definition item (idx : Z) (l : list A) : option A := l !! Z.to_nat idx.

(** Whether [l[idx]] raises [IndexError]: a negative index counts from
    the end, so the indices of [l] are those from [-len(l)] to
    [len(l) - 1]. *)
Definition index_error (idx : Z) (l : list A) : bool :=
  (idx <? - len l) || (len l <=? idx).

(** [l.pop(idx)] for an index that passed [in_bounds]: the list left. *)
Definition pop_at (idx : Z) (l : list A) : list A := delete (Z.to_nat idx) l.

(** [l.insert(i, x)]: a negative [i] counts from the end, and the
    position is then clamped into [0, len(l)]. *)
Definition insert (i : Z) (x : A) (l : list A) : list A :=
  let i1 := if i <? 0 then i + len l else i in
  let i2 := if i1 <? 0 then 0 else if len l <? i1 then len l else i1 in
  take (Z.to_nat i2) l ++ x :: drop (Z.to_nat i2) l.

(** [l.pop()]: the list left and the element removed, [None] on [[]]. *)
Definition pop_last (l : list A) : option (list A * A) :=
  match rev l with
  | x :: r => Some (rev r, x)
  | [] => None
  end.

(** [l.pop(0)] on a non-empty list: the list left. *)
Definition pop_first (l : list A) : list A := drop 1 l.
End Lists.

(** [sorted(l, reverse=True)] on ints, by insertion. *)
Fixpoint insert_desc (x : Z) (l : list Z) : list Z :=
  match l with
  | [] => [x]
  | y :: l' => if y <=? x then x :: y :: l' else y :: insert_desc x l'
  end.

Definition sorted_reverse (l : list Z) : list Z := foldr insert_desc [] l.

(** [s.split(',')]: never empty, [''] splits into [['']]. *)
Fixpoint split_comma (s : string) : list string :=
  match s with
  | EmptyString => [EmptyString]
  | String c s' =>
      if Ascii.eqb c ","%char then EmptyString :: split_comma s'
      else match split_comma s' with
           | w :: ws => String c w :: ws
           | [] => [String c EmptyString]
           end
  end.

(** [int(s)] on a [str], base 10: surrounding white space is dropped, one
    sign is allowed, then digits, single underscores between digits.
    [None] stands for [ValueError].  Strings here are byte strings, so
    the non-ASCII white space and digits that Python also takes are
    outside the model.  On an ASCII [str] the white space of [int] is
    that of C's [isspace]: tab to carriage return (9 to 13) and the
    blank (32); the separators 28 to 31, which [str.strip] would drop,
    make [int] raise. *)
Definition is_space (c : ascii) : bool :=
  let n := Z.of_N (N_of_ascii c) in
  ((9 <=? n) && (n <=? 13)) || (n =? 32).

Fixpoint lstrip (s : string) : string :=
  match s with
  | String c s' => if is_space c then lstrip s' else s
  | EmptyString => EmptyString
  end.

Fixpoint rstrip (s : string) : string :=
  match s with
  | String c s' =>
      match rstrip s' with
      | EmptyString => if is_space c then EmptyString else String c EmptyString
      | r => String c r
      end
  | EmptyString => EmptyString
  end.

Definition digit (c : ascii) : option Z :=
  let n := Z.of_N (N_of_ascii c) in
  if (48 <=? n) && (n <=? 57) then Some (n - 48) else None.

Fixpoint digits (acc : Z) (after_underscore : bool) (s : string) : option Z :=
  match s with
  | EmptyString => if after_underscore then None else Some acc
  | String c s' =>
      if Ascii.eqb c "_"%char then
        if after_underscore then None else digits acc true s'
      else match digit c with
           | Some d => digits (10 * acc + d) false s'
           | None => None
           end
  end.

Definition unsigned (s : string) : option Z :=
  match s with
  | String c s' =>
      match digit c with
      | Some d => digits d false s'
      | None => None
      end
  | EmptyString => None
  end.

Definition int (s : string) : option Z :=
  match rstrip (lstrip s) with
  | String c s' =>
      if Ascii.eqb c "-"%char then Z.opp <$> unsigned s'
      else if Ascii.eqb c "+"%char then unsigned s'
      else unsigned (String c s')
  | EmptyString => None
  end.

(** [[int(idx) for idx in xs]]: the first [ValueError] ends it. *)
Fixpoint ints (xs : list string) : option (list Z) :=
  match xs with
  | [] => Some []
  | x :: xs' =>
      match int x with
      | Some n => cons n <$> ints xs'
      | None => None
      end
  end.

(** [sorted(l)] on ints, by insertion. *)
Fixpoint insert_asc (x : Z) (l : list Z) : list Z :=
  match l with
  | [] => [x]
  | y :: l' => if x <=? y then x :: y :: l' else y :: insert_asc x l'
  end.

Definition sorted (l : list Z) : list Z := foldr insert_asc [] l.

(** [str(n)] for an int: the decimal digits, after a minus sign when
    [n] is negative. *)
Definition str (n : Z) : string := NilZero.string_of_int (Z.to_int n).

(** [','.join(xs)]. *)
Fixpoint join_comma (xs : list string) : string :=
  match xs with
  | [] => EmptyString
  | [x] => x
  | x :: rest => x ++ String ","%char (join_comma rest)
  end.

End Py.

(** ** Data model *)

(** A loaded [QPixmap]: its size and an identity standing for its pixels. *)
Record QPixmap := { pm_width : Z; pm_height : Z; pm_key : N }.

(** One element of [ImageGridWidget.images]: [(pixmap, filename, full_path)]. *)
Definition ImageEntry : Type := QPixmap * string * string.

(** ** class [ImageGridWidget] *)

Module ImageGridWidget.

(** The fields of [ImageGridWidget] that the order management reads and
    writes, as [__init__] declares them. *)
Record t := {
  images : list ImageEntry;
  selected_indices : gset Z;
  last_selected_index : option Z;
  history : list (list ImageEntry);
  redo_stack : list (list ImageEntry);
  max_history : Z
}.

(** [__init__]. *)
Definition init : t :=
  {| images := []; selected_indices := ∅; last_selected_index := None;
     history := []; redo_stack := []; max_history := 50 |}.

(** *** history *)

(** [save_state]: the snapshot [[img for img in self.images]] is appended,
    the redo stack cleared, and one oldest snapshot popped when the list is
    longer than [max_history]. *)
Definition save_state (w : t) : t :=
  let pushed := history w ++ [images w] in
  {| images := images w;
     selected_indices := selected_indices w;
     last_selected_index := last_selected_index w;
     history := if Py.len pushed >? max_history w
                then Py.pop_first pushed else pushed;
     redo_stack := [];
     max_history := max_history w |}.

(** [undo]: with a non-empty history the current order goes to the redo
    stack and the newest snapshot becomes the order; selection and anchor
    are cleared.  With an empty history it prints and changes nothing. *)
Definition undo (w : t) : t :=
  match Py.pop_last (history w) with
  | Some (rest, state) =>
      {| images := state;
         selected_indices := ∅;
         last_selected_index := None;
         history := rest;
         redo_stack := redo_stack w ++ [images w];
         max_history := max_history w |}
  | None => w
  end.

(** [redo]: the mirror image of [undo]; the push onto [history] is a plain
    [append], without the cap of [save_state]. *)
Definition redo (w : t) : t :=
  match Py.pop_last (redo_stack w) with
  | Some (rest, state) =>
      {| images := state;
         selected_indices := ∅;
         last_selected_index := None;
         history := history w ++ [images w];
         redo_stack := rest;
         max_history := max_history w |}
  | None => w
  end.

(** *** loading *)

(** [add_images]: the order is replaced, selection, anchor and both stacks
    are cleared. *)
Definition add_images (image_paths_and_pixmaps : list ImageEntry)
    (w : t) : t :=
  {| images := image_paths_and_pixmaps;
     selected_indices := ∅;
     last_selected_index := None;
     history := [];
     redo_stack := [];
     max_history := max_history w |}.

(** [append_images]: guarded by the truth value of the argument, that is,
    by the list being non-empty. *)
Definition append_images (image_paths_and_pixmaps : list ImageEntry)
    (w : t) : t :=
  match image_paths_and_pixmaps with
  | [] => w
  | _ :: _ =>
      let w1 := save_state w in
      {| images := images w1 ++ image_paths_and_pixmaps;
         selected_indices := selected_indices w1;
         last_selected_index := last_selected_index w1;
         history := history w1;
         redo_stack := redo_stack w1;
         max_history := max_history w1 |}
  end.

(** *** selection *)

Definition with_selection (sel : gset Z) (anchor : option Z)
    (w : t) : t :=
  {| images := images w;
     selected_indices := sel;
     last_selected_index := anchor;
     history := history w;
     redo_stack := redo_stack w;
     max_history := max_history w |}.

(** [clear_selection]: the anchor stays. *)
Definition clear_selection (w : t) : t :=
  with_selection ∅ (last_selected_index w) w.

(** How a call of a selection method ends: it returns, or the
    [IndexError] of a [thumbnails[i]] leaves it.  Nothing in the class
    catches the error, and the widget stays in the state that the
    statements before the error gave it. *)
Inductive Outcome :=
| Returned (w : t)
| IndexError (w : t).

Definition state (o : Outcome) : t :=
  match o with
  | Returned w | IndexError w => w
  end.

(** [get_all_thumbnails]: the [ImageThumbnail] widgets of the layout, each
    given by its index.  [rebuild_grid], with which every method that
    changes [self.images] ends, puts one thumbnail per image into the
    layout, in order. *)
Definition get_all_thumbnails (w : t) : list Z := seqZ 0 (Py.len (images w)).

(** Whether [if index < len(thumbnails): thumbnails[index].set_selected(...)]
    raises: the guard lets every negative index through. *)
Definition set_selected_raises (index : Z) (w : t) : bool :=
  let thumbnails := get_all_thumbnails w in
  (index <? Py.len thumbnails) && Py.index_error index thumbnails.

(** [select_single]: [index < len(thumbnails)] guards the repaint only; the
    assignments to the set and the anchor are unconditional and come
    first. *)
Definition select_single (index : Z) (w : t) : Outcome :=
  let w1 := with_selection {[ index ]} (Some index) w in
  if set_selected_raises index w1 then IndexError w1 else Returned w1.

(** [toggle_selection]: the set is changed and the thumbnail repainted;
    [self.last_selected_index = index] is the statement after. *)
Definition toggle_selection (index : Z) (w : t) : Outcome :=
  let w1 :=
    if decide (index ∈ selected_indices w)
    then with_selection (selected_indices w ∖ {[ index ]}) (last_selected_index w) w
    else with_selection ({[ index ]} ∪ selected_indices w) (last_selected_index w) w in
  if set_selected_raises index w1 then IndexError w1
  else Returned (with_selection (selected_indices w1) (Some index) w1).

(** The loop [for i in range(start, end + 1)] of [select_range]: [i] is
    added to the set, then its thumbnail is repainted. *)
Fixpoint add_each (indices : list Z) (w : t) : Outcome :=
  match indices with
  | [] => Returned w
  | i :: rest =>
      let w1 := with_selection ({[ i ]} ∪ selected_indices w) (last_selected_index w) w in
      if set_selected_raises i w1 then IndexError w1 else add_each rest w1
  end.

(** [select_range]: without an anchor it is [select_single]; with one,
    every [i] of [range(start, end + 1)] is added to the set and the
    anchor is left as it was. *)
Definition select_range (index : Z) (w : t) : Outcome :=
  match last_selected_index w with
  | None => select_single index w
  | Some anchor =>
      let start := Z.min anchor index in
      let end_ := Z.max anchor index in
      add_each (seqZ start (end_ + 1 - start)) w
  end.

(** *** delete and move *)

(** The loop [for idx in indices: if 0 <= idx < len(self.images):
    self.images.pop(idx)] of [delete_selected]. *)
Fixpoint pop_each (indices : list Z) (imgs : list ImageEntry) : list ImageEntry :=
  match indices with
  | [] => imgs
  | idx :: rest =>
      if Py.in_bounds idx imgs then pop_each rest (Py.pop_at idx imgs)
      else pop_each rest imgs
  end.

(** [delete_selected]. *)
Definition delete_selected (w : t) : t :=
  if decide (selected_indices w = ∅) then w
  else
    let w1 := save_state w in
    let indices_to_delete := Py.sorted_reverse (elements (selected_indices w1)) in
    {| images := pop_each indices_to_delete (images w1);
       selected_indices := ∅;
       last_selected_index := None;
       history := history w1;
       redo_stack := redo_stack w1;
       max_history := max_history w1 |}.

(** First loop of [handle_drop]: [images_to_move], read from the list
    before anything is removed. *)
Fixpoint items_to_move (source_indices : list Z) (imgs : list ImageEntry)
    : list ImageEntry :=
  match source_indices with
  | [] => []
  | idx :: rest =>
      if Py.in_bounds idx imgs then
        match Py.item idx imgs with
        | Some x => x :: items_to_move rest imgs
        | None => items_to_move rest imgs
        end
      else items_to_move rest imgs
  end.

(** Second loop of [handle_drop]: each valid index is popped and the
    running [target_index] is decremented when the index is below it. *)
Fixpoint remove_sources (source_indices : list Z) (imgs : list ImageEntry)
    (target_index : Z) : list ImageEntry * Z :=
  match source_indices with
  | [] => (imgs, target_index)
  | idx :: rest =>
      if Py.in_bounds idx imgs then
        remove_sources rest (Py.pop_at idx imgs)
          (if idx <? target_index then target_index - 1 else target_index)
      else remove_sources rest imgs target_index
  end.

(** Third loop of [handle_drop]: [for i, image_data in enumerate(...):
    self.images.insert(target_index, image_data)]; the counter [i] is not
    used, every insertion is at [target_index]. *)
Fixpoint insert_all (items : list ImageEntry) (target_index : Z)
    (imgs : list ImageEntry) : list ImageEntry :=
  match items with
  | [] => imgs
  | image_data :: rest => insert_all rest target_index (Py.insert target_index image_data imgs)
  end.

(** Last loop of [handle_drop]: [target_index + i] for [i] in
    [range(len(images_to_move))]. *)
Definition dropped_positions (target_index : Z) (count : nat) : gset Z :=
  list_to_set ((λ i : nat, target_index + Z.of_nat i) <$> seq 0 count).

(** [handle_drop].  [save_state] is the first statement of the [try]
    block; when parsing [indices_str] raises, the [except] branch prints
    and hides the end drop zone, and what [save_state] did stays. *)
Definition handle_drop (indices_str : string) (target_index : Z)
    (w : t) : t :=
  let w1 := save_state w in
  match Py.ints (Py.split_comma indices_str) with
  | None => w1
  | Some parsed =>
      let source_indices := Py.sorted_reverse parsed in
      let images_to_move := items_to_move source_indices (images w1) in
      let '(remaining, target) :=
        remove_sources source_indices (images w1) target_index in
      {| images := insert_all (rev images_to_move) target remaining;
         selected_indices := dropped_positions target (length images_to_move);
         last_selected_index := last_selected_index w1;
         history := history w1;
         redo_stack := redo_stack w1;
         max_history := max_history w1 |}
  end.

(** [dropEvent] of the grid itself: a drop on empty space moves to the end. *)
Definition drop_on_grid (indices_str : string) (w : t) : t :=
  handle_drop indices_str (Py.len (images w)) w.

(** *** what the widgets show and send *)

(** [get_selected_indices]: [sorted(list(self.selected_indices))]. *)
Definition get_selected_indices (w : t) : list Z :=
  Py.sorted (elements (selected_indices w)).

(** [calculate_columns]; [thumbnail_size] is the widget's field and
    [viewport_width] the width the scroll area reports. *)
Definition calculate_columns (thumbnail_size viewport_width : Z) (w : t) : Z :=
  match images w with
  | [] => 1
  | _ :: _ =>
      let item_width := thumbnail_size + 10 + 30 + 10 in
      let available_width := viewport_width - 40 in
      Z.max 1 (available_width / item_width)
  end.

(** The widgets [rebuild_grid] puts into the layout. *)
Inductive Widget :=
| Thumbnail (index : Z) (selected : bool)   (* ImageThumbnail(..., i, self) *)
| Zone (index : Z)                          (* DropZone(i + 1, self) *)
| EndZone (index : Z).                      (* the '+' DropZone(len(self.images), self) *)

(** One [self.layout.addWidget(widget, row, column)]. *)
Record Placed := { placed : Widget; at_row : Z; at_column : Z }.

(** The loop of [rebuild_grid] over [enumerate(self.images)], from
    position [i] on; [count] is [len(self.images)]. *)
Fixpoint place_items (i : Z) (entries : list ImageEntry) (count columns : Z)
    (sel : gset Z) : list Placed :=
  match entries with
  | [] => []
  | _ :: rest =>
      let row := i / columns in
      let col_pair := (i mod columns) * 2 in
      {| placed := Thumbnail i (bool_decide (i ∈ sel)); at_row := row; at_column := col_pair |}
      :: (if i <? count - 1
          then [{| placed := Zone (i + 1); at_row := row; at_column := col_pair + 1 |}]
          else [])
      ++ place_items (i + 1) rest count columns sel
  end.

(** [rebuild_grid]: the layout is emptied and filled again; the end drop
    zone is created every time and added while a drag is active. *)
Definition rebuild_grid (thumbnail_size viewport_width : Z) (is_dragging_active : bool)
    (w : t) : list Placed :=
  match images w with
  | [] => []
  | _ :: _ =>
      let columns := calculate_columns thumbnail_size viewport_width w in
      let last_index := Py.len (images w) - 1 in
      place_items 0 (images w) (Py.len (images w)) columns (selected_indices w)
      ++ (if is_dragging_active
          then [{| placed := EndZone (Py.len (images w));
                   at_row := last_index / columns;
                   at_column := (last_index mod columns) * 2 + 1 |}]
          else [])
  end.

End ImageGridWidget.

(** ** classes [ImageThumbnail] and [DropZone] *)

Module ImageThumbnail.

(** [QApplication.keyboardModifiers()] as the handler tells them apart:
    exactly Control, exactly Shift, anything else. *)
Inductive Modifiers := ControlModifier | ShiftModifier | OtherModifiers.

(** [mousePressEvent] with the left button, on the thumbnail with this
    [index] whose [is_selected] flag has this value; the result is what
    the call does to the parent grid. *)
Definition mousePressEvent (modifiers : Modifiers) (index : Z) (is_selected : bool)
    (grid_widget : ImageGridWidget.t) : ImageGridWidget.Outcome :=
  match modifiers with
  | ControlModifier => ImageGridWidget.toggle_selection index grid_widget
  | ShiftModifier => ImageGridWidget.select_range index grid_widget
  | OtherModifiers =>
      if is_selected then ImageGridWidget.Returned grid_widget
      else ImageGridWidget.select_single index
             (ImageGridWidget.clear_selection grid_widget)
  end.

(** How [start_drag] ends. *)
Inductive Started :=
| NothingSelected                  (* the early [return] *)
| MarkingRaises                    (* [IndexError] in the loop that marks the thumbnails *)
| Dragging (indices_str : string). (* [drag.exec] runs with this text as mime data *)

(** [start_drag].  The loop that marks the selected thumbnails as
    dragging indexes [thumbnails[idx]] behind the guard
    [idx < len(thumbnails)] and runs before the [QDrag] is made. *)
Definition start_drag (grid_widget : ImageGridWidget.t) : Started :=
  match ImageGridWidget.get_selected_indices grid_widget with
  | [] => NothingSelected
  | selected_indices =>
      if existsb (fun idx => ImageGridWidget.set_selected_raises idx grid_widget)
           selected_indices
      then MarkingRaises
      else Dragging (Py.join_comma (Py.str <$> selected_indices))
  end.

End ImageThumbnail.

Module DropZone.

(** [dropEvent] of the drop zone with this [index], for a drag that
    carries [indices_str]. *)
Definition dropEvent (index : Z) (indices_str : string)
    (grid_widget : ImageGridWidget.t) : ImageGridWidget.t :=
  ImageGridWidget.handle_drop indices_str index grid_widget.

End DropZone.

(** The mouse handlers of [ImageThumbnail] that decide when a drag starts. *)
Module Pointer.
Import ImageThumbnail.

(** [QPoint.manhattanLength()]. *)
Definition manhattanLength (p : Z * Z) : Z := Z.abs p.1 + Z.abs p.2.

(** [self.drag_threshold]. *)
Definition drag_threshold : Z := 5.

(** The mouse events of one thumbnail: [mousePressEvent] with the button
    and the keyboard modifiers, [mouseMoveEvent] with the state of the
    left button, [mouseReleaseEvent].  [raises] tells how the call that
    the handler makes ends, if it makes one: for a press the selection
    method of the grid ([ImageGridWidget.IndexError]), for a move
    [start_drag] ([ImageThumbnail.MarkingRaises]).  The handler then
    stops at the call, and the assignment that follows it is not
    reached. *)
Inductive event :=
| Press (left_button : bool) (modifiers : Modifiers) (raises : bool) (pos : Z * Z)
| Move (left_held : bool) (raises : bool) (pos : Z * Z)
| Release.

(** What an event does to the field [drag_start_position], and whether
    it calls [start_drag].  A press of the left button first stores its
    position; the branches for exactly Ctrl and exactly Shift take it
    back after their call, the last branch (no modifier, or any other
    combination, such as Ctrl with Shift) leaves it. *)
Definition handle (e : event) (drag_start_position : option (Z * Z))
    : bool * option (Z * Z) :=
  match e with
  | Press left_button modifiers raises pos =>
      if left_button then
        match modifiers with
        | ControlModifier | ShiftModifier =>
            if raises then (false, Some pos) else (false, None)
        | OtherModifiers => (false, Some pos)
        end
      else (false, drag_start_position)
  | Move left_held raises pos =>
      if negb left_held then (false, drag_start_position)
      else
        match drag_start_position with
        | None => (false, None)
        | Some start =>
            let distance := manhattanLength (pos.1 - start.1, pos.2 - start.2) in
            if distance <? drag_threshold then (false, drag_start_position)
            else if raises then (true, drag_start_position)
            else (true, None)
        end
  | Release => (false, None)
  end.

(** The events of a thumbnail in order: for each one whether it called
    [start_drag], and the field at the end. *)
Fixpoint run (es : list event) (drag_start_position : option (Z * Z))
    : list bool * option (Z * Z) :=
  match es with
  | [] => ([], drag_start_position)
  | e :: es' =>
      let '(called, position) := handle e drag_start_position in
      let '(calls, final) := run es' position in
      (called :: calls, final)
  end.

(** A press of the left button that leaves its position in the field:
    one in the last branch, or one with exactly Ctrl or exactly Shift
    whose selection method raised. *)
Definition arming (modifiers : Modifiers) (raises : bool) : Prop :=
  modifiers = OtherModifiers \/ raises = true.

(** An event that leaves a press at [start] pending: a press of another
    button, a move without the left button, a move that stays within
    the threshold, or a move whose [start_drag] raised. *)
Definition pending (start : Z * Z) (e : event) : Prop :=
  match e with
  | Press left_button _ _ _ => left_button = false
  | Move left_held raises pos =>
      left_held = false
      \/ manhattanLength (pos.1 - start.1, pos.2 - start.2) < drag_threshold
      \/ raises = true
  | Release => False
  end.

End Pointer.

(** ** [QSpinBox] *)

(** The two spin boxes of the window are Qt's [QSpinBox].  Qt keeps the
    value inside the range: [setValue] stores the bounded value,
    [setRange] raises the maximum to the minimum when needed and re-bounds
    the value, [setMinimum(m)] is [setRange(m, max(maximum, m))].
    [changed] tells whether a call moved the value, which is when Qt
    emits [valueChanged]. *)
Module QSpinBox.

Record t := { value : Z; minimum : Z; maximum : Z }.

Definition bound (sb : t) (v : Z) : Z :=
  if v <? minimum sb then minimum sb
  else if maximum sb <? v then maximum sb
  else v.

Definition setValue (v : Z) (sb : t) : t :=
  {| value := bound sb v; minimum := minimum sb; maximum := maximum sb |}.

Definition setRange (mn mx : Z) (sb : t) : t :=
  setValue (value sb)
    {| value := value sb; minimum := mn; maximum := if mn <? mx then mx else mn |}.

Definition setMinimum (mn : Z) (sb : t) : t :=
  setRange mn (if mn <? maximum sb then maximum sb else mn) sb.

Definition changed (before after : t) : bool :=
  negb (value before =? value after).

(** A fresh [QSpinBox()]: range 0..99, value 0. *)
Definition new : t := {| value := 0; minimum := 0; maximum := 99 |}.

End QSpinBox.

(** ** class [FlipbookApp] *)

Record QColor := { red : Z; green : Z; blue : Z; alpha : Z }.

(** What [QPixmap.fill] was called with. *)
Inductive Fill :=
| FillTransparent
| FillColor (c : QColor).

(** One [painter.drawPixmap(x, y, pm)]; [scaled_to] is [Some (w, h)] when
    [pm] is [pixmap.scaled(w, h, IgnoreAspectRatio, SmoothTransformation)]. *)
Record Drawn := {
  at_x : Z;
  at_y : Z;
  source : QPixmap;
  scaled_to : option (Z * Z)
}.

(** The [flipbook_texture] being built: the size and fill it was created
    with, the draw calls in order, and the final rescale if any. *)
Record Texture := {
  tex_width : Z;
  tex_height : Z;
  tex_fill : Fill;
  tex_drawn : list Drawn;
  tex_rescaled : option (Z * Z)
}.

(** Whether the pixmap is null: [QPixmap(w, h)] and [QPixmap.scaled(w, h)]
    give a null pixmap when [w] or [h] is not positive, and a null
    pixmap stays null when it is scaled. *)
Definition texture_is_null (tx : Texture) : bool :=
  (tex_width tx <=? 0) || (tex_height tx <=? 0)
  || match tex_rescaled tx with
     | Some (w, h) => (w <=? 0) || (h <=? 0)
     | None => false
     end.

(** Size of the texture as [image.width()], [image.height()] report it:
    0 by 0 for a null pixmap. *)
Definition texture_size (tx : Texture) : Z * Z :=
  if texture_is_null tx then (0, 0)
  else
    match tex_rescaled tx with
    | Some wh => wh
    | None => (tex_width tx, tex_height tx)
    end.

(** How [export_flipbook] ends. *)
Inductive Export :=
| NoImages                     (* "No images to export" *)
| Canceled                     (* "Export canceled" *)
| QImageSave (image : Texture) (file_path format : string) (quality : option Z)
| PILSave (size : Z * Z) (rgba : list Z) (file_path format : string).

(** Python float arithmetic, on the kernel's binary64 numbers.  [of_int] is
    the conversion of a non-negative int below [2^63]; [trunc] is
    [int(f)] for a finite [f]. *)
Module PyFloat.

Definition of_int (n : Z) : float := PrimFloat.of_uint63 (Uint63.of_Z n).

Definition trunc (f : float) : Z :=
  match Prim2SF f with
  | S754_finite s m e =>
      let v := if 0 <=? e then Z.shiftl (Z.pos m) e else Z.shiftr (Z.pos m) (- e) in
      if s then - v else v
  | _ => 0
  end.

End PyFloat.

(** [math.ceil(math.sqrt(n))] for a list length [n].  The float square
    root is correctly rounded, so below [2^52] its ceiling is the integer
    ceiling of the square root. *)
Definition ceil_sqrt (n : Z) : Z := Z.sqrt_up n.

(** [math.ceil(a / b)] for a list length [a] and a spin-box value
    [b >= 1]: the integer ceiling of the quotient. *)
Definition ceil_div (a b : Z) : Z := (a + b - 1) / b.

(** [s.lower()] on ASCII letters. *)
Definition lower_char (c : ascii) : ascii :=
  let n := N_of_ascii c in
  if (65 <=? n)%N && (n <=? 90)%N then ascii_of_N (n + 32) else c.

Fixpoint lower (s : string) : string :=
  match s with
  | EmptyString => EmptyString
  | String c s' => String (lower_char c) (lower s')
  end.

(** [s.endswith(suffix)]. *)
Definition endswith (s suffix : string) : bool :=
  let n := String.length s in
  let m := String.length suffix in
  (m <=? n)%nat && String.eqb (substring (n - m) m s) suffix.

(** PIL's raw decoder for raw mode ["BGRA"] into an ["RGBA"] image: in
    every four bytes the first and the third change places. *)
Fixpoint unpack_BGRA (buffer : list Z) : list Z :=
  match buffer with
  | b :: g :: r :: a :: rest => r :: g :: b :: a :: unpack_BGRA rest
  | _ => []
  end.

(** [IMAGE_EXTENSIONS]. *)
Definition IMAGE_EXTENSIONS : list string :=
  [".png"; ".jpg"; ".jpeg"; ".webp"; ".bmp"; ".tga"]%string.

(** [filename.lower().endswith(IMAGE_EXTENSIONS)], the test that
    [add_images] and [select_folder] apply to a file name before they
    load it. *)
Definition is_image_file (filename : string) : bool :=
  existsb (endswith (lower filename)) IMAGE_EXTENSIONS.

(** The characters at which [os.path.basename] cuts a path: the slash,
    and on Windows also the backslash. *)
Definition is_separator (c : ascii) : bool :=
  Ascii.eqb c "/" || Ascii.eqb c (ascii_of_nat 92).

Module FlipbookApp.

Record t := {
  image_grid : ImageGridWidget.t;
  columns_input : QSpinBox.t;
  rows_input : QSpinBox.t;
  scale_slider : Z;
  bg_combo : string;
  current_bg_color : QColor
}.

(** [__init__]: both spin boxes get [setRange(1, 100)] and [setValue(4)]
    before their signal is connected; the slider starts at 100 and the
    combo box at its first item. *)
Definition init : t :=
  {| image_grid := ImageGridWidget.init;
     columns_input := QSpinBox.setValue 4 (QSpinBox.setRange 1 100 QSpinBox.new);
     rows_input := QSpinBox.setValue 4 (QSpinBox.setRange 1 100 QSpinBox.new);
     scale_slider := 100;
     bg_combo := "Transparency";
     current_bg_color := {| red := 42; green := 42; blue := 42; alpha := 255 |} |}.

Definition with_grid (g : ImageGridWidget.t) (app : t) : t :=
  {| image_grid := g;
     columns_input := columns_input app;
     rows_input := rows_input app;
     scale_slider := scale_slider app;
     bg_combo := bg_combo app;
     current_bg_color := current_bg_color app |}.

Definition with_inputs (cols rows : QSpinBox.t) (app : t) : t :=
  {| image_grid := image_grid app;
     columns_input := cols;
     rows_input := rows;
     scale_slider := scale_slider app;
     bg_combo := bg_combo app;
     current_bg_color := current_bg_color app |}.

(** *** Grid size *)

(** The loop [while (cols - 1) * rows >= image_count: cols -= 1].  The
    recursion is on a step bound; [get_min_grid_size] passes a bound
    that the loop does not reach. *)
Fixpoint reduce_cols (steps : nat) (rows image_count cols : Z) : Z :=
  match steps with
  | O => cols
  | S steps' =>
      if (cols - 1) * rows >=? image_count
      then reduce_cols steps' rows image_count (cols - 1)
      else cols
  end.

(** The body of [get_min_grid_size] after [image_count] is read; the
    result is the tuple [rows, cols] of the [return]. *)
Definition min_grid_for_count (image_count : Z) : Z * Z :=
  if image_count =? 0 then (1, 1)
  else
    let rows := ceil_sqrt image_count in
    let cols := rows in
    (rows, reduce_cols (Z.to_nat cols) rows image_count cols).

Definition get_min_grid_size (app : t) : Z * Z :=
  min_grid_for_count (Py.len (ImageGridWidget.images (image_grid app))).

(** [update_grid_constraints].  Signals are blocked around the four
    calls of the second branch.  In the first branch [setMinimum(1)]
    cannot move a value, which is never below 1. *)
Definition update_grid_constraints (app : t) : t :=
  match ImageGridWidget.images (image_grid app) with
  | [] =>
      with_inputs (QSpinBox.setMinimum 1 (columns_input app))
                  (QSpinBox.setMinimum 1 (rows_input app)) app
  | _ :: _ =>
      let image_count := Py.len (ImageGridWidget.images (image_grid app)) in
      let current_cols := QSpinBox.value (columns_input app) in
      let current_rows := QSpinBox.value (rows_input app) in
      let min_rows := ceil_div image_count current_cols in
      let min_cols := ceil_div image_count current_rows in
      let c1 := QSpinBox.setMinimum min_cols (columns_input app) in
      let r1 := QSpinBox.setMinimum min_rows (rows_input app) in
      let c2 := if current_cols <? min_cols then QSpinBox.setValue min_cols c1 else c1 in
      let r2 := if current_rows <? min_rows then QSpinBox.setValue min_rows r1 else r1 in
      with_inputs c2 r2 app
  end.

(** [on_grid_changed], the slot of both [valueChanged] signals; after
    [update_grid_constraints] it only rewrites labels. *)
Definition on_grid_changed (app : t) : t := update_grid_constraints app.

(** [self.columns_input.setValue(v)] with its signal. *)
Definition set_columns (v : Z) (app : t) : t :=
  let c := QSpinBox.setValue v (columns_input app) in
  let app1 := with_inputs c (rows_input app) app in
  if QSpinBox.changed (columns_input app) c then on_grid_changed app1 else app1.

(** [self.rows_input.setValue(v)] with its signal. *)
Definition set_rows (v : Z) (app : t) : t :=
  let r := QSpinBox.setValue v (rows_input app) in
  let app1 := with_inputs (columns_input app) r app in
  if QSpinBox.changed (rows_input app) r then on_grid_changed app1 else app1.

(** The lines every caller of [get_min_grid_size] runs:
    [cols, rows = self.get_min_grid_size()], the two [setValue] calls and
    [update_grid_constraints()] ([update_resolution] writes a label). *)
Definition resize_to_min_grid (app : t) : t :=
  let '(cols, rows) := get_min_grid_size app in
  update_grid_constraints (set_rows rows (set_columns cols app)).

(** *** Wrappers around the grid *)

Definition undo (app : t) : t :=
  resize_to_min_grid (with_grid (ImageGridWidget.undo (image_grid app)) app).

Definition redo (app : t) : t :=
  resize_to_min_grid (with_grid (ImageGridWidget.redo (image_grid app)) app).

Definition delete_selected_images (app : t) : t :=
  resize_to_min_grid (with_grid (ImageGridWidget.delete_selected (image_grid app)) app).

(** [add_images] from the point where [images_data] has been loaded. *)
Definition add_images (images_data : list ImageEntry) (app : t) : t :=
  match images_data with
  | [] => app
  | _ :: _ =>
      resize_to_min_grid
        (with_grid (ImageGridWidget.append_images images_data (image_grid app)) app)
  end.

(** [select_folder] from the point where [images_data] has been loaded. *)
Definition select_folder (images_data : list ImageEntry) (app : t) : t :=
  resize_to_min_grid
    (with_grid (ImageGridWidget.add_images images_data (image_grid app)) app).

(** *** Export *)

(** The loop over [enumerate(self.image_grid.images)], from position
    [idx] on. *)
Fixpoint draw_cells (idx : Z) (entries : list ImageEntry)
    (columns rows cell_width cell_height : Z) : list Drawn :=
  match entries with
  | [] => []
  | (pixmap, _, _) :: rest =>
      if idx >=? columns * rows then []
      else
        let row := idx / columns in
        let col := idx mod columns in
        let x := col * cell_width in
        let y := row * cell_height in
        {| at_x := x; at_y := y; source := pixmap;
           scaled_to :=
             if negb (pm_width pixmap =? cell_width)
                || negb (pm_height pixmap =? cell_height)
             then Some (cell_width, cell_height) else None |}
        :: draw_cells (idx + 1) rest columns rows cell_width cell_height
  end.

(** The texture when [painter.end()] returns. *)
Definition paint (first_pixmap : QPixmap) (app : t) : Texture :=
  let columns := QSpinBox.value (columns_input app) in
  let rows := QSpinBox.value (rows_input app) in
  let cell_width := pm_width first_pixmap in
  let cell_height := pm_height first_pixmap in
  {| tex_width := cell_width * columns;
     tex_height := cell_height * rows;
     tex_fill := if String.eqb (bg_combo app) "Transparency"
                 then FillTransparent else FillColor (current_bg_color app);
     tex_drawn := draw_cells 0 (ImageGridWidget.images (image_grid app))
                    columns rows cell_width cell_height;
     tex_rescaled := None |}.

(** The final output scaling. *)
Definition apply_scale (scale_value : Z) (tx : Texture) : Texture :=
  let scale := PrimFloat.div (PyFloat.of_int scale_value) (PyFloat.of_int 100) in
  let output_width := PyFloat.trunc (PrimFloat.mul (PyFloat.of_int (tex_width tx)) scale) in
  let output_height := PyFloat.trunc (PrimFloat.mul (PyFloat.of_int (tex_height tx)) scale) in
  if negb (output_width =? tex_width tx) || negb (output_height =? tex_height tx)
  then {| tex_width := tex_width tx; tex_height := tex_height tx;
          tex_fill := tex_fill tx; tex_drawn := tex_drawn tx;
          tex_rescaled := Some (output_width, output_height) |}
  else tx.


Section Saving.
(** [image.bits().tobytes()]: the bytes Qt renders a texture to. *)
Variable bits : Texture -> list Z.

(** The chain of [endswith] tests on [file_path.lower()]. *)
Definition save (image : Texture) (file_path : string) : Export :=
  let p := lower file_path in
  if endswith p ".jpg" || endswith p ".jpeg" then QImageSave image file_path "JPEG" (Some 95)
  else if endswith p ".png" then QImageSave image file_path "PNG" None
  else if endswith p ".webp" then QImageSave image file_path "WEBP" None
  else if endswith p ".bmp" then QImageSave image file_path "BMP" None
  else if endswith p ".tiff" || endswith p ".tif" then QImageSave image file_path "TIFF" None
  else if endswith p ".tga" then
    PILSave (texture_size image) (unpack_BGRA (bits image)) file_path "TGA"
  else QImageSave image file_path "PNG" None.

(** [export_flipbook]; [file_path] is what the save dialog returned. *)
Definition export_flipbook (file_path : string) (app : t) : Export :=
  match ImageGridWidget.images (image_grid app) with
  | [] => NoImages
  | (first_pixmap, _, _) :: _ =>
      if String.eqb file_path "" then Canceled
      else save (apply_scale (scale_slider app) (paint first_pixmap app)) file_path
  end.
End Saving.

End FlipbookApp.

(** ** Sessions *)

(** The methods through which the window and the drop zones drive the
    grid, as commands, and a session as a list of them. *)
Module Session.
Import ImageGridWidget.

Inductive command :=
| AddImages (entries : list ImageEntry)
| AppendImages (entries : list ImageEntry)
| ClearSelection
| SelectSingle (index : Z)
| ToggleSelection (index : Z)
| SelectRange (index : Z)
| DeleteSelected
| HandleDrop (indices_str : string) (target_index : Z)
| Undo
| Redo.

(** The call a command stands for.  Only the three selection methods
    can raise; [handle_drop] catches what its body raises. *)
Definition call (c : command) (w : t) : Outcome :=
  match c with
  | AddImages entries => Returned (add_images entries w)
  | AppendImages entries => Returned (append_images entries w)
  | ClearSelection => Returned (clear_selection w)
  | SelectSingle index => select_single index w
  | ToggleSelection index => toggle_selection index w
  | SelectRange index => select_range index w
  | DeleteSelected => Returned (delete_selected w)
  | HandleDrop indices_str target_index =>
      Returned (handle_drop indices_str target_index w)
  | Undo => Returned (undo w)
  | Redo => Returned (redo w)
  end.

(** The state a command leaves, whether its call returns or raises: Qt
    prints the traceback of an error in a handler and goes on. *)
Definition step (c : command) (w : t) : t := state (call c w).

Fixpoint run (cs : list command) (w : t) : t :=
  match cs with
  | [] => w
  | c :: cs' => run cs' (step c w)
  end.

(** [i] is a position of the current order. *)
Definition valid_index (i : Z) (w : t) : Prop := 0 <= i < Py.len (images w).

(** The selection invariant: every member is a position of the order. *)
Definition selection_valid (w : t) : Prop :=
  forall i, i ∈ selected_indices w -> valid_index i w.

(** The same for the anchor of range selection. *)
Definition anchor_valid (w : t) : Prop :=
  forall i, last_selected_index w = Some i -> valid_index i w.

(** The index arguments of a command are in range: a position for the
    three selection commands, a gap in [0, len] for a drop. *)
Definition in_range (c : command) (w : t) : Prop :=
  match c with
  | SelectSingle index | ToggleSelection index | SelectRange index =>
      valid_index index w
  | HandleDrop _ target_index => 0 <= target_index <= Py.len (images w)
  | _ => True
  end.

(** Every command of the session has its index arguments in range for
    the state it is applied to. *)
Fixpoint all_in_range (cs : list command) (w : t) : Prop :=
  match cs with
  | [] => True
  | c :: cs' => in_range c w /\ all_in_range cs' (step c w)
  end.

(** Both stacks together stay within the cap. *)
Definition stacks_within_cap (w : t) : Prop :=
  Py.len (history w) + Py.len (redo_stack w) <= max_history w.

(** Strictly descending, the order in which [handle_drop] visits a set
    of indices. *)
Definition desc : relation Z := fun a b => b < a.

(** How many of the indices are strictly below [T]. *)
Definition count_below (T : Z) (l : list Z) : Z := Py.len (filter (fun i => i < T) l).

End Session.

(** ** The window's events *)

(** What the user can do to the window, each event with the handler the
    source connects to it. *)
Module Window.
Import FlipbookApp.

Inductive event :=
| ColumnsEdited (v : Z)              (* columns_input.valueChanged *)
| RowsEdited (v : Z)                 (* rows_input.valueChanged *)
| UndoPressed
| RedoPressed
| DeletePressed
| ImagesAdded (images_data : list ImageEntry)
| FolderSelected (images_data : list ImageEntry)
| ThumbnailPressed (modifiers : ImageThumbnail.Modifiers) (index : Z) (is_selected : bool)
| BackgroundPressed
| DroppedOnZone (index : Z)          (* a drag of the selection ends on DropZone(index) *)
| DroppedOnGrid.                     (* ... on the grid's empty space *)

Definition on_grid (f : ImageGridWidget.t -> ImageGridWidget.t) (app : t) : t :=
  with_grid (f (image_grid app)) app.

(** A drag from [start_drag] to the [dropEvent] it ends on. *)
Definition drag (drop : string -> ImageGridWidget.t -> ImageGridWidget.t)
    (grid_widget : ImageGridWidget.t) : ImageGridWidget.t :=
  match ImageThumbnail.start_drag grid_widget with
  | ImageThumbnail.Dragging indices_str => drop indices_str grid_widget
  | ImageThumbnail.NothingSelected | ImageThumbnail.MarkingRaises => grid_widget
  end.

Definition handle (e : event) (app : t) : t :=
  match e with
  | ColumnsEdited v => set_columns v app
  | RowsEdited v => set_rows v app
  | UndoPressed => undo app
  | RedoPressed => redo app
  | DeletePressed => delete_selected_images app
  | ImagesAdded images_data => add_images images_data app
  | FolderSelected images_data => select_folder images_data app
  | ThumbnailPressed modifiers index is_selected =>
      on_grid (fun grid_widget =>
                 ImageGridWidget.state
                   (ImageThumbnail.mousePressEvent modifiers index is_selected grid_widget))
              app
  | BackgroundPressed => on_grid ImageGridWidget.clear_selection app
  | DroppedOnZone index => on_grid (drag (DropZone.dropEvent index)) app
  | DroppedOnGrid => on_grid (drag ImageGridWidget.drop_on_grid) app
  end.

(** The widget an event names exists: a thumbnail has an index of the
    order, a drop zone an index in [1, len]. *)
Definition possible (e : event) (app : t) : Prop :=
  let n := Py.len (ImageGridWidget.images (image_grid app)) in
  match e with
  | ThumbnailPressed _ index _ => 0 <= index < n
  | DroppedOnZone index => 1 <= index <= n
  | _ => True
  end.

Fixpoint run (es : list event) (app : t) : t :=
  match es with
  | [] => app
  | e :: es' => run es' (handle e app)
  end.

Fixpoint all_possible (es : list event) (app : t) : Prop :=
  match es with
  | [] => True
  | e :: es' => possible e app /\ all_possible es' (handle e app)
  end.

(** A spin box with its value inside a range that starts at 1 or above. *)
Definition spin_ok (sb : QSpinBox.t) : Prop :=
  1 <= QSpinBox.minimum sb <= QSpinBox.value sb
  /\ QSpinBox.value sb <= QSpinBox.maximum sb.

(** The grid has a cell for every image. *)
Definition holds_all (app : t) : Prop :=
  Py.len (ImageGridWidget.images (image_grid app))
  <= QSpinBox.value (columns_input app) * QSpinBox.value (rows_input app).

(** What every state of the window satisfies. *)
Definition consistent (app : t) : Prop :=
  spin_ok (columns_input app) /\ spin_ok (rows_input app)
  /\ holds_all app
  /\ Session.selection_valid (image_grid app)
  /\ Session.anchor_valid (image_grid app).

End Window.

(** ** Inputs of the worked examples *)

Module Examples.
Import FlipbookApp.

(** Same size as the cell: the pixmap is drawn as it is. *)
Definition fits (cell_width cell_height : Z) (e : ImageEntry) : Prop :=
  pm_width e.1.1 = cell_width /\ pm_height e.1.1 = cell_height.

(** The window with the four-image example loaded from a folder: the
    grid is sized to 2 by 2 and the scale slider is at 100. *)
Definition cell64 (k : N) : ImageEntry :=
  ({| pm_width := 64; pm_height := 64; pm_key := k |}, "frame.png", "/frames/frame.png")%string.

Definition four_loaded : t := select_folder [cell64 0; cell64 1; cell64 2; cell64 3] init.

(** Five images behind a 2 by 2 grid. *)
Definition five_in_four : t :=
  with_grid (ImageGridWidget.add_images
               [cell64 0; cell64 1; cell64 2; cell64 3; cell64 4] ImageGridWidget.init)
            four_loaded.

(** The values of the two spin boxes are [c] and [r], inside the maxima. *)
Definition settled (app : t) (c r : Z) : Prop :=
  QSpinBox.value (columns_input app) = c /\ c <= QSpinBox.maximum (columns_input app)
  /\ QSpinBox.value (rows_input app) = r /\ r <= QSpinBox.maximum (rows_input app).

(** [n] frames of 64 by 64, and the window after loading them from a
    folder into a fresh window. *)
Definition frames (n : nat) : list ImageEntry := (fun k => cell64 (N.of_nat k)) <$> seq 0 n.

Definition loaded (n : nat) : t := select_folder (frames n) init.

(** A grid that holds two entries with an emptied history and one
    snapshot to redo: load one entry, append one, undo. *)
Definition after_undo : ImageGridWidget.t :=
  ImageGridWidget.undo
    (ImageGridWidget.append_images [cell64 1]
       (ImageGridWidget.add_images [cell64 0] ImageGridWidget.init)).

(** Five entries, nothing selected. *)
Definition five : ImageGridWidget.t :=
  ImageGridWidget.add_images (frames 5) ImageGridWidget.init.

(** The four-image window with the scale slider moved to 50. *)
Definition four_at_half : t :=
  {| image_grid := image_grid four_loaded;
     columns_input := columns_input four_loaded;
     rows_input := rows_input four_loaded;
     scale_slider := 50;
     bg_combo := bg_combo four_loaded;
     current_bg_color := current_bg_color four_loaded |}.

End Examples.

(** ** Auxiliary functions of the proofs *)

(** The number a digit sequence denotes when read after the digits that
    gave [acc]. *)
Fixpoint digits_value (acc : Z) (d : Decimal.uint) : Z :=
  match d with
  | Decimal.Nil => acc
  | Decimal.D0 d => digits_value (10 * acc + 0) d
  | Decimal.D1 d => digits_value (10 * acc + 1) d
  | Decimal.D2 d => digits_value (10 * acc + 2) d
  | Decimal.D3 d => digits_value (10 * acc + 3) d
  | Decimal.D4 d => digits_value (10 * acc + 4) d
  | Decimal.D5 d => digits_value (10 * acc + 5) d
  | Decimal.D6 d => digits_value (10 * acc + 6) d
  | Decimal.D7 d => digits_value (10 * acc + 7) d
  | Decimal.D8 d => digits_value (10 * acc + 8) d
  | Decimal.D9 d => digits_value (10 * acc + 9) d
  end.

(** The cell [(row, column)] of the layout as one number, counting the
    cells row by row; each row has [2 * columns] cells. *)
Definition cell_key (columns : Z) (cell : Z * Z) : Z :=
  2 * (cell.1 * columns + cell.2 / 2) + cell.2 mod 2.

(** The cell that a widget was added to. *)
Definition cell_of (p : ImageGridWidget.Placed) : Z * Z :=
  (ImageGridWidget.at_row p, ImageGridWidget.at_column p).

(** Whether a command calls [save_state] in the state it is applied to:
    [append_images] with a non-empty argument, [delete_selected] with a
    non-empty selection, [handle_drop] always. *)
Definition saves (c : Session.command) (w : ImageGridWidget.t) : bool :=
  match c with
  | Session.AppendImages entries => negb (bool_decide (entries = []))
  | Session.DeleteSelected =>
      negb (bool_decide (ImageGridWidget.selected_indices w = ∅))
  | Session.HandleDrop _ _ => true
  | _ => false
  end.

(** The commands that neither empty the history ([add_images]) nor pop
    from a stack ([undo], [redo]). *)
Definition edit (c : Session.command) : Prop :=
  match c with
  | Session.AddImages _ | Session.Undo | Session.Redo => False
  | _ => True
  end.

(** The orders that the commands of a session save, oldest first. *)
Fixpoint snapshots (cs : list Session.command) (w : ImageGridWidget.t)
    : list (list ImageEntry) :=
  match cs with
  | [] => []
  | c :: cs' =>
      (if saves c w then [ImageGridWidget.images w] else [])
      ++ snapshots cs' (Session.step c w)
  end.


(** * Properties *)

(** ** Python lists *)

Section PyListFacts.
Context {A : Type}.
Implicit Types l : list A.

Lemma len_app l k : Py.len (l ++ k) = Py.len l + Py.len k.
Proof. unfold Py.len. rewrite length_app. lia. Qed.

Lemma len_nonneg l : 0 <= Py.len l.
Proof. unfold Py.len. lia. Qed.

Lemma pop_last_snoc l x : Py.pop_last (l ++ [x]) = Some (l, x).
Proof. unfold Py.pop_last. rewrite rev_app_distr. simpl. by rewrite rev_involutive. Qed.

Lemma pop_last_nil : Py.pop_last (@nil A) = None.
Proof. reflexivity. Qed.

Lemma pop_last_Some l rest x : Py.pop_last l = Some (rest, x) -> l = rest ++ [x].
Proof.
  unfold Py.pop_last. destruct (rev l) as [|y r] eqn:E; [done|].
  intros [= <- <-]. rewrite <- (rev_involutive l), E. reflexivity.
Qed.

Lemma pop_first_snoc l x : l <> [] -> Py.pop_first (l ++ [x]) = Py.pop_first l ++ [x].
Proof. destruct l; [done|reflexivity]. Qed.

Lemma len_pop_first l : l <> [] -> Py.len (Py.pop_first l) = Py.len l - 1.
Proof. destruct l; [done|]. unfold Py.len, Py.pop_first. simpl. rewrite drop_0. lia. Qed.

End PyListFacts.

(** ** How the selection methods end *)

Section Outcomes.
Import ImageGridWidget.

(** The repaint raises exactly below [-len]. *)
Lemma set_selected_raises_spec (index : Z) (w : t) :
  set_selected_raises index w = (index <? - Py.len (images w)).
Proof.
  unfold set_selected_raises, get_all_thumbnails, Py.index_error.
  assert (E : Py.len (seqZ 0 (Py.len (images w))) = Py.len (images w)).
  { unfold Py.len. rewrite length_seqZ. lia. }
  rewrite E. pose proof (len_nonneg (images w)).
  destruct (Z.ltb_spec index (Py.len (images w)));
    destruct (Z.ltb_spec index (- Py.len (images w)));
    destruct (Z.leb_spec (Py.len (images w)) index); simpl; try reflexivity; lia.
Qed.

Lemma select_single_state (index : Z) (w : t) :
  state (select_single index w) = with_selection {[ index ]} (Some index) w.
Proof. unfold select_single. by destruct (set_selected_raises _ _). Qed.

Lemma select_single_returns (index : Z) (w : t) :
  - Py.len (images w) <= index ->
  select_single index w = Returned (with_selection {[ index ]} (Some index) w).
Proof.
  intros H. unfold select_single. rewrite set_selected_raises_spec. cbn [images with_selection].
  by destruct (Z.ltb_spec index (- Py.len (images w))); [lia|].
Qed.

Lemma toggle_selection_returns (index : Z) (w : t) :
  - Py.len (images w) <= index ->
  toggle_selection index w
  = Returned (if decide (index ∈ selected_indices w)
              then with_selection (selected_indices w ∖ {[ index ]}) (Some index) w
              else with_selection ({[ index ]} ∪ selected_indices w) (Some index) w).
Proof.
  intros H. unfold toggle_selection. rewrite set_selected_raises_spec.
  destruct (decide (index ∈ selected_indices w)); cbn [images with_selection];
    by destruct (Z.ltb_spec index (- Py.len (images w))); [lia|].
Qed.

Lemma add_each_returns (indices : list Z) :
  forall w : t,
    Forall (fun i => - Py.len (images w) <= i) indices ->
    add_each indices w
    = Returned (with_selection (selected_indices w ∪ list_to_set indices)
                  (last_selected_index w) w).
Proof.
  induction indices as [|i rest IH]; intros w Hall.
  - simpl. f_equal. destruct w. unfold with_selection. simpl. f_equal.
    by rewrite (right_id_L ∅ (∪)).
  - apply Forall_cons_1 in Hall as [Hi Hrest]. cbn [add_each].
    rewrite set_selected_raises_spec. cbn [images with_selection].
    destruct (Z.ltb_spec i (- Py.len (images w))); [lia|].
    rewrite IH by exact Hrest. unfold with_selection. simpl. f_equal. f_equal.
    apply leibniz_equiv. intros x. rewrite !elem_of_union, elem_of_singleton. tauto.
Qed.

Lemma select_range_returns (index anchor : Z) (w : t) :
  last_selected_index w = Some anchor ->
  - Py.len (images w) <= Z.min anchor index ->
  select_range index w
  = Returned (with_selection
                (selected_indices w
                 ∪ list_to_set (seqZ (Z.min anchor index)
                                  (Z.max anchor index + 1 - Z.min anchor index)))
                (Some anchor) w).
Proof.
  intros Ha Hmin. unfold select_range. rewrite Ha. rewrite add_each_returns.
  - by rewrite Ha.
  - apply List.Forall_forall. intros i Hi. apply (proj2 (list_elem_of_In _ _)) in Hi.
    apply elem_of_seqZ in Hi. lia.
Qed.

(** Returning or not, a selection method touches the selection and the
    anchor only. *)
Lemma add_each_frame (indices : list Z) :
  forall w : t,
    images (state (add_each indices w)) = images w
    /\ history (state (add_each indices w)) = history w
    /\ redo_stack (state (add_each indices w)) = redo_stack w
    /\ max_history (state (add_each indices w)) = max_history w.
Proof.
  induction indices as [|i rest IH]; intros w; [done|].
  cbn [add_each]. destruct (set_selected_raises _ _); [done|].
  destruct (IH (with_selection ({[ i ]} ∪ selected_indices w) (last_selected_index w) w))
    as (H1 & H2 & H3 & H4).
  by rewrite H1, H2, H3, H4.
Qed.

Lemma selection_frame (o : Outcome) (index : Z) (w : t) :
  o = select_single index w \/ o = toggle_selection index w \/ o = select_range index w ->
  images (state o) = images w
  /\ history (state o) = history w
  /\ redo_stack (state o) = redo_stack w
  /\ max_history (state o) = max_history w.
Proof.
  intros [->|[->| ->]].
  - by rewrite select_single_state.
  - unfold toggle_selection.
    destruct (decide _); destruct (set_selected_raises _ _); done.
  - unfold select_range. destruct (last_selected_index w).
    + apply add_each_frame.
    + by rewrite select_single_state.
Qed.

End Outcomes.

(** ** History *)

Section HistoryFacts.
Import ImageGridWidget.

(** With a positive cap the snapshot just pushed is the one [undo] pops. *)
Lemma save_state_newest (w : t) :
  0 < max_history w ->
  exists rest, history (save_state w) = rest ++ [images w].
Proof.
  intros Hcap. unfold save_state. simpl.
  destruct (Z.gtb_spec (Py.len (history w ++ [images w])) (max_history w)) as [Hgt|Hle].
  - destruct (history w) as [|s h] eqn:E.
    + unfold Py.len in Hgt. simpl in Hgt. lia.
    + exists (Py.pop_first (s :: h)). by rewrite pop_first_snoc.
  - by exists (history w).
Qed.

Lemma undo_save_state_images (w : t) :
  0 < max_history w -> images (undo (save_state w)) = images w.
Proof.
  intros Hcap. destruct (save_state_newest w Hcap) as [rest Hrest].
  unfold undo. rewrite Hrest, pop_last_snoc. reflexivity.
Qed.

(** Bound on the history after [save_state]. *)
Lemma save_state_len (w : t) :
  Py.len (history w) <= max_history w ->
  Py.len (history (save_state w)) <= max_history w.
Proof.
  intros Hle. unfold save_state. simpl.
  destruct (Z.gtb_spec (Py.len (history w ++ [images w])) (max_history w)) as [Hgt|Hle'].
  - rewrite len_pop_first by (by destruct (history w)).
    rewrite len_app. unfold Py.len in *. simpl. lia.
  - exact Hle'.
Qed.

End HistoryFacts.

(** ** Append, undo, redo *)

Section AppendUndo.
Import ImageGridWidget.

Lemma append_images_cons (x : ImageEntry) (xs : list ImageEntry) (w : t) :
  images (append_images (x :: xs) w) = images w ++ x :: xs
  /\ history (append_images (x :: xs) w) = history (save_state w)
  /\ redo_stack (append_images (x :: xs) w) = [].
Proof. done. Qed.

(** C4.  For every state with a positive history cap and every non-empty
    list [X]: [append_images X] followed by [undo] gives back the order
    before the append, a following [redo] gives the order with [X]
    appended; [append_images []] returns the state it was given, so no
    snapshot is pushed and nothing is changed. *)
Theorem append_undo_redo (w : t) (X : list ImageEntry) :
  0 < max_history w ->
  X <> [] ->
  images (append_images X w) = images w ++ X
  /\ images (undo (append_images X w)) = images w
  /\ images (redo (undo (append_images X w))) = images w ++ X
  /\ append_images [] w = w.
Proof.
  intros Hcap HX. destruct X as [|x xs]; [done|].
  destruct (save_state_newest w Hcap) as [rest Hrest].
  destruct (append_images_cons x xs w) as (Himg & Hhist & Hredo).
  assert (Hundo : undo (append_images (x :: xs) w) =
                  {| images := images w; selected_indices := ∅;
                     last_selected_index := None; history := rest;
                     redo_stack := [images w ++ x :: xs];
                     max_history := max_history w |}).
  { unfold undo. rewrite Hhist, Hrest, pop_last_snoc, Hredo, Himg. reflexivity. }
  split; [exact Himg|]. split; [by rewrite Hundo|]. split; [|reflexivity].
  rewrite Hundo. unfold redo. simpl. reflexivity.
Qed.

Lemma append_undo_redo_witness :
  let e : ImageEntry := ({| pm_width := 64; pm_height := 64; pm_key := 7 |}, "a.png", "/a.png")%string in
  images (append_images [e] init) = images init ++ [e]
  /\ images (undo (append_images [e] init)) = images init
  /\ images (redo (undo (append_images [e] init))) = images init ++ [e]
  /\ append_images [] init = init.
Proof. intro e. apply (append_undo_redo init [e]); [reflexivity | discriminate]. Defined.

(** [redo] after [undo] gives back the order and both stacks; only the
    selection and the anchor are cleared. *)
Theorem redo_undo (w : t) :
  history w <> [] ->
  images (redo (undo w)) = images w
  /\ history (redo (undo w)) = history w
  /\ redo_stack (redo (undo w)) = redo_stack w
  /\ selected_indices (redo (undo w)) = ∅
  /\ last_selected_index (redo (undo w)) = None.
Proof.
  intros Hne. unfold undo.
  destruct (Py.pop_last (history w)) as [[rest state]|] eqn:E.
  - apply pop_last_Some in E. unfold redo. cbn [redo_stack].
    rewrite pop_last_snoc. cbn [images history redo_stack selected_indices
      last_selected_index]. by rewrite E.
  - unfold Py.pop_last in E. destruct (rev (history w)) eqn:Er; [|done].
    apply (f_equal (@rev _)) in Er. rewrite rev_involutive in Er. done.
Qed.

Lemma redo_undo_witness :
  let w := append_images [Examples.cell64 1] (add_images [Examples.cell64 0] init) in
  images (redo (undo w)) = images w
  /\ history (redo (undo w)) = history w
  /\ redo_stack (redo (undo w)) = redo_stack w
  /\ selected_indices (redo (undo w)) = ∅
  /\ last_selected_index (redo (undo w)) = None.
Proof. intros w. apply (redo_undo w). discriminate. Defined.

End AppendUndo.

(** ** The history cap *)

Section HistoryCap.
Import ImageGridWidget Session.

Lemma save_state_stacks (w : t) :
  stacks_within_cap w -> stacks_within_cap (save_state w).
Proof.
  unfold stacks_within_cap. intros H.
  pose proof (len_nonneg (redo_stack w)).
  assert (Hh : Py.len (history w) <= max_history w) by lia.
  pose proof (save_state_len w Hh). simpl in *.
  change (Py.len (@nil (list ImageEntry))) with 0. lia.
Qed.

Lemma handle_drop_stacks (s : string) (target : Z) (w : t) :
  history (handle_drop s target w) = history (save_state w)
  /\ redo_stack (handle_drop s target w) = []
  /\ max_history (handle_drop s target w) = max_history w.
Proof.
  unfold handle_drop. destruct (Py.ints _); [|done].
  destruct (remove_sources _ _ _). done.
Qed.

Lemma step_max_history (c : command) (w : t) :
  max_history (step c w) = max_history w.
Proof.
  destruct c; unfold step; cbn [call state]; try reflexivity.
  - by destruct entries.
  - apply (selection_frame _ index w); tauto.
  - apply (selection_frame _ index w); tauto.
  - apply (selection_frame _ index w); tauto.
  - unfold delete_selected. by destruct (decide _).
  - apply handle_drop_stacks.
  - unfold undo. by destruct (Py.pop_last _) as [[? ?]|].
  - unfold redo. by destruct (Py.pop_last _) as [[? ?]|].
Qed.

Lemma step_stacks (c : command) (w : t) :
  stacks_within_cap w -> stacks_within_cap (step c w).
Proof.
  intros H.
  assert (Hsel : forall o index,
            o = select_single index w \/ o = toggle_selection index w
            \/ o = select_range index w ->
            stacks_within_cap (state o)).
  { intros o index Ho. destruct (selection_frame o index w Ho) as (_ & H1 & H2 & H3).
    unfold stacks_within_cap. by rewrite H1, H2, H3. }
  destruct c; unfold step; cbn [call state].
  - unfold stacks_within_cap in *. simpl.
    pose proof (len_nonneg (history w)). pose proof (len_nonneg (redo_stack w)).
    change (Py.len (@nil (list ImageEntry))) with 0. lia.
  - destruct entries; [exact H|]. apply (save_state_stacks w H).
  - exact H.
  - apply (Hsel _ index); tauto.
  - apply (Hsel _ index); tauto.
  - apply (Hsel _ index); tauto.
  - unfold delete_selected. destruct (decide _); [exact H|].
    apply (save_state_stacks w H).
  - destruct (handle_drop_stacks indices_str target_index w) as (Hh & Hr & Hm).
    pose proof (save_state_stacks w H) as Hs.
    unfold stacks_within_cap in *. rewrite Hh, Hr, Hm. exact Hs.
  - unfold undo. destruct (Py.pop_last (history w)) as [[rest s]|] eqn:E; [|exact H].
    apply pop_last_Some in E. unfold stacks_within_cap in *. simpl.
    rewrite E in H. unfold Py.len in *. rewrite ?length_app in *. simpl in *. lia.
  - unfold redo. destruct (Py.pop_last (redo_stack w)) as [[rest s]|] eqn:E; [|exact H].
    apply pop_last_Some in E. unfold stacks_within_cap in *. simpl.
    rewrite E in H. unfold Py.len in *. rewrite ?length_app in *. simpl in *. lia.
Qed.

Lemma run_stacks (cs : list command) (w : t) :
  stacks_within_cap w ->
  stacks_within_cap (run cs w) /\ max_history (run cs w) = max_history w.
Proof.
  revert w. induction cs as [|c cs IH]; intros w H; [done|].
  simpl. destruct (IH (step c w) (step_stacks c w H)) as [H1 H2].
  split; [exact H1|]. rewrite H2. apply step_max_history.
Qed.

(** C5.  In every session that starts from a state whose two stacks are
    within the cap (the fresh widget, cap 50, is one), the undo history
    holds at most [max_history] snapshots after every command.  When the
    history is full, [save_state] drops its oldest snapshot and keeps the
    one it pushes as the newest. *)
Theorem history_never_exceeds_cap (w0 : t) (cs : list command) :
  stacks_within_cap w0 ->
  let w := run cs w0 in
  Py.len (history w) <= max_history w0
  /\ (0 < max_history w ->
      Py.len (history w) = max_history w ->
      history (save_state w) = Py.pop_first (history w) ++ [images w]).
Proof.
  intros H0 w. destruct (run_stacks cs w0 H0) as [Hw Hm]. fold w in Hw, Hm.
  split.
  - unfold stacks_within_cap in Hw. pose proof (len_nonneg (redo_stack w)). lia.
  - intros Hpos Hfull. unfold save_state. simpl.
    rewrite len_app. change (Py.len [images w]) with 1.
    destruct (Z.gtb_spec (Py.len (history w) + 1) (max_history w)); [|lia].
    apply pop_first_snoc. intros E. rewrite E in Hfull. unfold Py.len in Hfull.
    simpl in Hfull. lia.
Qed.

Lemma history_never_exceeds_cap_witness :
  let e : ImageEntry := ({| pm_width := 8; pm_height := 8; pm_key := 1 |}, "a", "a")%string in
  let w := run (repeat (AppendImages [e]) 51) init in
  Py.len (history w) <= max_history init
  /\ history (save_state w) = Py.pop_first (history w) ++ [images w].
Proof.
  intros e w.
  assert (H0 : stacks_within_cap init) by (vm_compute; discriminate).
  destruct (history_never_exceeds_cap init (repeat (AppendImages [e]) 51) H0) as [H1 H2].
  split; [exact H1|]. apply H2; vm_compute; reflexivity.
Defined.

End HistoryCap.

(** ** Delete *)

Section Delete.
Import ImageGridWidget.

Lemma delete_selected_some (w : t) :
  selected_indices w <> ∅ ->
  delete_selected w =
    {| images := pop_each (Py.sorted_reverse (elements (selected_indices w))) (images w);
       selected_indices := ∅;
       last_selected_index := None;
       history := history (save_state w);
       redo_stack := [];
       max_history := max_history w |}.
Proof. intros H. unfold delete_selected. by destruct (decide _). Qed.

Lemma delete_selected_none (w : t) :
  selected_indices w = ∅ -> delete_selected w = w.
Proof. intros H. unfold delete_selected. by destruct (decide _). Qed.

(** One [undo] after a delete that removed something restores the order. *)
Lemma undo_delete_selected (w : t) :
  0 < max_history w -> selected_indices w <> ∅ ->
  images (undo (delete_selected w)) = images w.
Proof.
  intros Hcap Hsel. rewrite (delete_selected_some w Hsel).
  destruct (save_state_newest w Hcap) as [rest Hrest].
  unfold undo. cbn [history]. rewrite Hrest, pop_last_snoc. reflexivity.
Qed.

(** Any delete that removes something is undone by one [undo]; it leaves
    nothing selected and no anchor. *)
Theorem delete_then_undo (w : t) :
  0 < max_history w -> selected_indices w <> ∅ ->
  images (undo (delete_selected w)) = images w
  /\ selected_indices (delete_selected w) = ∅
  /\ last_selected_index (delete_selected w) = None.
Proof.
  intros Hcap Hsel. split; [by apply undo_delete_selected|].
  by rewrite (delete_selected_some w Hsel).
Qed.

Lemma delete_then_undo_witness :
  let w := state (select_single 2 Examples.five) in
  images (undo (delete_selected w)) = images w
  /\ selected_indices (delete_selected w) = ∅
  /\ last_selected_index (delete_selected w) = None.
Proof.
  intros w. apply (delete_then_undo w); [reflexivity|].
  intros H. apply (f_equal elements) in H. vm_compute in H. discriminate H.
Defined.

End Delete.

(** ** The minimal grid *)

Section MinGrid.
Import FlipbookApp.

Lemma ceil_sqrt_spec (n : Z) :
  1 <= n ->
  1 <= ceil_sqrt n
  /\ (ceil_sqrt n - 1) * (ceil_sqrt n - 1) < n <= ceil_sqrt n * ceil_sqrt n.
Proof.
  intros Hn. unfold ceil_sqrt.
  pose proof (Z.sqrt_up_spec n ltac:(lia)) as H.
  pose proof (proj2 (Z.sqrt_up_pos n) ltac:(lia)).
  replace (Z.pred (Z.sqrt_up n)) with (Z.sqrt_up n - 1) in H by lia.
  lia.
Qed.

(** What the loop of [get_min_grid_size] returns from [cols = rows]:
    one decrement when [(rows - 1) * rows >= n], none otherwise; in both
    cases it stops because its condition is false, not because the step
    bound ran out. *)
Lemma reduce_cols_from_square (r n : Z) :
  1 <= r -> (r - 1) * (r - 1) < n ->
  reduce_cols (Z.to_nat r) r n r = (if (r - 1) * r >=? n then r - 1 else r).
Proof.
  intros Hr Hlow.
  destruct (Z.to_nat r) as [|k] eqn:Ek; [lia|]. simpl.
  destruct (Z.geb_spec ((r - 1) * r) n) as [Hge|Hlt]; [|reflexivity].
  assert (Hstop : (r - 1 - 1) * r < n) by nia.
  destruct k as [|k']; [reflexivity|]. simpl.
  destruct (Z.geb_spec ((r - 1 - 1) * r) n); [lia|reflexivity].
Qed.

(** The pair computed for [n >= 1] images. *)
Lemma min_grid_for_count_cases (n : Z) :
  1 <= n ->
  exists rows cols,
    min_grid_for_count n = (rows, cols)
    /\ rows = ceil_sqrt n
    /\ rows * cols >= n
    /\ (rows - 1) * cols < n
    /\ rows >= cols
    /\ (cols - 1) * rows < n.
Proof.
  intros Hn.
  destruct (ceil_sqrt_spec n Hn) as (Hr & Hlow & Hup).
  unfold min_grid_for_count.
  destruct (Z.eqb_spec n 0) as [->|_]; [lia|].
  rewrite (reduce_cols_from_square _ n Hr Hlow).
  set (r := ceil_sqrt n) in *.
  destruct (Z.geb_spec ((r - 1) * r) n) as [Hge|Hlt].
  - exists r, (r - 1). repeat split; nia.
  - exists r, r. repeat split; nia.
Qed.

(** C2.  For every [n >= 1] the pair [(rows, cols)] that
    [get_min_grid_size] computes for [n] images has [rows = ceil(sqrt n)],
    [rows * cols >= n], [(rows - 1) * cols < n] and [rows >= cols]; the
    loop has left because [(cols - 1) * rows < n].  For 17, 16 and 1
    images the pairs are (5, 4), (4, 4) and (1, 1). *)
Theorem min_grid_for_count_spec (n : Z) :
  1 <= n ->
  (exists rows cols,
      min_grid_for_count n = (rows, cols)
      /\ rows = ceil_sqrt n
      /\ rows * cols >= n
      /\ (rows - 1) * cols < n
      /\ rows >= cols
      /\ (cols - 1) * rows < n)
  /\ min_grid_for_count 17 = (5, 4)
  /\ min_grid_for_count 16 = (4, 4)
  /\ min_grid_for_count 1 = (1, 1).
Proof.
  intros Hn. split; [exact (min_grid_for_count_cases n Hn) | by vm_compute].
Qed.

Lemma min_grid_for_count_spec_witness :
  (exists rows cols,
      min_grid_for_count 17 = (rows, cols)
      /\ rows = ceil_sqrt 17
      /\ rows * cols >= 17
      /\ (rows - 1) * cols < 17
      /\ rows >= cols
      /\ (cols - 1) * rows < 17)
  /\ min_grid_for_count 17 = (5, 4)
  /\ min_grid_for_count 16 = (4, 4)
  /\ min_grid_for_count 1 = (1, 1).
Proof. apply (min_grid_for_count_spec 17). lia. Defined.

(** [get_min_grid_size] is that function of the number of images. *)
Lemma get_min_grid_size_count (app : t) :
  get_min_grid_size app =
    min_grid_for_count (Py.len (ImageGridWidget.images (image_grid app))).
Proof. reflexivity. Qed.

End MinGrid.

(** ** Export: the layout of the cells *)

Section Layout.
Import FlipbookApp Examples.

Lemma draw_cells_lookup (entries : list ImageEntry) (columns rows cw ch : Z) :
  forall (idx : Z) (k : nat) (e : ImageEntry),
    entries !! k = Some e ->
    idx + Z.of_nat k < columns * rows ->
    Forall (fits cw ch) entries ->
    draw_cells idx entries columns rows cw ch !! k =
      Some {| at_x := (idx + Z.of_nat k) mod columns * cw;
              at_y := (idx + Z.of_nat k) / columns * ch;
              source := e.1.1;
              scaled_to := None |}.
Proof.
  induction entries as [|[[pm nm] pth] entries IH]; intros idx k e Hk Hlt Hfit; [done|].
  apply Forall_cons_1 in Hfit as [[Hw Hh] Hfit']. simpl in Hw, Hh. simpl.
  destruct (Z.geb_spec idx (columns * rows)); [lia|].
  destruct k as [|k].
  - injection Hk as <-. simpl. rewrite Z.add_0_r.
    rewrite Hw, Hh, !Z.eqb_refl. reflexivity.
  - simpl in Hk. simpl.
    rewrite (IH (idx + 1) k e Hk ltac:(lia) Hfit').
    replace (idx + 1 + Z.of_nat k) with (idx + Z.of_nat (S k)) by lia. reflexivity.
Qed.

Lemma draw_cells_beyond (entries : list ImageEntry) (columns rows cw ch : Z) :
  forall (idx : Z) (k : nat),
    columns * rows <= idx + Z.of_nat k ->
    draw_cells idx entries columns rows cw ch !! k = None.
Proof.
  induction entries as [|[[pm nm] pth] entries IH]; intros idx k Hge; [done|].
  simpl. destruct (Z.geb_spec idx (columns * rows)); [done|].
  destruct k as [|k]; [lia|]. simpl. apply IH. lia.
Qed.

Lemma draw_cells_length (entries : list ImageEntry) (columns rows cw ch : Z) :
  forall idx : Z,
    (length (draw_cells idx entries columns rows cw ch) <= length entries)%nat.
Proof.
  induction entries as [|[[pm nm] pth] entries IH]; intros idx; [done|].
  simpl. destruct (_ >=? _); simpl; [lia|]. specialize (IH (idx + 1)). lia.
Qed.

(** C3.  When every entry has the size of the first, the texture that
    [export_flipbook] paints is [cell_width * columns] wide and
    [cell_height * rows] high, entry [k] is drawn unscaled at
    [(k mod columns * cell_width, k div columns * cell_height)] for
    every [k < columns * rows], and nothing is drawn for
    [k >= columns * rows].  Four 64 by 64 entries with 2 columns, 2 rows
    and scale 100 are saved as a 128 by 128 texture with the entries at
    (0,0), (64,0), (0,64), (64,64); with five entries behind 4 cells four
    are drawn. *)
Theorem compose_layout (app : t) (first : QPixmap) (name path : string)
    (rest : list ImageEntry) :
  let entries := ImageGridWidget.images (image_grid app) in
  let columns := QSpinBox.value (columns_input app) in
  let rows := QSpinBox.value (rows_input app) in
  let cell_width := pm_width first in
  let cell_height := pm_height first in
  let tx := paint first app in
  entries = (first, name, path) :: rest ->
  Forall (fits cell_width cell_height) entries ->
  (tex_width tx = cell_width * columns
   /\ tex_height tx = cell_height * rows
   /\ (forall (k : nat) (e : ImageEntry),
         entries !! k = Some e ->
         Z.of_nat k < columns * rows ->
         tex_drawn tx !! k =
           Some {| at_x := Z.of_nat k mod columns * cell_width;
                   at_y := Z.of_nat k / columns * cell_height;
                   source := e.1.1;
                   scaled_to := None |})
   /\ (forall k : nat, columns * rows <= Z.of_nat k -> tex_drawn tx !! k = None)
   /\ (length (tex_drawn tx) <= length entries)%nat)
  /\ (forall (bits : Texture -> list Z),
        export_flipbook bits "flipbook.png" four_loaded =
          QImageSave
            {| tex_width := 128; tex_height := 128; tex_fill := FillTransparent;
               tex_drawn :=
                 [ {| at_x := 0; at_y := 0; source := (cell64 0).1.1; scaled_to := None |};
                   {| at_x := 64; at_y := 0; source := (cell64 1).1.1; scaled_to := None |};
                   {| at_x := 0; at_y := 64; source := (cell64 2).1.1; scaled_to := None |};
                   {| at_x := 64; at_y := 64; source := (cell64 3).1.1; scaled_to := None |} ];
               tex_rescaled := None |}
            "flipbook.png" "PNG" None)
  /\ (source <$> tex_drawn (paint (cell64 0).1.1 five_in_four)
      = [(cell64 0).1.1; (cell64 1).1.1; (cell64 2).1.1; (cell64 3).1.1]).
Proof.
  intros entries columns rows cw ch tx Hentries Hfit.
  split; [|split; [intros bits; vm_compute; reflexivity | vm_compute; reflexivity]].
  split; [reflexivity|]. split; [reflexivity|].
  split; [|split].
  - intros k e Hk Hlt. unfold tx, paint. cbn [tex_drawn].
    apply (draw_cells_lookup _ _ _ _ _ 0 k e Hk); [lia | exact Hfit].
  - intros k Hge. unfold tx, paint. cbn [tex_drawn]. apply draw_cells_beyond. lia.
  - apply draw_cells_length.
Qed.

Lemma compose_layout_witness :
  let tx := paint (cell64 0).1.1 four_loaded in
  tex_width tx = 64 * 2
  /\ tex_height tx = 64 * 2
  /\ tex_drawn tx !! 3%nat =
       Some {| at_x := 64; at_y := 64; source := (cell64 3).1.1; scaled_to := None |}
  /\ tex_drawn tx !! 4%nat = None.
Proof.
  intros tx.
  assert (Hfit : Forall (fits 64 64) (ImageGridWidget.images (image_grid four_loaded)))
    by (repeat constructor).
  pose proof (compose_layout four_loaded (cell64 0).1.1 "frame.png" "/frames/frame.png"
                [cell64 1; cell64 2; cell64 3] eq_refl Hfit) as [(Hw & Hh & Hat & Hnone & _) _].
  split; [exact Hw|]. split; [exact Hh|]. split.
  - apply (Hat 3%nat (cell64 3)); [reflexivity | vm_compute; reflexivity].
  - apply (Hnone 4%nat). vm_compute. discriminate.
Defined.

(** With the scale slider at 50 the 128 by 128 texture of the example is
    rescaled to 64 by 64; with no images nothing is exported. *)
Theorem export_scaled_and_empty (bits : Texture -> list Z) (file_path : string) :
  (exists tx, export_flipbook bits "flipbook.png" four_at_half
              = QImageSave tx "flipbook.png" "PNG" None
              /\ (tex_width tx, tex_height tx) = (128, 128)
              /\ tex_rescaled tx = Some (64, 64)
              /\ texture_size tx = (64, 64))
  /\ export_flipbook bits file_path init = NoImages.
Proof.
  split; [|reflexivity]. eexists. split; [vm_compute; reflexivity|]. by vm_compute.
Qed.

End Layout.

(** ** Export: the output format *)

Section Format.
Import FlipbookApp.

Lemma endswith_inv (s suffix : string) :
  endswith s suffix = true ->
  (String.length suffix <= String.length s)%nat
  /\ substring (String.length s - String.length suffix) (String.length suffix) s = suffix.
Proof.
  unfold endswith. intros H. apply andb_true_iff in H as [Hlen Heq].
  apply Nat.leb_le in Hlen. apply String.eqb_eq in Heq. done.
Qed.

(** Two suffixes of one string agree on the characters that are
    equally far from the end. *)
Lemma endswith_agree (s a b : string) (i j : nat) :
  endswith s a = true -> endswith s b = true ->
  (i < String.length a)%nat -> (j < String.length b)%nat ->
  (String.length a - i = String.length b - j)%nat ->
  String.get i a = String.get j b.
Proof.
  intros Ha Hb Hi Hj Hd.
  apply endswith_inv in Ha as [Hla Ha]. apply endswith_inv in Hb as [Hlb Hb].
  rewrite <- Ha at 1. rewrite <- Hb at 1.
  rewrite !substring_correct1 by assumption. f_equal. lia.
Qed.

(** A string has at most one of two suffixes that differ at some
    distance from the end. *)
Ltac clash H1 H2 i j :=
  let E := fresh in
  pose proof (endswith_agree _ _ _ i j H1 H2) as E;
  simpl in E; specialize (E ltac:(lia) ltac:(lia) ltac:(lia)); discriminate E.

Ltac other_suffix H i j :=
  match goal with
  | |- context [endswith ?p ?x] =>
      let E := fresh "E" in
      destruct (endswith p x) eqn:E; [exfalso; clash H E i j|]
  end.

(** C9.  The format is chosen by the suffix of the lower-cased path: a
    path ending in .jpg or .jpeg is saved as JPEG with quality 95; .png,
    .webp, .bmp, .tiff/.tif select PNG, WEBP, BMP, TIFF; a path ending
    in .tga is saved as TGA through PIL from the pixel buffer with the
    first and third byte of every pixel exchanged (the RGBA/BGRA byte
    order change); a path with none of these suffixes is saved as PNG. *)
Theorem save_format (bits : Texture -> list Z) (image : Texture) (file_path : string) :
  let p := lower file_path in
  (endswith p ".jpg" = true \/ endswith p ".jpeg" = true ->
     save bits image file_path = QImageSave image file_path "JPEG" (Some 95))
  /\ (endswith p ".png" = true ->
        save bits image file_path = QImageSave image file_path "PNG" None)
  /\ (endswith p ".webp" = true ->
        save bits image file_path = QImageSave image file_path "WEBP" None)
  /\ (endswith p ".bmp" = true ->
        save bits image file_path = QImageSave image file_path "BMP" None)
  /\ (endswith p ".tiff" = true \/ endswith p ".tif" = true ->
        save bits image file_path = QImageSave image file_path "TIFF" None)
  /\ (endswith p ".tga" = true ->
        save bits image file_path =
          PILSave (texture_size image) (unpack_BGRA (bits image)) file_path "TGA")
  /\ (Forall (fun ext => endswith p ext = false)
             [".jpg"; ".jpeg"; ".png"; ".webp"; ".bmp"; ".tiff"; ".tif"; ".tga"]%string ->
        save bits image file_path = QImageSave image file_path "PNG" None)
  /\ (forall (b g r a : Z) (rest : list Z),
        unpack_BGRA (b :: g :: r :: a :: rest) = r :: g :: b :: a :: unpack_BGRA rest).
Proof.
  intros p. unfold save. fold p.
  split; [|split; [|split; [|split; [|split; [|split; [|split]]]]]].
  - intros [H|H]; rewrite H; [reflexivity|]. by rewrite orb_true_r.
  - intros H. other_suffix H 1%nat 1%nat. other_suffix H 0%nat 1%nat.
    simpl. by rewrite H.
  - intros H. other_suffix H 1%nat 0%nat. other_suffix H 1%nat 1%nat.
    other_suffix H 1%nat 0%nat. simpl. by rewrite H.
  - intros H. other_suffix H 1%nat 1%nat. other_suffix H 0%nat 1%nat.
    other_suffix H 1%nat 1%nat. other_suffix H 0%nat 1%nat. simpl. by rewrite H.
  - intros [H|H].
    + other_suffix H 1%nat 0%nat. other_suffix H 1%nat 1%nat.
      other_suffix H 1%nat 0%nat. other_suffix H 1%nat 1%nat.
      other_suffix H 1%nat 0%nat. simpl. by rewrite H.
    + other_suffix H 1%nat 1%nat. other_suffix H 0%nat 1%nat.
      other_suffix H 1%nat 1%nat. other_suffix H 0%nat 1%nat.
      other_suffix H 1%nat 1%nat. simpl. rewrite H. by rewrite orb_true_r.
  - intros H. other_suffix H 1%nat 1%nat. other_suffix H 0%nat 1%nat.
    other_suffix H 1%nat 1%nat. other_suffix H 0%nat 1%nat.
    other_suffix H 1%nat 1%nat. other_suffix H 2%nat 3%nat.
    other_suffix H 2%nat 2%nat. simpl. by rewrite H.
  - intros H. repeat (apply Forall_cons_1 in H as [-> H]). reflexivity.
  - reflexivity.
Qed.

Lemma save_format_witness :
  let bits : Texture -> list Z := fun _ => [255; 128; 0; 255] in
  let image := paint (Examples.cell64 0).1.1 Examples.four_loaded in
  save bits image "Sheet.JPG" = QImageSave image "Sheet.JPG" "JPEG" (Some 95)
  /\ save bits image "sheet.tga" = PILSave (128, 128) [0; 128; 255; 255] "sheet.tga" "TGA"
  /\ save bits image "sheet.gif" = QImageSave image "sheet.gif" "PNG" None.
Proof.
  intros bits image.
  pose proof (save_format bits image "Sheet.JPG") as (H1 & _).
  pose proof (save_format bits image "sheet.tga") as (_ & _ & _ & _ & _ & H2 & _).
  pose proof (save_format bits image "sheet.gif") as (_ & _ & _ & _ & _ & _ & H3 & _).
  split; [apply H1; left; reflexivity|].
  split; [rewrite H2 by reflexivity; reflexivity|].
  apply H3. repeat constructor.
Defined.

End Format.

(** ** The selection invariant *)

Section Selection.
Import ImageGridWidget Session.

Lemma in_bounds_spec {A : Type} (idx : Z) (l : list A) :
  Py.in_bounds idx l = true <-> 0 <= idx < Py.len l.
Proof. unfold Py.in_bounds. rewrite andb_true_iff, Z.leb_le, Z.ltb_lt. done. Qed.

Lemma item_in_bounds {A : Type} (idx : Z) (l : list A) :
  Py.in_bounds idx l = true -> is_Some (Py.item idx l).
Proof.
  intros H%in_bounds_spec. unfold Py.item, Py.len in *.
  apply lookup_lt_is_Some. lia.
Qed.

Lemma len_pop_at {A : Type} (idx : Z) (l : list A) :
  Py.in_bounds idx l = true -> Py.len (Py.pop_at idx l) = Py.len l - 1.
Proof.
  intros H. pose proof (item_in_bounds idx l H) as Hs.
  apply in_bounds_spec in H. unfold Py.pop_at, Py.len, Py.item in *.
  rewrite length_delete by exact Hs. lia.
Qed.

Lemma len_insert {A : Type} (i : Z) (x : A) (l : list A) :
  Py.len (Py.insert i x l) = Py.len l + 1.
Proof.
  unfold Py.insert, Py.len. rewrite length_app. simpl.
  rewrite length_take, length_drop. lia.
Qed.

Lemma len_insert_all (items : list ImageEntry) (target : Z) :
  forall imgs, Py.len (insert_all items target imgs) = Py.len imgs + Py.len items.
Proof.
  induction items as [|x items IH]; intros imgs; simpl.
  - unfold Py.len. simpl. lia.
  - rewrite IH, len_insert. unfold Py.len. simpl. lia.
Qed.

(** The running target stays a gap of the list that is left. *)
Lemma remove_sources_target (src : list Z) :
  forall (imgs : list ImageEntry) (target : Z),
    0 <= target <= Py.len imgs ->
    0 <= (remove_sources src imgs target).2
         <= Py.len (remove_sources src imgs target).1.
Proof.
  induction src as [|idx src IH]; intros imgs target Ht; simpl; [done|].
  destruct (Py.in_bounds idx imgs) eqn:Hb; [|by apply IH].
  apply IH. rewrite (len_pop_at idx imgs Hb). apply in_bounds_spec in Hb.
  destruct (Z.ltb_spec idx target); lia.
Qed.

(** No more entries are removed than were collected, also when an
    index occurs twice. *)
Lemma remove_sources_count (all : list ImageEntry) (src : list Z) :
  forall (imgs : list ImageEntry) (target : Z),
    Py.len imgs <= Py.len all ->
    Py.len imgs - Py.len (remove_sources src imgs target).1
      <= Py.len (items_to_move src all).
Proof.
  induction src as [|idx src IH]; intros imgs target Hle; simpl.
  - unfold Py.len. simpl. lia.
  - destruct (Py.in_bounds idx imgs) eqn:Hb.
    + assert (Hall : Py.in_bounds idx all = true).
      { apply in_bounds_spec. apply in_bounds_spec in Hb. lia. }
      rewrite Hall. destruct (item_in_bounds idx all Hall) as [x ->].
      pose proof (len_pop_at idx imgs Hb) as Hpop.
      specialize (IH (Py.pop_at idx imgs)
                    (if idx <? target then target - 1 else target) ltac:(lia)).
      unfold Py.len in *. simpl. lia.
    + specialize (IH imgs target Hle).
      destruct (Py.in_bounds idx all); [|exact IH].
      destruct (Py.item idx all); [|exact IH].
      unfold Py.len in *. simpl. lia.
Qed.

Lemma elem_of_dropped_positions (x target : Z) (count : nat) :
  x ∈ dropped_positions target count -> target <= x < target + Z.of_nat count.
Proof.
  unfold dropped_positions. rewrite elem_of_list_to_set, list_elem_of_fmap.
  intros (i & -> & Hi). apply elem_of_seq in Hi. lia.
Qed.

(** What a drop whose indices parse does to the order and the selection. *)
Lemma handle_drop_parsed (s : string) (target_index : Z) (w : t) (parsed : list Z) :
  Py.ints (Py.split_comma s) = Some parsed ->
  let src := Py.sorted_reverse parsed in
  let moved := items_to_move src (images w) in
  let removed := remove_sources src (images w) target_index in
  images (handle_drop s target_index w) = insert_all (rev moved) removed.2 removed.1
  /\ selected_indices (handle_drop s target_index w)
     = dropped_positions removed.2 (length moved)
  /\ last_selected_index (handle_drop s target_index w) = last_selected_index w.
Proof.
  intros Hp src moved removed. unfold handle_drop. rewrite Hp.
  cbn [images save_state last_selected_index]. fold src. fold removed.
  destruct removed as [remaining target]. done.
Qed.

Lemma handle_drop_unparsed (s : string) (target_index : Z) (w : t) :
  Py.ints (Py.split_comma s) = None ->
  handle_drop s target_index w = save_state w.
Proof. intros Hp. unfold handle_drop. by rewrite Hp. Qed.

Lemma handle_drop_valid (s : string) (target_index : Z) (w : t) :
  0 <= target_index <= Py.len (images w) ->
  selection_valid w -> anchor_valid w ->
  selection_valid (handle_drop s target_index w)
  /\ anchor_valid (handle_drop s target_index w).
Proof.
  intros Ht Hsel Hanc.
  destruct (Py.ints (Py.split_comma s)) as [parsed|] eqn:Hp.
  - destruct (handle_drop_parsed s target_index w parsed Hp) as (Hi & Hs & Ha).
    set (src := Py.sorted_reverse parsed) in *.
    pose proof (remove_sources_target src (images w) target_index Ht) as Htar.
    pose proof (remove_sources_count (images w) src (images w) target_index ltac:(lia)) as Hcnt.
    assert (Hlen : Py.len (images (handle_drop s target_index w)) =
                   Py.len (remove_sources src (images w) target_index).1
                   + Py.len (items_to_move src (images w))).
    { rewrite Hi, len_insert_all. unfold Py.len. rewrite length_rev. done. }
    split.
    + intros x Hx. rewrite Hs in Hx. apply elem_of_dropped_positions in Hx.
      unfold valid_index. rewrite Hlen. unfold Py.len in *. lia.
    + intros x Hx. rewrite Ha in Hx. specialize (Hanc x Hx).
      unfold valid_index in *. rewrite Hlen. lia.
  - rewrite (handle_drop_unparsed s target_index w Hp). done.
Qed.

(** One command with its index arguments in range keeps selection and
    anchor valid. *)
Lemma step_keeps_valid (c : command) (w : t) :
  in_range c w ->
  selection_valid w -> anchor_valid w ->
  selection_valid (step c w) /\ anchor_valid (step c w).
Proof.
  intros Hr Hsel Hanc. destruct c; unfold step; cbn [call state]; simpl in Hr.
  - split; intros i Hi; simpl in Hi; [by apply not_elem_of_empty in Hi | done].
  - destruct entries as [|e entries]; [done|].
    split; intros i Hi; simpl in Hi.
    + specialize (Hsel i Hi). unfold valid_index in *. simpl.
      rewrite len_app. pose proof (len_nonneg (e :: entries)). lia.
    + specialize (Hanc i Hi). unfold valid_index in *. simpl.
      rewrite len_app. pose proof (len_nonneg (e :: entries)). lia.
  - split; [intros i Hi; simpl in Hi; by apply not_elem_of_empty in Hi | exact Hanc].
  - rewrite select_single_state. split; intros i Hi; simpl in Hi.
    + apply elem_of_singleton in Hi as ->. exact Hr.
    + simplify_eq. exact Hr.
  - rewrite toggle_selection_returns by (unfold valid_index in Hr; lia). cbn [state].
    destruct (decide _); split; intros i Hi; simpl in Hi.
    + apply Hsel. apply elem_of_difference in Hi as [Hi _]. exact Hi.
    + simplify_eq. exact Hr.
    + apply elem_of_union in Hi as [Hi%elem_of_singleton|Hi]; [by subst|by apply Hsel].
    + simplify_eq. exact Hr.
  - destruct (last_selected_index w) as [anchor|] eqn:Ea.
    + pose proof (Hanc anchor Ea) as Hav.
      rewrite (select_range_returns index anchor w Ea)
        by (unfold valid_index in *; lia).
      cbn [state].
      split; intros i Hi; simpl in Hi; [|injection Hi as <-; exact Hav].
      apply elem_of_union in Hi as [Hi|Hi]; [by apply Hsel|].
      apply elem_of_list_to_set, elem_of_seqZ in Hi.
      unfold valid_index in *. simpl. lia.
    + unfold select_range. rewrite Ea, select_single_state.
      split; intros i Hi; simpl in Hi.
      * apply elem_of_singleton in Hi as ->. exact Hr.
      * simplify_eq. exact Hr.
  - unfold delete_selected. destruct (decide _); [done|].
    split; intros i Hi; simpl in Hi; [set_solver | done].
  - by apply handle_drop_valid.
  - unfold undo. destruct (Py.pop_last _) as [[rest st]|]; [|done].
    split; intros i Hi; simpl in Hi; [set_solver | done].
  - unfold redo. destruct (Py.pop_last _) as [[rest st]|]; [|done].
    split; intros i Hi; simpl in Hi; [set_solver | done].
Qed.





(** Over whole sessions: from the fresh widget, as long as every command
    gets its index arguments in range, the selection never holds anything
    but positions of the current order. *)
Theorem selection_valid_in_sessions (cs : list command) :
  all_in_range cs init -> selection_valid (run cs init).
Proof.
  assert (H : forall cs w, selection_valid w -> anchor_valid w ->
                all_in_range cs w -> selection_valid (run cs w)).
  { clear cs. induction cs as [|c cs IH]; intros w Hs Ha Hr; [exact Hs|].
    destruct Hr as [Hc Hr]. simpl.
    destruct (step_keeps_valid c w Hc Hs Ha) as [Hs' Ha']. by apply IH. }
  apply H.
  - intros i Hi. simpl in Hi. by apply not_elem_of_empty in Hi.
  - intros i Hi. discriminate Hi.
Qed.

Lemma selection_valid_in_sessions_witness :
  selection_valid
    (run [AddImages (Examples.frames 5); SelectSingle 1; SelectRange 3;
          HandleDrop "1,2,3" 5; ToggleSelection 0; DeleteSelected; Undo] init).
Proof.
  apply selection_valid_in_sessions. vm_compute. repeat split; congruence.
Defined.


End Selection.

(** ** Sizing the grid after a change *)

Section Sizing.
Import FlipbookApp Examples.

Lemma ceil_div_le (n a b : Z) : 1 <= b -> n <= a * b -> ceil_div n b <= a.
Proof.
  intros Hb Hn. unfold ceil_div.
  assert ((n + b - 1) / b < a + 1); [|lia].
  apply Z.div_lt_upper_bound; nia.
Qed.

Lemma min_grid_for_count_bounds (n : Z) :
  0 <= n ->
  1 <= (min_grid_for_count n).2 <= (min_grid_for_count n).1
  /\ n <= (min_grid_for_count n).1 * (min_grid_for_count n).2.
Proof.
  intros Hn. destruct (Z.eq_dec n 0) as [->|Hne]; [vm_compute; repeat split; discriminate|].
  destruct (min_grid_for_count_cases n ltac:(lia)) as (rows & cols & -> & Hr & H1 & H2 & H3 & H4).
  simpl. destruct (ceil_sqrt_spec n ltac:(lia)) as (Hpos & _). nia.
Qed.

Ltac split_ltb :=
  repeat match goal with
    | |- context [?a <? ?b] => destruct (Z.ltb_spec a b)
    | |- context [?a =? ?b] => destruct (Z.eqb_spec a b)
    | H : context [?a <? ?b] |- _ => destruct (Z.ltb_spec a b)
    | H : context [?a =? ?b] |- _ => destruct (Z.eqb_spec a b)
    end.

Ltac spin_lia :=
  unfold QSpinBox.setMinimum, QSpinBox.setRange, QSpinBox.setValue, QSpinBox.bound,
    QSpinBox.changed in *;
  cbn [QSpinBox.value QSpinBox.minimum QSpinBox.maximum] in *;
  split_ltb;
  cbn [QSpinBox.value QSpinBox.minimum QSpinBox.maximum] in *;
  repeat split; lia.

Ltac spin :=
  unfold QSpinBox.setMinimum, QSpinBox.setRange, QSpinBox.setValue, QSpinBox.bound,
    QSpinBox.changed in *; cbn [QSpinBox.value QSpinBox.minimum QSpinBox.maximum] in *.

Lemma update_grid_constraints_settled (app : t) (c r : Z) :
  1 <= c -> 1 <= r ->
  Py.len (ImageGridWidget.images (image_grid app)) <= c * r ->
  settled app c r -> settled (update_grid_constraints app) c r.
Proof.
  intros Hc Hr Hn (Hvc & Hmc & Hvr & Hmr). unfold update_grid_constraints, settled.
  destruct (ImageGridWidget.images (image_grid app)) as [|e es] eqn:E.
  - cbn [columns_input rows_input with_inputs]. spin_lia.
  - set (n := Py.len (e :: es)) in *.
    rewrite Hvc, Hvr.
    pose proof (ceil_div_le n c r Hr Hn) as H1.
    pose proof (ceil_div_le n r c Hc ltac:(lia)) as H2.
    generalize dependent (ceil_div n r). generalize dependent (ceil_div n c).
    intros mr H2 mc H1.
    cbn [columns_input rows_input with_inputs]. spin_lia.
Qed.

Lemma update_grid_constraints_grid (app : t) :
  image_grid (update_grid_constraints app) = image_grid app.
Proof. unfold update_grid_constraints. by destruct (ImageGridWidget.images _). Qed.

(** After the column request: the column value is the request, and the
    row request is inside the row range now in force. *)
Lemma set_columns_request (app : t) (c r : Z) :
  let n := Py.len (ImageGridWidget.images (image_grid app)) in
  1 <= r <= c -> n <= c * r ->
  QSpinBox.minimum (columns_input app) <= c <= QSpinBox.maximum (columns_input app) ->
  QSpinBox.minimum (rows_input app) <= r <= QSpinBox.maximum (rows_input app) ->
  n <= c * QSpinBox.value (rows_input app) \/ QSpinBox.value (columns_input app) = c ->
  let app1 := set_columns c app in
  image_grid app1 = image_grid app
  /\ QSpinBox.value (columns_input app1) = c
  /\ c <= QSpinBox.maximum (columns_input app1)
  /\ QSpinBox.minimum (rows_input app1) <= r <= QSpinBox.maximum (rows_input app1).
Proof.
  intros n Hrc Hn HC HR Hold app1. unfold app1, set_columns.
  destruct (QSpinBox.changed _ _) eqn:Hch.
  - assert (Hne : QSpinBox.value (columns_input app) <> c).
    { intros E. spin. revert Hch. split_ltb; simpl; try lia; destruct (Z.eqb_spec (QSpinBox.value (columns_input app)) c); try done; lia. }
    destruct Hold as [Hold|Hold]; [|done].
    unfold on_grid_changed. split; [by rewrite update_grid_constraints_grid|].
    unfold update_grid_constraints. cbn [image_grid with_inputs columns_input rows_input].
    fold n in Hold |- *.
    destruct (ImageGridWidget.images (image_grid app)) as [|e es] eqn:E.
    + cbn [columns_input rows_input with_inputs]. spin_lia.
    + assert (Hn1 : 1 <= n) by (unfold n, Py.len; simpl; lia).
      assert (Hv : 1 <= QSpinBox.value (rows_input app)) by nia.
      pose proof (ceil_div_le n c (QSpinBox.value (rows_input app)) Hv Hold) as H1.
      pose proof (ceil_div_le n r c ltac:(lia) ltac:(lia)) as H2.
      replace (Py.len (e :: es)) with n by reflexivity.
      replace (QSpinBox.value (QSpinBox.setValue c (columns_input app))) with c
        by spin_lia.
      generalize dependent (ceil_div n (QSpinBox.value (rows_input app))).
      generalize dependent (ceil_div n c). intros mr H2 mc H1.
      cbn [columns_input rows_input with_inputs]. spin_lia.
  - cbn [image_grid with_inputs columns_input rows_input]. spin_lia.
Qed.

Lemma set_rows_request (app : t) (c r : Z) :
  1 <= r <= c ->
  Py.len (ImageGridWidget.images (image_grid app)) <= c * r ->
  QSpinBox.value (columns_input app) = c ->
  c <= QSpinBox.maximum (columns_input app) ->
  QSpinBox.minimum (rows_input app) <= r <= QSpinBox.maximum (rows_input app) ->
  image_grid (set_rows r app) = image_grid app /\ settled (set_rows r app) c r.
Proof.
  intros Hrc Hn Hc Hmax HR. unfold set_rows.
  assert (Hs : settled (with_inputs (columns_input app)
                          (QSpinBox.setValue r (rows_input app)) app) c r).
  { unfold settled. cbn [with_inputs columns_input rows_input]. spin_lia. }
  destruct (QSpinBox.changed _ _); [|done].
  unfold on_grid_changed. split; [by rewrite update_grid_constraints_grid|].
  apply update_grid_constraints_settled; [lia | lia | exact Hn | exact Hs].
Qed.

(** The five callers, each a grid operation followed by the same lines. *)
Lemma callers_resize (app : t) (images_data : list ImageEntry) :
  undo app = resize_to_min_grid (with_grid (ImageGridWidget.undo (image_grid app)) app)
  /\ redo app = resize_to_min_grid (with_grid (ImageGridWidget.redo (image_grid app)) app)
  /\ delete_selected_images app =
       resize_to_min_grid (with_grid (ImageGridWidget.delete_selected (image_grid app)) app)
  /\ (images_data <> [] ->
        add_images images_data app =
          resize_to_min_grid
            (with_grid (ImageGridWidget.append_images images_data (image_grid app)) app))
  /\ select_folder images_data app =
       resize_to_min_grid
         (with_grid (ImageGridWidget.add_images images_data (image_grid app)) app).
Proof. repeat split. by destruct images_data. Qed.

(** When the lines after [get_min_grid_size] give the grid they ask for.
    The callers unpack the helper's [(rows, cols)] as [cols, rows]: the
    column spin box is asked for the helper's rows and the row spin box
    for the helper's cols, and the request has columns >= rows.  The
    grid that results is the request when both requests lie in the
    ranges of their spin boxes and the change of the column value does
    not make [update_grid_constraints] raise it again (the count fits
    in requested columns times current rows, or the column value does
    not change).  Loading 17 images into a fresh window gives 5 columns
    and 4 rows. *)
Theorem resize_applies_swapped_request (app : t) :
  let n := Py.len (ImageGridWidget.images (image_grid app)) in
  let helper_rows := (get_min_grid_size app).1 in
  let helper_cols := (get_min_grid_size app).2 in
  QSpinBox.minimum (columns_input app) <= helper_rows <= QSpinBox.maximum (columns_input app) ->
  QSpinBox.minimum (rows_input app) <= helper_cols <= QSpinBox.maximum (rows_input app) ->
  n <= helper_rows * QSpinBox.value (rows_input app)
    \/ QSpinBox.value (columns_input app) = helper_rows ->
  (helper_cols <= helper_rows
   /\ QSpinBox.value (columns_input (resize_to_min_grid app)) = helper_rows
   /\ QSpinBox.value (rows_input (resize_to_min_grid app)) = helper_cols)
  /\ (get_min_grid_size (loaded 17) = (5, 4)
      /\ QSpinBox.value (columns_input (loaded 17)) = 5
      /\ QSpinBox.value (rows_input (loaded 17)) = 4).
Proof.
  intros n hr hc HC HR Hold. split; [|by vm_compute].
  pose proof (min_grid_for_count_bounds n (len_nonneg _)) as [Hb Hn].
  change (min_grid_for_count n) with (get_min_grid_size app) in Hb, Hn.
  fold hr hc in Hb, Hn.
  split; [lia|].
  unfold resize_to_min_grid.
  destruct (get_min_grid_size app) as [rows_ cols_] eqn:E. simpl in hr, hc.
  subst hr hc.
  destruct (set_columns_request app rows_ cols_ ltac:(lia) Hn HC HR Hold)
    as (Hg1 & Hv1 & Hm1 & HR1).
  destruct (set_rows_request (set_columns rows_ app) rows_ cols_ ltac:(lia)
              ltac:(by rewrite Hg1) Hv1 Hm1 HR1) as (Hg2 & Hs2).
  pose proof (update_grid_constraints_settled (set_rows cols_ (set_columns rows_ app))
                rows_ cols_ ltac:(lia) ltac:(lia)
                ltac:(by rewrite Hg2, Hg1) Hs2) as (H1 & _ & H2 & _).
  done.
Qed.

Lemma resize_applies_swapped_request_witness :
  let app := with_grid (ImageGridWidget.add_images (frames 17) ImageGridWidget.init) init in
  (4 <= 5
   /\ QSpinBox.value (columns_input (resize_to_min_grid app)) = 5
   /\ QSpinBox.value (rows_input (resize_to_min_grid app)) = 4)
  /\ (get_min_grid_size (loaded 17) = (5, 4)
      /\ QSpinBox.value (columns_input (loaded 17)) = 5
      /\ QSpinBox.value (rows_input (loaded 17)) = 4).
Proof.
  intros app.
  apply (resize_applies_swapped_request app); vm_compute.
  - split; discriminate.
  - split; discriminate.
  - left. discriminate.
Defined.

(** C10: the grid that the callers of [get_min_grid_size] leave is not
    always the helper's pair.  The callers unpack [(rows, cols)] as
    [cols, rows] and give the two numbers to the spin boxes, columns
    first, in order to reset the grid to the smallest possible size.
    [setValue] on the column box emits [valueChanged], and its slot runs
    [update_grid_constraints] while the row box still holds the old
    value: with 21 images in a fresh window (4 by 4) the helper returns
    (5, 5), 5 columns are set, and the 4 rows still in force raise the
    columns to [ceil(21 / 4) = 6] and the rows to 5.  The grid is 6 by 5
    where 5 by 5 was asked for; in the same way 25, 36 and 50 images
    give 7 by 5, 9 by 6 and 13 by 7.  In the other direction the minimum
    that an earlier count left on the row box bounds the new value: with
    17 images, rows put to 5 and columns to 4 by the user, deleting one
    image asks for 4 by 4 and leaves 4 columns and 5 rows, fewer columns
    than rows.  With 17 images in a fresh window the grid is the
    helper's, 5 columns and 4 rows. *)
Theorem auto_size_misses_helper_grid :
  let grid_of (app : t) :=
    (QSpinBox.value (columns_input app), QSpinBox.value (rows_input app)) in
  let fresh_21 :=
    with_grid (ImageGridWidget.add_images (frames 21) ImageGridWidget.init) init in
  let edited := set_columns 4 (set_rows 5 (loaded 17)) in
  let picked :=
    with_grid (ImageGridWidget.state
                 (ImageGridWidget.select_single 0 (image_grid edited))) edited in
  (get_min_grid_size (loaded 17) = (5, 4) /\ grid_of (loaded 17) = (5, 4))
  /\ (grid_of fresh_21 = (4, 4)
      /\ get_min_grid_size fresh_21 = (5, 5)
      /\ grid_of (set_columns 5 fresh_21) = (6, 5)
      /\ loaded 21 = resize_to_min_grid fresh_21
      /\ grid_of (loaded 21) = (6, 5))
  /\ (get_min_grid_size (loaded 25) = (5, 5) /\ grid_of (loaded 25) = (7, 5))
  /\ (get_min_grid_size (loaded 36) = (6, 6) /\ grid_of (loaded 36) = (9, 6))
  /\ (get_min_grid_size (loaded 50) = (8, 7) /\ grid_of (loaded 50) = (13, 7))
  /\ (grid_of edited = (4, 5)
      /\ QSpinBox.minimum (rows_input edited) = 5
      /\ Py.len (ImageGridWidget.images (image_grid (delete_selected_images picked))) = 16
      /\ get_min_grid_size (delete_selected_images picked) = (4, 4)
      /\ grid_of (delete_selected_images picked) = (4, 5)).
Proof. vm_compute. repeat split; reflexivity. Qed.

End Sizing.

(** ** Moving entries *)

Section Move.
Import ImageGridWidget Session Examples.

Lemma insert_desc_perm (x : Z) (l : list Z) : Py.insert_desc x l ≡ₚ x :: l.
Proof.
  induction l as [|y l IH]; simpl; [done|].
  destruct (y <=? x); [done|]. rewrite IH. apply Permutation_swap.
Qed.

Lemma sorted_reverse_perm (l : list Z) : Py.sorted_reverse l ≡ₚ l.
Proof.
  induction l as [|x l IH]; simpl; [done|].
  unfold Py.sorted_reverse in *. simpl. rewrite insert_desc_perm. by rewrite IH.
Qed.

Lemma insert_desc_sorted (x : Z) (l : list Z) :
  x ∉ l -> StronglySorted desc l -> StronglySorted desc (Py.insert_desc x l).
Proof.
  induction l as [|y l IH]; intros Hx Hs; simpl.
  - repeat constructor.
  - apply StronglySorted_inv in Hs as [Hs Hall].
    apply not_elem_of_cons in Hx as [Hne Hx].
    destruct (Z.leb_spec y x).
    + constructor; [by constructor|]. constructor; [unfold desc; lia|].
      eapply List.Forall_impl; [|exact Hall]. unfold desc. intros; simpl in *; lia.
    + constructor; [by apply IH|].
      rewrite insert_desc_perm. constructor; [unfold desc; lia | exact Hall].
Qed.

Lemma sorted_reverse_sorted (l : list Z) :
  NoDup l -> StronglySorted desc (Py.sorted_reverse l).
Proof.
  induction 1 as [|x l Hx Hnd IH]; [constructor|].
  unfold Py.sorted_reverse in *. simpl. apply insert_desc_sorted; [|exact IH].
  fold (Py.sorted_reverse l). by rewrite sorted_reverse_perm.
Qed.

Lemma count_below_all (T : Z) (l : list Z) :
  Forall (fun i => i < T) l -> count_below T l = Py.len l.
Proof.
  intros H. unfold count_below. f_equal.
  induction H as [|x l Hx H IH]; [done|]. rewrite filter_cons_True by done. by f_equal.
Qed.

Lemma count_below_cons (T x : Z) (l : list Z) :
  count_below T (x :: l) = (if x <? T then 1 else 0) + count_below T l.
Proof.
  unfold count_below, Py.len. destruct (Z.ltb_spec x T).
  - rewrite filter_cons_True by done. simpl. lia.
  - rewrite filter_cons_False by lia. lia.
Qed.

Lemma count_below_perm (T : Z) (l k : list Z) : l ≡ₚ k -> count_below T l = count_below T k.
Proof. intros H. unfold count_below, Py.len. by rewrite H. Qed.

Lemma items_to_move_pop (idx : Z) (cur : list ImageEntry) (rest : list Z) :
  Py.in_bounds idx cur = true ->
  Forall (fun i => 0 <= i < idx) rest ->
  items_to_move rest (Py.pop_at idx cur) = items_to_move rest cur.
Proof.
  intros Hb Hall. pose proof (len_pop_at idx cur Hb) as Hlen.
  apply in_bounds_spec in Hb.
  induction Hall as [|i rest Hi Hall IH]; [done|]. simpl.
  assert (H1 : Py.in_bounds i (Py.pop_at idx cur) = true) by (apply in_bounds_spec; lia).
  assert (H2 : Py.in_bounds i cur = true) by (apply in_bounds_spec; lia).
  rewrite H1, H2, IH. unfold Py.item, Py.pop_at.
  by rewrite list_lookup_delete_lt by lia.
Qed.

Lemma items_to_move_lookup (cur : list ImageEntry) (src : list Z) :
  Forall (fun i => 0 <= i < Py.len cur) src ->
  Forall2 (fun i x => cur !! Z.to_nat i = Some x) src (items_to_move src cur).
Proof.
  induction 1 as [|i src Hi Hall IH]; [constructor|]. simpl.
  assert (Hb : Py.in_bounds i cur = true) by (by apply in_bounds_spec).
  rewrite Hb. destruct (item_in_bounds i cur Hb) as [x Hx]. rewrite Hx.
  by constructor.
Qed.

(** Removing the positions of a strictly descending list of valid
    indices. *)
Lemma remove_sources_desc (src : list Z) :
  forall (cur : list ImageEntry) (T : Z),
    StronglySorted desc src ->
    Forall (fun i => 0 <= i < Py.len cur) src ->
    (remove_sources src cur T).2 = T - count_below T src
    /\ cur ≡ₚ items_to_move src cur ++ (remove_sources src cur T).1
    /\ (remove_sources src cur T).1 `sublist_of` cur.
Proof.
  induction src as [|idx rest IH]; intros cur T Hs Hv.
  - simpl. unfold count_below, Py.len. simpl. split; [lia|]. done.
  - apply StronglySorted_inv in Hs as [Hs Hlt].
    apply Forall_cons_1 in Hv as [Hidx Hv].
    assert (Hb : Py.in_bounds idx cur = true) by (by apply in_bounds_spec).
    assert (Hrest : Forall (fun i => 0 <= i < idx) rest).
    { apply List.Forall_forall. intros i Hi.
      rewrite List.Forall_forall in Hv. rewrite List.Forall_forall in Hlt.
      specialize (Hv i Hi). specialize (Hlt i Hi).
      unfold desc in Hlt. lia. }
    simpl. rewrite Hb. destruct (item_in_bounds idx cur Hb) as [x Hx]. rewrite Hx.
    pose proof (len_pop_at idx cur Hb) as Hlen.
    destruct (IH (Py.pop_at idx cur) (if idx <? T then T - 1 else T) Hs) as (Ht & Hp & Hsub).
    { eapply List.Forall_impl; [|exact Hrest]. intros i Hi. simpl in Hi. lia. }
    rewrite (items_to_move_pop idx cur rest Hb Hrest) in Hp.
    split; [|split].
    + rewrite Ht, count_below_cons. destruct (Z.ltb_spec idx T); [|lia].
      rewrite !count_below_all; [lia | |].
      * eapply List.Forall_impl; [|exact Hrest]. intros i Hi. simpl in Hi. lia.
      * eapply List.Forall_impl; [|exact Hrest]. intros i Hi. simpl in Hi. lia.
    + simpl. rewrite <- Hp. unfold Py.pop_at, Py.item in *. by apply delete_Permutation.
    + etrans; [exact Hsub|]. unfold Py.pop_at. apply sublist_delete.
Qed.

Lemma insert_in_range {A : Type} (t : Z) (x : A) (l : list A) :
  0 <= t <= Py.len l ->
  Py.insert t x l = take (Z.to_nat t) l ++ x :: drop (Z.to_nat t) l.
Proof.
  intros Ht. unfold Py.insert. cbv zeta.
  assert (E1 : (t <? 0) = false) by lia.
  assert (E2 : (Py.len l <? t) = false) by lia.
  rewrite E1. cbv iota. rewrite E1, E2. reflexivity.
Qed.

Lemma insert_all_block (items : list ImageEntry) (t : Z) :
  forall l, 0 <= t <= Py.len l ->
    insert_all items t l = take (Z.to_nat t) l ++ rev items ++ drop (Z.to_nat t) l.
Proof.
  induction items as [|x items IH]; intros l Ht; simpl.
  - by rewrite take_drop.
  - rewrite insert_in_range by done.
    assert (Hlen : length (take (Z.to_nat t) l) = Z.to_nat t).
    { rewrite length_take. unfold Py.len in Ht. lia. }
    rewrite IH.
    + rewrite take_app_length' by done. rewrite drop_app_length' by done.
      by rewrite <- !app_assoc.
    + unfold Py.len in *. rewrite length_app. simpl. rewrite length_drop. lia.
Qed.

Lemma elem_of_dropped_positions_iff (x target : Z) (count : nat) :
  x ∈ dropped_positions target count <-> target <= x < target + Z.of_nat count.
Proof.
  split; [apply elem_of_dropped_positions|]. intros H.
  unfold dropped_positions. rewrite elem_of_list_to_set, list_elem_of_fmap.
  exists (Z.to_nat (x - target)). split; [lia|]. apply elem_of_seq. lia.
Qed.

(** What a drop does with a set of valid indices (no index twice) and a
    target in [0, len].  The entries at the indices are taken out, the
    others keep their order, and the block is put back at
    [T - (number of indices below T)]: the running target of the removal
    loop ends at the value computed from the original target.  The result
    is a permutation of the order, of the same length, and the selection
    is exactly the positions of the block.  Inside the block the entries
    stand in the order of [sorted(..., reverse=True)], highest index
    first. *)
Theorem handle_drop_block (indices_str : string) (parsed : list Z) (T : Z) (w : t) :
  Py.ints (Py.split_comma indices_str) = Some parsed ->
  NoDup parsed ->
  Forall (fun i => 0 <= i < Py.len (images w)) parsed ->
  0 <= T <= Py.len (images w) ->
  let w' := handle_drop indices_str T w in
  let t := T - count_below T parsed in
  exists moved rest,
    Forall2 (fun i x => images w !! Z.to_nat i = Some x) (Py.sorted_reverse parsed) moved
    /\ rest `sublist_of` images w
    /\ images w ≡ₚ moved ++ rest
    /\ 0 <= t <= Py.len rest
    /\ images w' = take (Z.to_nat t) rest ++ moved ++ drop (Z.to_nat t) rest
    /\ images w' ≡ₚ images w
    /\ Py.len (images w') = Py.len (images w)
    /\ (forall x, x ∈ selected_indices w' <-> t <= x < t + Py.len parsed).
Proof.
  intros Hp Hnd Hv HT w' t.
  destruct (handle_drop_parsed indices_str T w parsed Hp) as (Hi & Hs & _).
  set (src := Py.sorted_reverse parsed) in *.
  assert (Hvs : Forall (fun i => 0 <= i < Py.len (images w)) src).
  { unfold src. by rewrite sorted_reverse_perm. }
  destruct (remove_sources_desc src (images w) T (sorted_reverse_sorted parsed Hnd) Hvs)
    as (Ht & Hperm & Hsub).
  pose proof (remove_sources_target src (images w) T HT) as Hrange.
  pose proof (items_to_move_lookup (images w) src Hvs) as Hlook.
  set (moved := items_to_move src (images w)) in *.
  set (removed := remove_sources src (images w) T) in *.
  assert (Et : removed.2 = t).
  { rewrite Ht. unfold t, src. by rewrite (count_below_perm T _ _ (sorted_reverse_perm parsed)). }
  rewrite Et in *.
  assert (Eimg : images w' = take (Z.to_nat t) removed.1 ++ moved ++ drop (Z.to_nat t) removed.1).
  { unfold w'. rewrite Hi, insert_all_block by exact Hrange. by rewrite rev_involutive. }
  assert (Eperm : images w' ≡ₚ images w).
  { rewrite Eimg, Hperm.
    rewrite (Permutation_app_comm (take _ _)), <- app_assoc.
    apply Permutation_app_head. by rewrite Permutation_app_comm, take_drop. }
  assert (El : Py.len moved = Py.len parsed).
  { unfold Py.len. f_equal. apply Forall2_length in Hlook. rewrite <- Hlook.
    unfold src. by rewrite sorted_reverse_perm. }
  exists moved, removed.1.
  split; [exact Hlook|]. split; [exact Hsub|]. split; [exact Hperm|].
  split; [exact Hrange|]. split; [exact Eimg|]. split; [exact Eperm|]. split.
  - unfold Py.len. f_equal. by apply Permutation_length.
  - intros x. unfold w'. rewrite Hs, elem_of_dropped_positions_iff.
    unfold Py.len in *. split; intros; lia.
Qed.

Lemma handle_drop_block_witness :
  exists moved rest,
    Forall2 (fun i x => images five !! Z.to_nat i = Some x) (Py.sorted_reverse [0; 1]) moved
    /\ rest `sublist_of` images five
    /\ images five ≡ₚ moved ++ rest
    /\ 0 <= 5 - count_below 5 [0; 1] <= Py.len rest
    /\ images (handle_drop "0,1" 5 five) =
         take (Z.to_nat (5 - count_below 5 [0; 1])) rest ++ moved
           ++ drop (Z.to_nat (5 - count_below 5 [0; 1])) rest
    /\ images (handle_drop "0,1" 5 five) ≡ₚ images five
    /\ Py.len (images (handle_drop "0,1" 5 five)) = Py.len (images five)
    /\ (forall x, x ∈ selected_indices (handle_drop "0,1" 5 five)
                  <-> 5 - count_below 5 [0; 1] <= x < 5 - count_below 5 [0; 1] + Py.len [0; 1]).
Proof.
  apply (handle_drop_block "0,1" [0; 1] 5 five).
  - reflexivity.
  - constructor; [|constructor; [apply not_elem_of_nil | constructor]].
    apply not_elem_of_cons. split; [discriminate | apply not_elem_of_nil].
  - repeat constructor; vm_compute; congruence.
  - vm_compute. split; congruence.
Defined.

(** [select_single a] followed by [select_range b].  When neither index
    is below [-len], both calls return and exactly the closed interval
    between the two is selected.  When [b] is below [-len] (and [a] is
    not), the loop of [select_range] starts at [b], adds it and raises
    at its thumbnail: [a] and [b] are selected and nothing in between.
    When [a] is below [-len], [select_single] itself raises, after it
    has made [a] the selection and the anchor. *)
Theorem select_range_interval (a b : Z) (w : t) :
  let n := Py.len (images w) in
  (- n <= a -> - n <= b ->
     exists w1 w2,
       select_single a w = Returned w1 /\ select_range b w1 = Returned w2
       /\ forall x, x ∈ selected_indices w2 <-> Z.min a b <= x <= Z.max a b)
  /\ (- n <= a -> b < - n ->
        exists w1 w2,
          select_single a w = Returned w1 /\ select_range b w1 = IndexError w2
          /\ forall x, x ∈ selected_indices w2 <-> x = a \/ x = b)
  /\ (a < - n ->
        exists w1,
          select_single a w = IndexError w1
          /\ selected_indices w1 = {[ a ]} /\ last_selected_index w1 = Some a).
Proof.
  intros n. set (w1 := with_selection {[ a ]} (Some a) w).
  split; [|split].
  - intros Ha Hb. exists w1. eexists.
    split; [by apply select_single_returns|]. split.
    + apply (select_range_returns b a w1 eq_refl). cbn [w1 with_selection images]. fold n. lia.
    + intros x. cbn [w1 with_selection selected_indices].
      rewrite elem_of_union, elem_of_singleton, elem_of_list_to_set, elem_of_seqZ. lia.
  - intros Ha Hb. exists w1. eexists.
    split; [by apply select_single_returns|]. split.
    + unfold select_range. cbn [w1 with_selection last_selected_index].
      rewrite seqZ_cons by lia. cbn [add_each]. rewrite set_selected_raises_spec.
      match goal with
      | |- context [?x <? ?y] =>
          assert (E : (x <? y) = true) by (apply Z.ltb_lt; simpl; fold n; lia); rewrite E
      end.
      reflexivity.
    + intros x. unfold w1. cbn [with_selection selected_indices last_selected_index].
      rewrite elem_of_union, !elem_of_singleton. lia.
  - intros Ha. exists w1. split; [|done].
    unfold select_single. rewrite set_selected_raises_spec.
    match goal with
    | |- context [?x <? ?y] =>
        assert (E : (x <? y) = true) by (apply Z.ltb_lt; simpl; fold n; lia); rewrite E
    end.
    reflexivity.
Qed.

Lemma select_range_interval_witness :
  (exists w1 w2,
     select_single 1 Examples.five = Returned w1 /\ select_range 3 w1 = Returned w2
     /\ forall x, x ∈ selected_indices w2 <-> Z.min 1 3 <= x <= Z.max 1 3)
  /\ (exists w1 w2,
        select_single 2 Examples.five = Returned w1 /\ select_range (-10) w1 = IndexError w2
        /\ forall x, x ∈ selected_indices w2 <-> x = 2 \/ x = -10).
Proof.
  split.
  - apply (select_range_interval 1 3 Examples.five); by vm_compute.
  - apply (select_range_interval 2 (-10) Examples.five); by vm_compute.
Defined.

(** C1 at a drop of two entries.  Entries 0 and 1 of five are dropped on
    the end.  The block lands at position [5 - 2 = 3] and positions 3
    and 4 are selected, but the block is entry 1 followed by entry 0:
    every insertion is at [target_index], so the entries arrive in the
    reverse of their original order. *)
Lemma handle_drop_reverses_block :
  images five = [cell64 0; cell64 1; cell64 2; cell64 3; cell64 4]
  /\ images (handle_drop "0,1" 5 five) = [cell64 2; cell64 3; cell64 4; cell64 1; cell64 0]
  /\ selected_indices (handle_drop "0,1" 5 five) = {[ 3; 4 ]}
  /\ images (handle_drop "0,1" 5 five) <> [cell64 2; cell64 3; cell64 4; cell64 0; cell64 1].
Proof.
  split; [reflexivity|]. split; [by vm_compute|].
  split; [by vm_compute|]. vm_compute. discriminate.
Qed.

(** A drop of one entry is not affected. *)
Lemma handle_drop_single :
  images (handle_drop "3" 1 five) = [cell64 0; cell64 3; cell64 1; cell64 2; cell64 4]
  /\ selected_indices (handle_drop "3" 1 five) = {[ 1 ]}.
Proof. split; by vm_compute. Qed.

End Move.

(** ** Operations without items *)

Section NoItems.
Import ImageGridWidget Examples.

Lemma append_images_nil (w : t) : append_images [] w = w.
Proof. reflexivity. Qed.

Lemma split_comma_empty : Py.ints (Py.split_comma "") = None.
Proof. reflexivity. Qed.

(** A drop whose text holds no index is [save_state] and nothing else. *)
Lemma handle_drop_empty (target_index : Z) (w : t) :
  handle_drop "" target_index w = save_state w.
Proof. apply handle_drop_unparsed. reflexivity. Qed.

(** C6 at a drop without items.  The grid holds one entry, an empty
    history and one snapshot to redo.  [handle_drop] with the empty
    index text leaves the order and the selection alone, but the history
    now holds a snapshot and the redo stack is empty. *)
Lemma handle_drop_no_items_touches_history :
  images after_undo = [cell64 0]
  /\ history after_undo = []
  /\ redo_stack after_undo = [[cell64 0; cell64 1]]
  /\ images (handle_drop "" 0 after_undo) = images after_undo
  /\ selected_indices (handle_drop "" 0 after_undo) = selected_indices after_undo
  /\ history (handle_drop "" 0 after_undo) = [[cell64 0]]
  /\ redo_stack (handle_drop "" 0 after_undo) = []
  /\ handle_drop "" 0 after_undo <> after_undo.
Proof.
  repeat (split; [reflexivity|]). intros H.
  apply (f_equal redo_stack) in H. discriminate H.
Qed.

End NoItems.

(** ** The text of a drag: [str], [join], [split] and [int] *)

Section DragText.
Import Decimal.

Lemma digits_string_of_uint (d : uint) :
  forall acc, Py.digits acc false (NilEmpty.string_of_uint d) = Some (digits_value acc d).
Proof. induction d; intros acc; simpl; try reflexivity; apply IHd. Qed.

Lemma of_uint_acc_value (d : uint) :
  forall acc, Z.pos (Pos.of_uint_acc d acc) = digits_value (Z.pos acc) d.
Proof.
  induction d; intros acc; simpl; try reflexivity; rewrite IHd; f_equal;
    lia.
Qed.

Lemma of_uint_value (d : uint) : Z.of_uint d = digits_value 0 d.
Proof.
  unfold Z.of_uint. induction d; simpl; try reflexivity; try exact IHd;
    apply of_uint_acc_value.
Qed.

Lemma unsigned_string_of_uint (d : uint) :
  Py.unsigned (NilZero.string_of_uint d) = Some (Z.of_uint d).
Proof.
  rewrite of_uint_value.
  destruct d; try reflexivity; simpl; apply digits_string_of_uint.
Qed.

Lemma rstrip_uint (d : uint) :
  Py.rstrip (NilEmpty.string_of_uint d) = NilEmpty.string_of_uint d.
Proof.
  induction d; simpl; try reflexivity; rewrite IHd;
    destruct (NilEmpty.string_of_uint d); reflexivity.
Qed.

Lemma rstrip_uint0 (d : uint) :
  Py.rstrip (NilZero.string_of_uint d) = NilZero.string_of_uint d.
Proof. destruct d; try reflexivity; apply (rstrip_uint (_ _)). Qed.

Lemma lstrip_uint0 (d : uint) :
  Py.lstrip (NilZero.string_of_uint d) = NilZero.string_of_uint d.
Proof. destruct d; reflexivity. Qed.

Lemma int_of_uint_string (d : uint) :
  Py.int (NilZero.string_of_uint d) = Some (Z.of_uint d).
Proof.
  unfold Py.int. rewrite lstrip_uint0, rstrip_uint0.
  rewrite <- unsigned_string_of_uint. destruct d; reflexivity.
Qed.

Lemma int_of_neg_string (d : uint) :
  Py.int (String "-" (NilZero.string_of_uint d)) = Some (- Z.of_uint d).
Proof.
  unfold Py.int.
  change (Py.lstrip (String "-" (NilZero.string_of_uint d)))
    with (String "-" (NilZero.string_of_uint d)).
  assert (E : Py.rstrip (String "-" (NilZero.string_of_uint d))
              = String "-" (NilZero.string_of_uint d)).
  { cbn [Py.rstrip]. rewrite rstrip_uint0. destruct d; reflexivity. }
  rewrite E. change (Ascii.eqb "-" "-") with true. cbv iota.
  by rewrite unsigned_string_of_uint.
Qed.

(** [int(str(n)) == n]. *)
Lemma int_str (n : Z) : Py.int (Py.str n) = Some n.
Proof.
  unfold Py.str. pose proof (DecimalZ.of_to n) as E.
  destruct (Z.to_int n) as [d|d]; simpl in *.
  - rewrite int_of_uint_string. by rewrite E.
  - rewrite int_of_neg_string. by rewrite E.
Qed.

Lemma split_comma_uint (d : uint) (rest : string) :
  Py.split_comma (NilEmpty.string_of_uint d ++ String "," rest)%string
  = NilEmpty.string_of_uint d :: Py.split_comma rest
  /\ Py.split_comma (NilEmpty.string_of_uint d) = [NilEmpty.string_of_uint d].
Proof.
  induction d; simpl; try done; destruct IHd as [-> ->]; done.
Qed.

Lemma split_comma_str (n : Z) (rest : string) :
  Py.split_comma (Py.str n ++ String "," rest)%string = Py.str n :: Py.split_comma rest
  /\ Py.split_comma (Py.str n) = [Py.str n].
Proof.
  unfold Py.str.
  assert (H : forall d, Py.split_comma (NilZero.string_of_uint d ++ String "," rest)%string
                        = NilZero.string_of_uint d :: Py.split_comma rest
                        /\ Py.split_comma (NilZero.string_of_uint d) = [NilZero.string_of_uint d]).
  { intros d. destruct d; try apply (split_comma_uint (_ _)). done. }
  destruct (Z.to_int n) as [d|d]; simpl; [apply H|].
  destruct (H d) as [-> ->]. done.
Qed.

Lemma split_join_str (l : list Z) :
  l <> [] -> Py.split_comma (Py.join_comma (Py.str <$> l)) = Py.str <$> l.
Proof.
  induction l as [|n l IH]; [done|]. intros _.
  destruct l as [|m l].
  - simpl. apply split_comma_str. exact EmptyString.
  - change (Py.join_comma (Py.str <$> n :: m :: l))
      with (Py.str n ++ String "," (Py.join_comma (Py.str <$> m :: l)))%string.
    rewrite (proj1 (split_comma_str n _)), IH by done. done.
Qed.

Lemma ints_str (l : list Z) : Py.ints (Py.str <$> l) = Some l.
Proof.
  induction l as [|n l IH]; [done|].
  change (Py.ints (Py.str n :: (Py.str <$> l)) = Some (n :: l)).
  cbn [Py.ints]. by rewrite int_str, IH.
Qed.
End DragText.

(** ** Where entries go when the selection is deleted *)

Section Positions.
Import ImageGridWidget Session.

Lemma remove_sources_pop_each (src : list Z) :
  forall (imgs : list ImageEntry) (T : Z), (remove_sources src imgs T).1 = pop_each src imgs.
Proof.
  induction src as [|idx src IH]; intros imgs T; simpl; [done|].
  destruct (Py.in_bounds idx imgs); apply IH.
Qed.

Lemma count_below_nil (T : Z) : count_below T [] = 0.
Proof. reflexivity. Qed.

Lemma count_below_nonneg (T : Z) (l : list Z) : 0 <= count_below T l <= Py.len l.
Proof.
  unfold count_below, Py.len. pose proof (length_filter (fun i => i < T) l). lia.
Qed.

(** Where an entry ends up when the positions of a strictly descending
    list of valid indices are popped one after the other: it moves down
    by the number of popped indices below it. *)
Lemma pop_each_positions (src : list Z) :
  forall imgs : list ImageEntry,
    StronglySorted desc src ->
    Forall (fun i => 0 <= i < Py.len imgs) src ->
    Py.len (pop_each src imgs) = Py.len imgs - Py.len src
    /\ forall (j : Z) (e : ImageEntry),
         0 <= j -> j ∉ src -> imgs !! Z.to_nat j = Some e ->
         pop_each src imgs !! Z.to_nat (j - count_below j src) = Some e.
Proof.
  induction src as [|idx rest IH]; intros imgs Hs Hv.
  - simpl. split; [unfold Py.len; simpl; lia|].
    intros j e Hj _ He. by rewrite count_below_nil, Z.sub_0_r.
  - apply StronglySorted_inv in Hs as [Hs Hlt].
    apply Forall_cons_1 in Hv as [Hidx Hv].
    assert (Hb : Py.in_bounds idx imgs = true) by (by apply in_bounds_spec).
    assert (Hrest : Forall (fun i => 0 <= i < idx) rest).
    { apply List.Forall_forall. intros i Hi.
      rewrite List.Forall_forall in Hv. rewrite List.Forall_forall in Hlt.
      specialize (Hv i Hi). specialize (Hlt i Hi). unfold desc in Hlt. lia. }
    pose proof (len_pop_at idx imgs Hb) as Hlen.
    destruct (IH (Py.pop_at idx imgs) Hs) as (Hl & Hpos).
    { eapply List.Forall_impl; [|exact Hrest]. intros i Hi. simpl in Hi. lia. }
    simpl. rewrite Hb. split.
    + rewrite Hl, Hlen. unfold Py.len. simpl. lia.
    + intros j e Hj Hnot He.
      apply not_elem_of_cons in Hnot as [Hne Hnot].
      rewrite count_below_cons.
      destruct (Z.ltb_spec idx j) as [Hlt'|Hge].
      * (* above the popped index: one position down in the popped list *)
        assert (Hall : Forall (fun i => i < j - 1) rest).
        { eapply List.Forall_impl; [|exact Hrest]. intros i Hi. simpl in Hi. lia. }
        assert (Hall' : Forall (fun i => i < j) rest).
        { eapply List.Forall_impl; [|exact Hrest]. intros i Hi. simpl in Hi. lia. }
        specialize (Hpos (j - 1) e ltac:(lia)).
        rewrite (count_below_all _ _ Hall) in Hpos.
        rewrite (count_below_all _ _ Hall').
        replace (j - (1 + Py.len rest)) with (j - 1 - Py.len rest) by lia.
        apply Hpos.
        -- intros Hin. rewrite List.Forall_forall in Hall.
           apply list_elem_of_In in Hin. specialize (Hall _ Hin). simpl in Hall. lia.
        -- unfold Py.pop_at. rewrite list_lookup_delete_ge by lia.
           replace (S (Z.to_nat (j - 1))) with (Z.to_nat j) by lia. exact He.
      * (* below the popped index: the same position in the popped list *)
        replace (j - (0 + count_below j rest)) with (j - count_below j rest) by lia.
        apply Hpos; [lia | exact Hnot |].
        unfold Py.pop_at. rewrite list_lookup_delete_lt by lia. exact He.
Qed.

Lemma StronglySorted_filter (P : Z -> Prop) `{forall x, Decision (P x)} (l : list Z) :
  StronglySorted desc l -> StronglySorted desc (filter P l).
Proof.
  induction 1 as [|x l Hs IH Hall]; [constructor|].
  destruct (decide (P x)).
  - rewrite filter_cons_True by done. constructor; [exact IH|].
    apply List.Forall_forall. intros y Hy%list_elem_of_In.
    apply list_elem_of_filter in Hy as [_ Hy].
    rewrite List.Forall_forall in Hall. apply Hall. by apply list_elem_of_In.
  - by rewrite filter_cons_False.
Qed.

Lemma filter_agree (P Q : Z -> Prop) `{forall x, Decision (P x)} `{forall x, Decision (Q x)}
    (l : list Z) :
  Forall (fun x => P x <-> Q x) l -> filter P l = filter Q l.
Proof.
  induction 1 as [|x l Hx Hl IH]; [done|].
  destruct (decide (P x)) as [HP|HP].
  - rewrite !filter_cons_True by tauto. by rewrite IH.
  - rewrite !filter_cons_False by tauto. exact IH.
Qed.

(** The guard [0 <= idx < len(self.images)] of the delete loop: on a
    strictly descending list the indices outside the order are skipped
    and the others are popped as if the list held only them. *)
Lemma pop_each_guard (src : list Z) :
  forall imgs : list ImageEntry,
    StronglySorted desc src ->
    pop_each src imgs = pop_each (filter (fun i => 0 <= i < Py.len imgs) src) imgs.
Proof.
  induction src as [|idx rest IH]; intros imgs Hs; [done|].
  apply StronglySorted_inv in Hs as [Hs Hlt]. simpl.
  destruct (Py.in_bounds idx imgs) eqn:Hb.
  - pose proof (len_pop_at idx imgs Hb) as Hlen.
    apply in_bounds_spec in Hb as Hr.
    rewrite filter_cons_True by done. simpl. rewrite Hb.
    rewrite (IH (Py.pop_at idx imgs) Hs). f_equal.
    apply filter_agree. eapply List.Forall_impl; [|exact Hlt].
    intros i Hi. unfold desc in Hi. simpl. lia.
  - rewrite filter_cons_False; [by apply IH|].
    intros Hr. apply in_bounds_spec in Hr. congruence.
Qed.

Lemma delete_positions (sel : list Z) (imgs : list ImageEntry) :
  NoDup sel ->
  let gone := filter (fun i => 0 <= i < Py.len imgs) sel in
  let left := pop_each (Py.sorted_reverse sel) imgs in
  Py.len left = Py.len imgs - Py.len gone
  /\ forall (j : Z) (e : ImageEntry),
       0 <= j -> j ∉ sel -> imgs !! Z.to_nat j = Some e ->
       left !! Z.to_nat (j - count_below j gone) = Some e.
Proof.
  intros Hnd gone left.
  pose proof (sorted_reverse_sorted sel Hnd) as Hs.
  set (src := filter (fun i => 0 <= i < Py.len imgs) (Py.sorted_reverse sel)).
  assert (Hperm : src ≡ₚ gone).
  { unfold src, gone. by rewrite sorted_reverse_perm. }
  assert (Hv : Forall (fun i => 0 <= i < Py.len imgs) src).
  { apply List.Forall_forall. intros i Hi. apply (proj2 (list_elem_of_In _ _)) in Hi.
    by apply list_elem_of_filter in Hi as [Hi _]. }
  destruct (pop_each_positions src imgs (StronglySorted_filter _ _ Hs) Hv) as (Hl & Hpos).
  unfold left. rewrite (pop_each_guard _ imgs Hs). fold src. split.
  - rewrite Hl. unfold Py.len. by rewrite Hperm.
  - intros j e Hj Hnot He. rewrite <- (count_below_perm j _ _ Hperm).
    apply Hpos; [exact Hj | | exact He].
    intros Hin. apply list_elem_of_filter in Hin as [_ Hin].
    apply Hnot. by rewrite <- (sorted_reverse_perm sel).
Qed.

(** What [delete_selected] leaves.  The selected indices that are
    positions of the order are removed, the others are ignored; every
    entry that is not selected stays, moved down by the number of removed
    positions below it. *)
Theorem delete_selected_positions (w : t) :
  selected_indices w <> ∅ ->
  let gone := filter (fun i => 0 <= i < Py.len (images w)) (elements (selected_indices w)) in
  Py.len (images (delete_selected w)) = Py.len (images w) - Py.len gone
  /\ forall (j : Z) (e : ImageEntry),
       0 <= j -> j ∉ selected_indices w -> images w !! Z.to_nat j = Some e ->
       images (delete_selected w) !! Z.to_nat (j - count_below j gone) = Some e.
Proof.
  intros Hsel gone. rewrite (delete_selected_some w Hsel). cbn [images].
  destruct (delete_positions (elements (selected_indices w)) (images w)
              (NoDup_elements _)) as (Hl & Hpos).
  split; [exact Hl|]. intros j e Hj Hnot He. apply Hpos; [exact Hj | | exact He].
  by rewrite elem_of_elements.
Qed.

Lemma delete_selected_positions_witness :
  let w := with_selection {[ 1; 3; 9 ]} None Examples.five in
  Py.len (images (delete_selected w)) = 3
  /\ images (delete_selected w) !! 1%nat = Some (Examples.cell64 2)
  /\ images (delete_selected w) !! 2%nat = Some (Examples.cell64 4).
Proof.
  intros w.
  assert (Hsel : selected_indices w <> ∅).
  { intros H. apply (f_equal elements) in H. vm_compute in H. discriminate H. }
  destruct (delete_selected_positions w Hsel) as (Hl & Hpos).
  split; [exact Hl|]. split.
  - apply (Hpos 2 (Examples.cell64 2)); [lia | | reflexivity].
    intros H. apply elem_of_elements in H. vm_compute in H.
    repeat (apply elem_of_cons in H as [H|H]; [discriminate H|]). by apply not_elem_of_nil in H.
  - apply (Hpos 4 (Examples.cell64 4)); [lia | | reflexivity].
    intros H. apply elem_of_elements in H. vm_compute in H.
    repeat (apply elem_of_cons in H as [H|H]; [discriminate H|]). by apply not_elem_of_nil in H.
Defined.

(** Popping indices leaves what lies below all of them in place. *)
Lemma pop_each_above (src : list Z) :
  forall (imgs : list ImageEntry) (j : Z),
    0 <= j -> Forall (fun i => j < i) src ->
    pop_each src imgs !! Z.to_nat j = imgs !! Z.to_nat j.
Proof.
  induction src as [|idx rest IH]; intros imgs j Hj Hall; [done|].
  apply Forall_cons_1 in Hall as [Hidx Hrest]. simpl.
  destruct (Py.in_bounds idx imgs); rewrite (IH _ j Hj Hrest); [|done].
  unfold Py.pop_at. by rewrite list_lookup_delete_lt by lia.
Qed.

(** In a strictly descending list everything before a member is above it. *)
Lemma desc_before (before after : list Z) (idx : Z) :
  StronglySorted desc (before ++ idx :: after) -> Forall (fun i => idx < i) before.
Proof.
  induction before as [|x before IH]; intros Hs; [constructor|].
  simpl in Hs. apply StronglySorted_inv in Hs as [Hs Hall]. constructor.
  - rewrite List.Forall_forall in Hall. apply (Hall idx).
    apply List.in_or_app. right. by left.
  - by apply IH.
Qed.

(** C8.  Deleting the selection [{1, 3}] from the order [[A; B; C; D; E]],
    whatever the anchor and the two stacks hold and for every positive
    cap: the indices are visited as [[3; 1]], [delete_selected] leaves
    [[A; C; E]] with the selection empty and the anchor [None], and one
    [undo] gives [[A; B; C; D; E]] back.  Removal is in descending order
    in every state [v]: the list [order] that the loop visits holds
    exactly the selected indices, each one smaller than all before it,
    and the order that [delete_selected] leaves is the result of
    popping them one after the other.  So the removals do not shift
    what is still to be removed: when the loop comes to an index, all
    entries up to that index are where they were at the start.  In
    ascending order they would: popping 1 and then 3 from the five
    entries leaves [[A; C; D]]. *)
Theorem delete_1_3_of_five (A B C D E : ImageEntry) (anchor : option Z)
    (h r : list (list ImageEntry)) (cap : Z) (v : t) :
  0 < cap ->
  let w := {| images := [A; B; C; D; E]; selected_indices := {[ 1; 3 ]};
              last_selected_index := anchor; history := h; redo_stack := r;
              max_history := cap |} in
  let order := Py.sorted_reverse (elements (selected_indices v)) in
  (Py.sorted_reverse (elements (selected_indices w)) = [3; 1]
   /\ images (delete_selected w) = [A; C; E]
   /\ selected_indices (delete_selected w) = ∅
   /\ last_selected_index (delete_selected w) = None
   /\ images (undo (delete_selected w)) = [A; B; C; D; E])
  /\ (StronglySorted desc order
      /\ (forall i, i ∈ order <-> i ∈ selected_indices v)
      /\ images (delete_selected v) = pop_each order (images v)
      /\ forall (before after : list Z) (idx j : Z),
           order = before ++ idx :: after -> 0 <= j <= idx ->
           pop_each before (images v) !! Z.to_nat j = images v !! Z.to_nat j)
  /\ pop_each [1; 3] [A; B; C; D; E] = [A; C; D].
Proof.
  intros Hcap w order. split; [|split].
  - assert (Hsel : selected_indices w <> ∅).
    { simpl. intros E0. assert (H1 : (1 : Z) ∈ (∅ : gset Z)) by (rewrite <- E0; set_solver).
      set_solver. }
    assert (Hord : Py.sorted_reverse (elements (selected_indices w)) = [3; 1])
      by (vm_compute; reflexivity).
    split; [exact Hord|].
    rewrite (undo_delete_selected w Hcap Hsel).
    rewrite (delete_selected_some w Hsel), Hord. simpl. done.
  - pose proof (sorted_reverse_sorted _ (NoDup_elements (selected_indices v))) as Hs.
    fold order in Hs. split; [exact Hs|]. split; [|split].
    + intros i. unfold order. by rewrite sorted_reverse_perm, elem_of_elements.
    + destruct (decide (selected_indices v = ∅)) as [He|Hne].
      * rewrite (delete_selected_none v He). unfold order. rewrite He.
        by rewrite elements_empty.
      * by rewrite (delete_selected_some v Hne).
    + intros before after idx j Ho Hj. apply pop_each_above; [lia|].
      rewrite Ho in Hs. apply desc_before in Hs.
      eapply List.Forall_impl; [|exact Hs]. intros i Hi. simpl in Hi. lia.
  - reflexivity.
Qed.

Lemma delete_1_3_of_five_witness :
  let px k : ImageEntry := ({| pm_width := 8; pm_height := 8; pm_key := k |}, "f", "p")%string in
  let w := {| images := [px 0; px 1; px 2; px 3; px 4]%N; selected_indices := {[ 1; 3 ]};
              last_selected_index := Some 3; history := []; redo_stack := [];
              max_history := 50 |} in
  let v := with_selection {[ 1; 2; 3; 4 ]} None w in
  (images (delete_selected w) = [px 0; px 2; px 4]%N
   /\ selected_indices (delete_selected w) = ∅
   /\ last_selected_index (delete_selected w) = None
   /\ images (undo (delete_selected w)) = [px 0; px 1; px 2; px 3; px 4]%N)
  /\ Py.sorted_reverse (elements (selected_indices v)) = [4; 3; 2; 1]
  /\ StronglySorted desc (Py.sorted_reverse (elements (selected_indices v)))
  /\ images (delete_selected v) = [px 0%N]
  /\ pop_each [4; 3] (images v) !! 2%nat = Some (px 2%N).
Proof.
  intros px w v.
  destruct (delete_1_3_of_five (px 0%N) (px 1%N) (px 2%N) (px 3%N) (px 4%N) (Some 3) [] [] 50 v)
    as ((_ & H1) & (Hs & _ & Himg & Hkeep) & _); [reflexivity|].
  split; [exact H1|]. split; [by vm_compute|]. split; [exact Hs|]. split.
  - rewrite Himg. by vm_compute.
  - apply (Hkeep [4; 3] [1] 2 2); [by vm_compute | lia].
Defined.
End Positions.

(** ** Dragging the selection onto a drop zone *)

Section DragAndDrop.
Import ImageGridWidget Session.

Lemma insert_asc_perm (x : Z) (l : list Z) : Py.insert_asc x l ≡ₚ x :: l.
Proof.
  induction l as [|y l IH]; simpl; [done|].
  destruct (x <=? y); [done|]. rewrite IH. apply Permutation_swap.
Qed.

Lemma sorted_perm (l : list Z) : Py.sorted l ≡ₚ l.
Proof.
  induction l as [|x l IH]; [done|].
  unfold Py.sorted in *. simpl. rewrite insert_asc_perm. by rewrite IH.
Qed.

Lemma insert_asc_sorted (x : Z) (l : list Z) :
  StronglySorted Z.le l -> StronglySorted Z.le (Py.insert_asc x l).
Proof.
  induction 1 as [|y l Hs IH Hall]; simpl; [repeat constructor|].
  destruct (Z.leb_spec x y).
  - constructor; [by constructor|]. constructor; [done|].
    eapply List.Forall_impl; [|exact Hall]. intros; simpl in *; lia.
  - constructor; [exact IH|]. rewrite insert_asc_perm. constructor; [lia | exact Hall].
Qed.

Lemma sorted_sorted (l : list Z) : StronglySorted Z.le (Py.sorted l).
Proof.
  induction l as [|x l IH]; [constructor|].
  unfold Py.sorted in *. simpl. by apply insert_asc_sorted.
Qed.

Lemma get_selected_indices_perm (g : t) :
  get_selected_indices g ≡ₚ elements (selected_indices g).
Proof. apply sorted_perm. Qed.

Lemma start_drag_text (g : t) :
  (selected_indices g = ∅ -> ImageThumbnail.start_drag g = ImageThumbnail.NothingSelected)
  /\ (selected_indices g <> ∅ ->
      (forall i, i ∈ selected_indices g -> - Py.len (images g) <= i) ->
      exists text,
        ImageThumbnail.start_drag g = ImageThumbnail.Dragging text
        /\ Py.ints (Py.split_comma text) = Some (get_selected_indices g))
  /\ (forall i, i ∈ selected_indices g -> i < - Py.len (images g) ->
        ImageThumbnail.start_drag g = ImageThumbnail.MarkingRaises)
  /\ StronglySorted Z.le (get_selected_indices g)
  /\ (forall i, i ∈ get_selected_indices g <-> i ∈ selected_indices g).
Proof.
  assert (Hmem : forall i, i ∈ get_selected_indices g <-> i ∈ selected_indices g).
  { intros i. by rewrite get_selected_indices_perm, elem_of_elements. }
  split; [|split; [|split; [|split]]].
  - intros H. unfold ImageThumbnail.start_drag, get_selected_indices.
    by rewrite H, elements_empty.
  - intros H Hlow. unfold ImageThumbnail.start_drag.
    destruct (get_selected_indices g) as [|i l] eqn:E.
    + exfalso. apply H. apply leibniz_equiv, elements_empty_inv.
      pose proof (get_selected_indices_perm g) as Hp. rewrite E in Hp.
      by apply Permutation_nil_l in Hp.
    + destruct (existsb _ (i :: l)) eqn:Ex.
      * exfalso. apply existsb_exists in Ex as (x & Hx & Hr).
        rewrite set_selected_raises_spec in Hr. apply Z.ltb_lt in Hr.
        apply (proj2 (list_elem_of_In _ _)), Hmem in Hx. specialize (Hlow x Hx). lia.
      * eexists. split; [reflexivity|].
        rewrite split_join_str by done. apply ints_str.
  - intros i Hi Hlow. unfold ImageThumbnail.start_drag.
    apply Hmem in Hi.
    destruct (get_selected_indices g) as [|j l] eqn:E; [by apply not_elem_of_nil in Hi|].
    assert (Ex : existsb (fun idx => set_selected_raises idx g) (j :: l) = true).
    { apply existsb_exists. exists i. split; [by apply list_elem_of_In|].
      rewrite set_selected_raises_spec. by apply Z.ltb_lt. }
    by rewrite Ex.
  - apply sorted_sorted.
  - exact Hmem.
Qed.

(** How [start_drag] ends.  Without a selection it returns and no drag
    starts.  With a selection none of whose members is below [-len], a
    drag starts, and its text is read back by [handle_drop] as the
    selected indices, ascending.  With a member below [-len], the loop
    that marks the thumbnails raises [IndexError] before there is a
    drag. *)
Theorem start_drag_parses (g : t) :
  (selected_indices g = ∅ -> ImageThumbnail.start_drag g = ImageThumbnail.NothingSelected)
  /\ (selected_indices g <> ∅ ->
      (forall i, i ∈ selected_indices g -> - Py.len (images g) <= i) ->
      exists text,
        ImageThumbnail.start_drag g = ImageThumbnail.Dragging text
        /\ Py.ints (Py.split_comma text) = Some (get_selected_indices g))
  /\ (forall i, i ∈ selected_indices g -> i < - Py.len (images g) ->
        ImageThumbnail.start_drag g = ImageThumbnail.MarkingRaises)
  /\ StronglySorted Z.le (get_selected_indices g)
  /\ (forall i, i ∈ get_selected_indices g <-> i ∈ selected_indices g).
Proof. apply start_drag_text. Qed.

Lemma start_drag_parses_witness :
  let g := with_selection {[ 3; -2 ]} None Examples.five in
  let low := with_selection {[ 3; -7 ]} None Examples.five in
  (exists text,
     ImageThumbnail.start_drag g = ImageThumbnail.Dragging text
     /\ Py.ints (Py.split_comma text) = Some (get_selected_indices g))
  /\ ImageThumbnail.start_drag low = ImageThumbnail.MarkingRaises.
Proof.
  intros g low.
  assert (Hin : forall (X : gset Z) (i : Z), i ∈ X -> In i (elements X)).
  { intros X i H. by apply list_elem_of_In, elem_of_elements. }
  destruct (start_drag_parses g) as (_ & Htext & _).
  destruct (start_drag_parses low) as (_ & _ & Hraise & _).
  split.
  - apply Htext.
    + intros H. apply (f_equal elements) in H. vm_compute in H. discriminate H.
    + intros i Hi. apply Hin in Hi. vm_compute in Hi.
      destruct Hi as [<-|[<-|[]]]; by vm_compute.
  - apply (Hraise (-7)); [|by vm_compute].
    apply elem_of_elements, list_elem_of_In. vm_compute. tauto.
Defined.

(** Distinct numbers from [0, j) are at most [j]. *)
Lemma count_below_le (j : Z) (l : list Z) :
  NoDup l -> Forall (fun i => 0 <= i) l -> 0 <= j -> count_below j l <= j.
Proof.
  intros Hnd Hpos Hj. unfold count_below, Py.len.
  assert (Hsub : filter (fun i => i < j) l ⊆+ seqZ 0 j).
  { apply NoDup_submseteq; [by apply stdpp.list_relations.list.NoDup_filter|].
    intros x Hx. apply list_elem_of_filter in Hx as [Hx Hin].
    apply elem_of_seqZ.
    pose proof (proj1 (List.Forall_forall _ _) Hpos x (proj1 (list_elem_of_In _ _) Hin)).
    simpl in *. lia. }
  apply submseteq_length in Hsub. rewrite length_seqZ in Hsub. lia.
Qed.

(** The parts of a move of distinct positions. *)
Lemma handle_drop_moved (s : string) (parsed : list Z) (T : Z) (w : t) :
  Py.ints (Py.split_comma s) = Some parsed ->
  NoDup parsed ->
  Forall (fun i => 0 <= i < Py.len (images w)) parsed ->
  0 <= T <= Py.len (images w) ->
  let src := Py.sorted_reverse parsed in
  let moved := items_to_move src (images w) in
  let left := pop_each src (images w) in
  let t := T - count_below T parsed in
  0 <= t <= Py.len left
  /\ images (handle_drop s T w) = take (Z.to_nat t) left ++ moved ++ drop (Z.to_nat t) left
  /\ images w ≡ₚ moved ++ left
  /\ Py.len moved = Py.len parsed
  /\ Forall2 (fun i x => images w !! Z.to_nat i = Some x) src moved
  /\ selected_indices (handle_drop s T w) = dropped_positions t (length moved).
Proof.
  intros Hp Hnd Hv HT src moved left t.
  destruct (handle_drop_parsed s T w parsed Hp) as (Hi & Hs & _).
  fold src in Hi, Hs. fold moved in Hi, Hs.
  assert (Hvs : Forall (fun i => 0 <= i < Py.len (images w)) src).
  { unfold src. by rewrite sorted_reverse_perm. }
  destruct (remove_sources_desc src (images w) T (sorted_reverse_sorted parsed Hnd) Hvs)
    as (Ht & Hperm & _).
  pose proof (remove_sources_target src (images w) T HT) as Hrange.
  pose proof (items_to_move_lookup (images w) src Hvs) as Hlook.
  rewrite remove_sources_pop_each in Hi, Hperm, Hrange. fold moved left in Hi, Hperm, Hrange, Hlook.
  assert (Et : (remove_sources src (images w) T).2 = t).
  { rewrite Ht. unfold t, src. by rewrite (count_below_perm T _ _ (sorted_reverse_perm parsed)). }
  rewrite Et in *.
  split; [exact Hrange|]. split.
  { rewrite Hi, insert_all_block by exact Hrange. by rewrite rev_involutive. }
  split; [exact Hperm|]. split.
  { unfold Py.len. f_equal. apply Forall2_length in Hlook. rewrite <- Hlook.
    unfold src. by rewrite sorted_reverse_perm. }
  split; [exact Hlook | exact Hs].
Qed.

Lemma lookup_block {A : Type} (left moved : list A) (t : nat) :
  (t <= length left)%nat ->
  (forall p, (p < t)%nat -> (take t left ++ moved ++ drop t left) !! p = left !! p)
  /\ (forall p, (t <= p)%nat ->
        (take t left ++ moved ++ drop t left) !! (p + length moved)%nat = left !! p)
  /\ (forall q, (q < length moved)%nat ->
        (take t left ++ moved ++ drop t left) !! (t + q)%nat = moved !! q).
Proof.
  intros Ht. assert (Hl : length (take t left) = t) by (rewrite length_take; lia).
  split; [|split].
  - intros p Hp. rewrite lookup_app_l by lia. by apply lookup_take_lt.
  - intros p Hp. rewrite lookup_app_r by lia. rewrite lookup_app_r by lia.
    rewrite lookup_drop. f_equal. lia.
  - intros q Hq. rewrite lookup_app_r by lia. rewrite lookup_app_l by lia.
    f_equal. lia.
Qed.

Lemma filter_none (P : Z -> Prop) `{forall x, Decision (P x)} (l : list Z) :
  Forall (fun x => ~ P x) l -> filter P l = [].
Proof.
  induction 1 as [|x l Hx Hl IH]; [done|]. by rewrite filter_cons_False.
Qed.

(** In a strictly descending list an element stands after exactly the
    elements that are greater. *)
Lemma desc_position (src : list Z) (j : Z) :
  StronglySorted desc src -> j ∈ src ->
  src !! length (filter (fun i => j < i) src) = Some j.
Proof.
  induction 1 as [|x rest Hs IH Hall]; intros Hj; [by apply not_elem_of_nil in Hj|].
  apply elem_of_cons in Hj as [->|Hj].
  - rewrite filter_cons_False by lia. rewrite filter_none; [done|].
    eapply List.Forall_impl; [|exact Hall]. intros i Hi. unfold desc in Hi. simpl. lia.
  - assert (j < x).
    { rewrite List.Forall_forall in Hall. apply list_elem_of_In in Hj.
      specialize (Hall j Hj). exact Hall. }
    rewrite filter_cons_True by done. simpl. by apply IH.
Qed.

(** The drag of a valid, non-empty selection onto the drop zone with
    index [index].  [t] is where the block lands and [k] its size.  The
    order is permuted; an entry that was not selected keeps its place
    among the others, before or after the block; the selected entry of
    index [j] lands in the block behind the selected entries of greater
    index, so the block holds the selection highest index first; the
    block is the new selection; one [undo] restores the order. *)
Theorem drag_selection_to_zone (g : t) (index : Z) :
  selection_valid g ->
  selected_indices g <> ∅ ->
  0 <= index <= Py.len (images g) ->
  0 < max_history g ->
  let sel := elements (selected_indices g) in
  let k := Py.len sel in
  let t := index - count_below index sel in
  let g' := Window.drag (DropZone.dropEvent index) g in
  (0 <= t /\ t + k <= Py.len (images g))
  /\ Py.len (images g') = Py.len (images g)
  /\ images g' ≡ₚ images g
  /\ (forall x, x ∈ selected_indices g' <-> t <= x < t + k)
  /\ (forall (j : Z) (e : ImageEntry),
        0 <= j -> j ∉ selected_indices g -> images g !! Z.to_nat j = Some e ->
        let p := j - count_below j sel in
        images g' !! Z.to_nat (if p <? t then p else p + k) = Some e)
  /\ (forall (j : Z) (e : ImageEntry),
        j ∈ selected_indices g -> images g !! Z.to_nat j = Some e ->
        images g' !! Z.to_nat (t + Py.len (filter (fun i => j < i) sel)) = Some e)
  /\ images (undo g') = images g.
Proof.
  intros Hval Hne HT Hcap sel k t g'.
  destruct (start_drag_text g) as (_ & Htext & _ & _ & Hmem).
  assert (Hlow : forall i, i ∈ selected_indices g -> - Py.len (images g) <= i).
  { intros i Hi. specialize (Hval i Hi). unfold valid_index in Hval. lia. }
  destruct (Htext Hne Hlow) as (text & Hstart & Hparse).
  set (parsed := get_selected_indices g) in *.
  assert (Hperm : parsed ≡ₚ sel) by apply get_selected_indices_perm.
  assert (Hnd : NoDup parsed) by (rewrite Hperm; apply NoDup_elements).
  assert (Hv : Forall (fun i => 0 <= i < Py.len (images g)) parsed).
  { apply List.Forall_forall. intros i Hi. apply (proj2 (list_elem_of_In _ _)) in Hi.
    apply Hmem in Hi. exact (Hval i Hi). }
  assert (Eg : g' = handle_drop text index g).
  { unfold g', Window.drag. by rewrite Hstart. }
  destruct (handle_drop_moved text parsed index g Hparse Hnd Hv HT)
    as (Ht & Himg & Hp & Hlen & Hlook & Hsel).
  rewrite (count_below_perm index _ _ Hperm) in Ht, Himg, Hsel. fold t in Ht, Himg, Hsel.
  set (src := Py.sorted_reverse parsed) in *.
  set (moved := items_to_move src (images g)) in *.
  set (left := pop_each src (images g)) in *.
  assert (Ek : Py.len moved = k).
  { rewrite Hlen. unfold k, Py.len. by rewrite Hperm. }
  destruct (delete_positions parsed (images g) Hnd) as (Hleft & Hpos).
  fold src left in Hleft, Hpos.
  assert (Egone : filter (fun i => 0 <= i < Py.len (images g)) parsed = parsed).
  { clear -Hv. induction Hv as [|x l Hx Hl IH]; [done|].
    rewrite filter_cons_True by done. by rewrite IH. }
  rewrite Egone in Hleft, Hpos.
  assert (Elen : Py.len parsed = k) by (unfold k, Py.len; by rewrite Hperm).
  rewrite Elen in Hleft.
  assert (Eperm : images g' ≡ₚ images g).
  { rewrite Eg, Himg, Hp.
    rewrite (Permutation_app_comm (take _ _)), <- app_assoc.
    apply Permutation_app_head. by rewrite Permutation_app_comm, take_drop. }
  destruct (lookup_block left moved (Z.to_nat t) ltac:(unfold Py.len in *; lia))
    as (Hbefore & Hafter & Hin).
  split; [lia|]. split; [unfold Py.len; f_equal; by apply Permutation_length|].
  split; [exact Eperm|]. split; [|split; [|split]].
  - intros x. rewrite Eg, Hsel, elem_of_dropped_positions_iff.
    unfold Py.len in *. split; intros; lia.
  - intros j e Hj Hnot He p.
    assert (Hp' : left !! Z.to_nat p = Some e).
    { unfold p. rewrite <- (count_below_perm j _ _ Hperm).
      apply Hpos; [exact Hj | | exact He]. intros Hin'. apply Hnot. by apply Hmem. }
    assert (0 <= p).
    { unfold p. assert (count_below j sel <= j); [|lia].
      apply count_below_le; [apply NoDup_elements | | exact Hj].
      apply List.Forall_forall. intros i Hi. apply (proj2 (list_elem_of_In _ _)) in Hi.
      apply elem_of_elements in Hi. specialize (Hval i Hi). unfold valid_index in Hval. lia. }
    rewrite Eg, Himg. destruct (Z.ltb_spec p t).
    + rewrite Hbefore by lia. exact Hp'.
    + replace (Z.to_nat (p + k)) with (Z.to_nat p + length moved)%nat
        by (unfold Py.len in Ek; lia).
      rewrite Hafter by lia. exact Hp'.
  - intros j e Hj He.
    assert (Hjs : j ∈ src).
    { unfold src. rewrite sorted_reverse_perm. by apply Hmem. }
    pose proof (desc_position src j (sorted_reverse_sorted parsed Hnd) Hjs) as Hat.
    assert (Ecount : length (filter (fun i => j < i) sel) = length (filter (fun i => j < i) src)).
    { unfold src. by rewrite sorted_reverse_perm, Hperm. }
    destruct (Forall2_lookup_l _ _ _ _ _ Hlook Hat) as (e' & Hm & He').
    assert (e' = e) by congruence. subst e'.
    rewrite Eg, Himg.
    replace (Z.to_nat (t + Py.len (filter (fun i => j < i) sel)))
      with (Z.to_nat t + length (filter (fun i => (j < i)%Z) src))%nat
      by (unfold Py.len; rewrite Ecount; lia).
    rewrite Hin; [exact Hm|]. by apply lookup_lt_Some in Hm.
  - rewrite Eg. unfold undo.
    destruct (handle_drop_stacks text index g) as (Hh & _ & _). rewrite Hh.
    destruct (save_state_newest g Hcap) as [rest Hrest].
    rewrite Hrest, pop_last_snoc. reflexivity.
Qed.
Lemma drag_selection_to_zone_witness :
  let g := with_selection {[ 1; 3 ]} None Examples.five in
  let g' := Window.drag (DropZone.dropEvent 5) g in
  Py.len (images g') = 5
  /\ images g' !! 2%nat = Some (Examples.cell64 4)
  /\ images g' !! 3%nat = Some (Examples.cell64 3)
  /\ images g' !! 4%nat = Some (Examples.cell64 1)
  /\ images (undo g') = images g.
Proof.
  intros g g'.
  assert (Hmem : forall i, i ∈ selected_indices g -> i = 1 \/ i = 3).
  { intros i H. apply elem_of_elements in H. vm_compute in H.
    repeat (apply elem_of_cons in H as [H|H]; [auto|]). by apply not_elem_of_nil in H. }
  assert (Hval : selection_valid g).
  { intros i H. destruct (Hmem i H) as [-> | ->]; vm_compute; split; congruence. }
  assert (Hne : selected_indices g <> ∅).
  { intros H. apply (f_equal elements) in H. vm_compute in H. discriminate H. }
  assert (Hin : forall i, i = 1 \/ i = 3 -> i ∈ selected_indices g).
  { intros i [-> | ->]; apply elem_of_elements; vm_compute.
    - repeat constructor.
    - repeat constructor. }
  destruct (drag_selection_to_zone g 5 Hval Hne ltac:(vm_compute; split; congruence)
              ltac:(reflexivity))
    as (_ & Hl & _ & _ & Hout & Hsel & Hundo).
  split; [exact Hl|]. split; [|split; [|split]].
  - apply (Hout 4 (Examples.cell64 4)); [lia | | reflexivity].
    intros H. destruct (Hmem 4 H); lia.
  - apply (Hsel 3 (Examples.cell64 3)); [apply Hin; by right | reflexivity].
  - apply (Hsel 1 (Examples.cell64 1)); [apply Hin; by left | reflexivity].
  - exact Hundo.
Defined.
End DragAndDrop.

(** ** The window under its events *)

Section WindowInvariant.
Import FlipbookApp Window.

Ltac split_ltb :=
  repeat match goal with
    | |- context [?a <? ?b] => destruct (Z.ltb_spec a b)
    | |- context [?a =? ?b] => destruct (Z.eqb_spec a b)
    | H : context [?a <? ?b] |- _ => destruct (Z.ltb_spec a b)
    | H : context [?a =? ?b] |- _ => destruct (Z.eqb_spec a b)
    end.

Ltac spin_lia :=
  unfold spin_ok, QSpinBox.setMinimum, QSpinBox.setRange, QSpinBox.setValue, QSpinBox.bound,
    QSpinBox.changed in *;
  cbn [QSpinBox.value QSpinBox.minimum QSpinBox.maximum] in *;
  split_ltb;
  cbn [QSpinBox.value QSpinBox.minimum QSpinBox.maximum] in *;
  repeat split; lia.

Lemma ceil_div_covers (n b : Z) :
  1 <= n -> 1 <= b -> 1 <= ceil_div n b /\ n <= b * ceil_div n b.
Proof.
  intros Hn Hb. unfold ceil_div.
  pose proof (Z.div_mod (n + b - 1) b ltac:(lia)) as Hd.
  pose proof (Z.mod_pos_bound (n + b - 1) b ltac:(lia)) as Hm.
  split; [|lia]. apply Z.div_le_lower_bound; lia.
Qed.

Lemma setValue_spin_ok (v : Z) (sb : QSpinBox.t) :
  spin_ok sb -> spin_ok (QSpinBox.setValue v sb).
Proof. intros H. spin_lia. Qed.

(** [update_grid_constraints] leaves the grid alone, keeps both spin
    boxes in order and makes the grid large enough. *)
Lemma update_grid_constraints_fits (app : t) :
  spin_ok (columns_input app) -> spin_ok (rows_input app) ->
  image_grid (update_grid_constraints app) = image_grid app
  /\ spin_ok (columns_input (update_grid_constraints app))
  /\ spin_ok (rows_input (update_grid_constraints app))
  /\ holds_all (update_grid_constraints app).
Proof.
  intros Hc Hr. split; [apply update_grid_constraints_grid|].
  unfold holds_all. rewrite update_grid_constraints_grid.
  unfold update_grid_constraints.
  destruct (ImageGridWidget.images (image_grid app)) as [|e es] eqn:E.
  - cbn [columns_input rows_input with_inputs].
    assert (Hm : forall sb, spin_ok sb ->
              spin_ok (QSpinBox.setMinimum 1 sb) /\ 1 <= QSpinBox.value (QSpinBox.setMinimum 1 sb)).
    { clear. intros sb H. spin_lia. }
    destruct (Hm _ Hc) as (Hc2 & Hcv). destruct (Hm _ Hr) as (Hr2 & Hrv).
    split; [exact Hc2|]. split; [exact Hr2|].
    change (Py.len (@nil ImageEntry)) with 0. nia.
  - set (n := Py.len (e :: es)).
    assert (Hn : 1 <= n) by (unfold n, Py.len; simpl; lia).
    set (c := QSpinBox.value (columns_input app)).
    set (r := QSpinBox.value (rows_input app)).
    assert (Hc1 : 1 <= c) by (unfold c; spin_lia).
    assert (Hr1 : 1 <= r) by (unfold r; spin_lia).
    destruct (ceil_div_covers n c Hn Hc1) as (Hmr & Hcov).
    destruct (ceil_div_covers n r Hn Hr1) as (Hmc & _).
    cbn [columns_input rows_input with_inputs].
    generalize dependent (ceil_div n r). generalize dependent (ceil_div n c).
    intros mr Hmr Hcov mc Hmc.
    assert (Hcs : forall sb m, spin_ok sb -> 1 <= m ->
              let sb1 := QSpinBox.setMinimum m sb in
              let sb2 := if QSpinBox.value sb <? m then QSpinBox.setValue m sb1 else sb1 in
              spin_ok sb2 /\ m <= QSpinBox.value sb2 /\ QSpinBox.value sb <= QSpinBox.value sb2).
    { clear. intros sb m H Hm. simpl. spin_lia. }
    destruct (Hcs (columns_input app) mc Hc Hmc) as (Hc2 & _ & Hcv).
    destruct (Hcs (rows_input app) mr Hr Hmr) as (Hr2 & Hrv & _).
    fold c in Hcv. fold r in Hrv. simpl in Hc2, Hcv, Hr2, Hrv.
    split; [exact Hc2|]. split; [exact Hr2|]. nia.
Qed.

Lemma set_columns_spin_ok (v : Z) (app : t) :
  spin_ok (columns_input app) -> spin_ok (rows_input app) ->
  image_grid (set_columns v app) = image_grid app
  /\ spin_ok (columns_input (set_columns v app))
  /\ spin_ok (rows_input (set_columns v app))
  /\ (holds_all app -> holds_all (set_columns v app)).
Proof.
  intros Hc Hr. unfold set_columns.
  pose proof (setValue_spin_ok v _ Hc) as Hc'.
  destruct (QSpinBox.changed _ _) eqn:Hch.
  - unfold on_grid_changed.
    destruct (update_grid_constraints_fits
                (with_inputs (QSpinBox.setValue v (columns_input app)) (rows_input app) app)
                Hc' Hr) as (Hg & H1 & H2 & H3).
    rewrite Hg. split; [reflexivity|]. split; [exact H1|]. split; [exact H2|]. intros _; exact H3.
  - cbn [image_grid with_inputs columns_input rows_input].
    split; [reflexivity|]. split; [exact Hc'|]. split; [exact Hr|].
    unfold holds_all. cbn [image_grid with_inputs columns_input rows_input].
    unfold QSpinBox.changed in Hch. apply negb_false_iff, Z.eqb_eq in Hch. by rewrite <- Hch.
Qed.

Lemma set_rows_spin_ok (v : Z) (app : t) :
  spin_ok (columns_input app) -> spin_ok (rows_input app) ->
  image_grid (set_rows v app) = image_grid app
  /\ spin_ok (columns_input (set_rows v app))
  /\ spin_ok (rows_input (set_rows v app))
  /\ (holds_all app -> holds_all (set_rows v app)).
Proof.
  intros Hc Hr. unfold set_rows.
  pose proof (setValue_spin_ok v _ Hr) as Hr'.
  destruct (QSpinBox.changed _ _) eqn:Hch.
  - unfold on_grid_changed.
    destruct (update_grid_constraints_fits
                (with_inputs (columns_input app) (QSpinBox.setValue v (rows_input app)) app)
                Hc Hr') as (Hg & H1 & H2 & H3).
    rewrite Hg. split; [reflexivity|]. split; [exact H1|]. split; [exact H2|]. intros _; exact H3.
  - cbn [image_grid with_inputs columns_input rows_input].
    split; [reflexivity|]. split; [exact Hc|]. split; [exact Hr'|].
    unfold holds_all. cbn [image_grid with_inputs columns_input rows_input].
    unfold QSpinBox.changed in Hch. apply negb_false_iff, Z.eqb_eq in Hch. by rewrite <- Hch.
Qed.

Lemma resize_to_min_grid_fits (app : t) :
  spin_ok (columns_input app) -> spin_ok (rows_input app) ->
  image_grid (resize_to_min_grid app) = image_grid app
  /\ spin_ok (columns_input (resize_to_min_grid app))
  /\ spin_ok (rows_input (resize_to_min_grid app))
  /\ holds_all (resize_to_min_grid app).
Proof.
  intros Hc Hr. unfold resize_to_min_grid.
  destruct (get_min_grid_size app) as [cols rows].
  destruct (set_columns_spin_ok cols app Hc Hr) as (Hg1 & Hc1 & Hr1 & _).
  destruct (set_rows_spin_ok rows _ Hc1 Hr1) as (Hg2 & Hc2 & Hr2 & _).
  destruct (update_grid_constraints_fits _ Hc2 Hr2) as (Hg3 & Hc3 & Hr3 & Hh).
  rewrite Hg3, Hg2, Hg1. done.
Qed.

(** An operation of the grid followed by the resize. *)
Lemma grid_then_resize (c : Session.command) (app : t) :
  Session.in_range c (image_grid app) ->
  consistent app ->
  consistent (resize_to_min_grid (with_grid (Session.step c (image_grid app)) app)).
Proof.
  intros Hr (Hc & Hrw & _ & Hs & Ha).
  destruct (resize_to_min_grid_fits (with_grid (Session.step c (image_grid app)) app) Hc Hrw)
    as (Hg & Hc' & Hr' & Hh).
  destruct (step_keeps_valid c (image_grid app) Hr Hs Ha) as (Hs' & Ha').
  unfold consistent. rewrite Hg. done.
Qed.

(** An operation of the grid that keeps the number of images. *)
Lemma grid_same_length (c : Session.command) (app : t) :
  Session.in_range c (image_grid app) ->
  Py.len (ImageGridWidget.images (Session.step c (image_grid app)))
    = Py.len (ImageGridWidget.images (image_grid app)) ->
  consistent app ->
  consistent (on_grid (Session.step c) app).
Proof.
  intros Hr Hl (Hc & Hrw & Hh & Hs & Ha).
  destruct (step_keeps_valid c (image_grid app) Hr Hs Ha) as (Hs' & Ha').
  unfold consistent, holds_all, on_grid in *.
  cbn [image_grid with_grid columns_input rows_input]. rewrite Hl. done.
Qed.

Lemma handle_drop_same_length (g : ImageGridWidget.t) (text : string) (index : Z) :
  Session.selection_valid g ->
  ImageThumbnail.start_drag g = ImageThumbnail.Dragging text ->
  0 <= index <= Py.len (ImageGridWidget.images g) ->
  Py.len (ImageGridWidget.images (ImageGridWidget.handle_drop text index g))
    = Py.len (ImageGridWidget.images g).
Proof.
  intros Hval Hstart HT.
  destruct (start_drag_text g) as (Hnone & Htext & _ & _ & Hmem).
  assert (Hne : ImageGridWidget.selected_indices g <> ∅).
  { intros E. rewrite (Hnone E) in Hstart. discriminate Hstart. }
  assert (Hlow : forall i, i ∈ ImageGridWidget.selected_indices g ->
                   - Py.len (ImageGridWidget.images g) <= i).
  { intros i Hi. specialize (Hval i Hi). unfold Session.valid_index in Hval. lia. }
  destruct (Htext Hne Hlow) as (text' & Hstart' & Hparse).
  assert (text' = text) by congruence. subst text'.
  assert (Hnd : NoDup (ImageGridWidget.get_selected_indices g)).
  { rewrite get_selected_indices_perm. apply NoDup_elements. }
  assert (Hv : Forall (fun i => 0 <= i < Py.len (ImageGridWidget.images g))
                 (ImageGridWidget.get_selected_indices g)).
  { apply List.Forall_forall. intros i Hi. apply (proj2 (list_elem_of_In _ _)) in Hi.
    apply Hmem in Hi. exact (Hval i Hi). }
  destruct (handle_drop_moved text _ index g Hparse Hnd Hv HT)
    as (Ht & Himg & Hp & _).
  unfold Py.len. f_equal. rewrite Himg, (Permutation_length Hp), !length_app.
  rewrite length_take, length_drop. unfold Py.len in Ht. lia.
Qed.

Lemma drag_consistent (index : Z) (app : t) :
  0 <= index <= Py.len (ImageGridWidget.images (image_grid app)) ->
  consistent app ->
  consistent (on_grid (drag (fun s => ImageGridWidget.handle_drop s index)) app).
Proof.
  intros HT Hcon. unfold drag, on_grid.
  destruct (ImageThumbnail.start_drag (image_grid app)) as [| |text] eqn:Hstart.
  - by destruct app.
  - by destruct app.
  - apply (grid_same_length (Session.HandleDrop text index) app HT); [|exact Hcon].
    apply handle_drop_same_length; [apply Hcon | exact Hstart | exact HT].
Qed.

(** Every handler keeps the window consistent. *)
Lemma handle_consistent (e : event) (app : t) :
  possible e app -> consistent app -> consistent (handle e app).
Proof.
  intros Hp Hcon.
  assert (Hlen : forall (c : Session.command) (i : Z) (g : ImageGridWidget.t),
            c = Session.SelectSingle i \/ c = Session.ToggleSelection i
            \/ c = Session.SelectRange i ->
            Py.len (ImageGridWidget.images (Session.step c g))
            = Py.len (ImageGridWidget.images g)).
  { intros c i g Hc. f_equal.
    destruct Hc as [->|[->| ->]]; unfold Session.step; cbn [Session.call];
      apply (selection_frame _ i g); tauto. }
  destruct e as [v|v| | | |data|data|m index sel| |index| ]; simpl in Hp |- *.
  - destruct Hcon as (Hc & Hr & Hh & Hs & Ha).
    destruct (set_columns_spin_ok v app Hc Hr) as (Hg & Hc' & Hr' & Hh').
    unfold consistent. rewrite Hg. auto.
  - destruct Hcon as (Hc & Hr & Hh & Hs & Ha).
    destruct (set_rows_spin_ok v app Hc Hr) as (Hg & Hc' & Hr' & Hh').
    unfold consistent. rewrite Hg. auto.
  - exact (grid_then_resize Session.Undo app I Hcon).
  - exact (grid_then_resize Session.Redo app I Hcon).
  - exact (grid_then_resize Session.DeleteSelected app I Hcon).
  - unfold add_images. destruct data as [|x data]; [exact Hcon|].
    exact (grid_then_resize (Session.AppendImages (x :: data)) app I Hcon).
  - exact (grid_then_resize (Session.AddImages data) app I Hcon).
  - destruct m; cbn [ImageThumbnail.mousePressEvent].
    + exact (grid_same_length (Session.ToggleSelection index) app Hp
               (Hlen (Session.ToggleSelection index) index _ ltac:(tauto)) Hcon).
    + exact (grid_same_length (Session.SelectRange index) app Hp
               (Hlen (Session.SelectRange index) index _ ltac:(tauto)) Hcon).
    + destruct sel; [by destruct app|].
      pose proof (grid_same_length Session.ClearSelection app I eq_refl Hcon) as H1.
      pose proof (grid_same_length (Session.SelectSingle index)
                    (on_grid (Session.step Session.ClearSelection) app) Hp
                    (Hlen (Session.SelectSingle index) index _ ltac:(tauto)) H1) as H2.
      exact H2.
  - exact (grid_same_length Session.ClearSelection app I eq_refl Hcon).
  - apply drag_consistent; [lia | exact Hcon].
  - unfold drag, on_grid, ImageGridWidget.drop_on_grid.
    pose proof (drag_consistent (Py.len (ImageGridWidget.images (image_grid app))) app
                  ltac:(pose proof (len_nonneg (ImageGridWidget.images (image_grid app))); lia)
                  Hcon) as H.
    unfold drag, on_grid in H. exact H.
Qed.

Lemma run_consistent (es : list event) :
  forall app, consistent app -> all_possible es app -> consistent (run es app).
Proof.
  induction es as [|e es IH]; intros app Hcon Hall; [exact Hcon|].
  destruct Hall as [Hp Hall]. simpl. apply IH; [by apply handle_consistent | exact Hall].
Qed.

Lemma init_consistent : consistent init.
Proof.
  unfold consistent, spin_ok, holds_all. split; [vm_compute; repeat split; discriminate|].
  split; [vm_compute; repeat split; discriminate|]. split; [vm_compute; discriminate|].
  split; intros i Hi; simpl in Hi; [set_solver | discriminate].
Qed.

(** The window after any events that its widgets can send: both spin
    boxes hold a value of at least 1 inside their range, the grid has a
    cell for every image, and the selection and the anchor of range
    selection are positions of the order. *)
Theorem window_stays_consistent (es : list event) (app : t) :
  consistent app -> all_possible es app -> consistent (run es app).
Proof. intros Hcon Hall. by apply run_consistent. Qed.

Lemma window_stays_consistent_witness :
  let es := [FolderSelected (Examples.frames 21);
             ThumbnailPressed ImageThumbnail.OtherModifiers 2 false;
             ThumbnailPressed ImageThumbnail.ShiftModifier 7 false;
             DroppedOnZone 21;
             RowsEdited 1;
             DeletePressed;
             UndoPressed;
             ColumnsEdited 3] in
  consistent (run es init).
Proof.
  intros es. apply (window_stays_consistent es init); [exact init_consistent|].
  vm_compute. repeat split; discriminate.
Defined.

Lemma draw_cells_all (entries : list ImageEntry) (columns rows cw ch : Z) :
  forall idx : Z,
    idx + Py.len entries <= columns * rows ->
    length (draw_cells idx entries columns rows cw ch) = length entries.
Proof.
  induction entries as [|[[pm nm] pth] entries IH]; intros idx Hle; [done|].
  unfold Py.len in *. simpl length in Hle. simpl.
  destruct (Z.geb_spec idx (columns * rows)); [lia|]. simpl. f_equal. apply IH. lia.
Qed.

Lemma draw_cells_cell (entries : list ImageEntry) (columns rows cw ch : Z) :
  forall (idx : Z) (k : nat) (e : ImageEntry),
    entries !! k = Some e ->
    idx + Z.of_nat k < columns * rows ->
    exists d,
      draw_cells idx entries columns rows cw ch !! k = Some d
      /\ source d = e.1.1
      /\ at_x d = (idx + Z.of_nat k) mod columns * cw
      /\ at_y d = (idx + Z.of_nat k) / columns * ch.
Proof.
  induction entries as [|[[pm nm] pth] entries IH]; intros idx k e Hk Hlt; [done|].
  simpl. destruct (Z.geb_spec idx (columns * rows)); [lia|].
  destruct k as [|k].
  - simpl in Hk. injection Hk as <-. eexists. split; [reflexivity|]. simpl.
    rewrite Z.add_0_r. done.
  - simpl in Hk. destruct (IH (idx + 1) k e Hk ltac:(lia)) as (d & Hd & Hs & Hx & Hy).
    exists d. split; [exact Hd|]. split; [exact Hs|].
    replace (idx + Z.of_nat (S k)) with (idx + 1 + Z.of_nat k) by lia. done.
Qed.

(** After any events that the widgets can send, [export_flipbook] draws
    every image: the loop never reaches its [break].  Image [k] is drawn
    in the cell of column [k mod columns] and row [k div columns], the
    cell lies inside the texture, and no two images share a cell. *)
Theorem export_draws_every_image (es : list event) (app : t)
    (first_pixmap : QPixmap) :
  consistent app -> all_possible es app ->
  0 < pm_width first_pixmap -> 0 < pm_height first_pixmap ->
  let app' := run es app in
  let entries := ImageGridWidget.images (image_grid app') in
  let columns := QSpinBox.value (columns_input app') in
  let cell_width := pm_width first_pixmap in
  let cell_height := pm_height first_pixmap in
  let tx := paint first_pixmap app' in
  length (tex_drawn tx) = length entries
  /\ (forall (k : nat) (e : ImageEntry),
        entries !! k = Some e ->
        exists d,
          tex_drawn tx !! k = Some d
          /\ source d = e.1.1
          /\ at_x d = Z.of_nat k mod columns * cell_width
          /\ at_y d = Z.of_nat k / columns * cell_height
          /\ 0 <= at_x d /\ at_x d + cell_width <= tex_width tx
          /\ 0 <= at_y d /\ at_y d + cell_height <= tex_height tx)
  /\ (forall (k k' : nat) (d d' : Drawn),
        k <> k' -> tex_drawn tx !! k = Some d -> tex_drawn tx !! k' = Some d' ->
        (at_x d, at_y d) <> (at_x d', at_y d')).
Proof.
  intros Hcon Hall Hw Hh app' entries columns cw ch tx.
  destruct (run_consistent es app Hcon Hall) as (Hc & Hr & Hfit & _).
  fold app' in Hc, Hr, Hfit. unfold holds_all in Hfit. fold entries columns in Hfit.
  set (rows := QSpinBox.value (rows_input app')) in *.
  assert (Hc1 : 1 <= columns) by (unfold columns, spin_ok in *; lia).
  assert (Hr1 : 1 <= rows) by (unfold rows, spin_ok in *; lia).
  assert (Hcell : forall (k : nat) (e : ImageEntry),
            entries !! k = Some e ->
            Z.of_nat k < columns * rows
            /\ exists d,
                 tex_drawn tx !! k = Some d
                 /\ source d = e.1.1
                 /\ at_x d = Z.of_nat k mod columns * cw
                 /\ at_y d = Z.of_nat k / columns * ch).
  { intros k e Hk. pose proof (lookup_lt_Some _ _ _ Hk) as Hlt.
    assert (Hkc : Z.of_nat k < columns * rows) by (unfold Py.len in Hfit; lia).
    split; [exact Hkc|].
    destruct (draw_cells_cell entries columns rows cw ch 0 k e Hk ltac:(lia))
      as (d & Hd & Hs & Hx & Hy).
    exists d. rewrite Z.add_0_l in Hx, Hy. done. }
  assert (Hlen : length (tex_drawn tx) = length entries).
  { unfold tx, paint. cbn [tex_drawn]. apply draw_cells_all. fold entries columns rows. lia. }
  split; [exact Hlen|]. split.
  - intros k e Hk. destruct (Hcell k e Hk) as (Hkc & d & Hd & Hs & Hx & Hy).
    exists d. split; [exact Hd|]. split; [exact Hs|]. split; [exact Hx|]. split; [exact Hy|].
    pose proof (Z.mod_pos_bound (Z.of_nat k) columns ltac:(lia)) as Hm.
    assert (Hq : 0 <= Z.of_nat k / columns < rows).
    { split; [apply Z.div_pos; lia|]. apply Z.div_lt_upper_bound; lia. }
    unfold tx, paint. cbn [tex_width tex_height]. fold columns rows cw ch.
    rewrite Hx, Hy. nia.
  - intros k k' d d' Hne Hd Hd' Heq.
    assert (Hk : is_Some (entries !! k)).
    { apply lookup_lt_is_Some. rewrite <- Hlen. by apply lookup_lt_Some in Hd. }
    assert (Hk' : is_Some (entries !! k')).
    { apply lookup_lt_is_Some. rewrite <- Hlen. by apply lookup_lt_Some in Hd'. }
    destruct Hk as [e He]. destruct Hk' as [e' He'].
    destruct (Hcell k e He) as (_ & d1 & Hd1 & _ & Hx & Hy).
    destruct (Hcell k' e' He') as (_ & d2 & Hd2 & _ & Hx' & Hy').
    assert (d1 = d) by congruence. assert (d2 = d') by congruence. subst d1 d2.
    injection Heq as Ex Ey. rewrite Hx, Hx' in Ex. rewrite Hy, Hy' in Ey.
    apply Z.mul_cancel_r in Ex; [|lia]. apply Z.mul_cancel_r in Ey; [|lia].
    pose proof (Z.div_mod (Z.of_nat k) columns ltac:(lia)).
    pose proof (Z.div_mod (Z.of_nat k') columns ltac:(lia)).
    apply Hne. apply Nat2Z.inj. congruence.
Qed.

Lemma export_draws_every_image_witness :
  let es := [FolderSelected (Examples.frames 21); RowsEdited 1; ColumnsEdited 2] in
  length (tex_drawn (paint (Examples.cell64 0).1.1 (run es init))) = 21%nat.
Proof.
  intros es.
  destruct (export_draws_every_image es init (Examples.cell64 0).1.1 init_consistent
              ltac:(vm_compute; repeat split; discriminate) ltac:(reflexivity) ltac:(reflexivity))
    as (Hl & _).
  exact Hl.
Defined.

Lemma resize_to_min_grid_grid (app : t) :
  image_grid (resize_to_min_grid app) = image_grid app.
Proof.
  unfold resize_to_min_grid. destruct (get_min_grid_size app) as [cols rows].
  rewrite update_grid_constraints_grid. unfold set_rows, set_columns, on_grid_changed.
  repeat (destruct (QSpinBox.changed _ _); rewrite ?update_grid_constraints_grid;
          cbn [image_grid with_inputs]); reflexivity.
Qed.

(** Loading a folder cannot be undone.  [select_folder] replaces the
    images by the loaded ones and empties the selection and both history
    stacks; undo and redo pressed after it leave the loaded images in
    place, and the images shown before are in no stack. *)
Theorem select_folder_cannot_be_undone (images_data : list ImageEntry) (app : t) :
  let app' := select_folder images_data app in
  ImageGridWidget.images (image_grid app') = images_data
  /\ ImageGridWidget.selected_indices (image_grid app') = ∅
  /\ ImageGridWidget.history (image_grid app') = []
  /\ ImageGridWidget.redo_stack (image_grid app') = []
  /\ image_grid (undo app') = image_grid app'
  /\ image_grid (redo app') = image_grid app'.
Proof.
  intros app'.
  assert (Hg : image_grid app' = ImageGridWidget.add_images images_data (image_grid app)).
  { unfold app', select_folder. by rewrite resize_to_min_grid_grid. }
  rewrite Hg. repeat (split; [reflexivity|]).
  unfold undo, redo. rewrite !resize_to_min_grid_grid. cbn [image_grid with_grid].
  by rewrite Hg.
Qed.

End WindowInvariant.

(** ** The layout of the grid *)

Section GridLayout.
Import ImageGridWidget.

Lemma cell_key_thumbnail (columns i : Z) :
  1 <= columns -> cell_key columns (i / columns, i mod columns * 2) = 2 * i.
Proof.
  intros Hc. unfold cell_key; simpl.
  rewrite Z.div_mul by lia. rewrite Z.mod_mul by lia.
  pose proof (Z.div_mod i columns ltac:(lia)). lia.
Qed.

Lemma cell_key_zone (columns i : Z) :
  1 <= columns -> cell_key columns (i / columns, i mod columns * 2 + 1) = 2 * i + 1.
Proof.
  intros Hc. unfold cell_key; simpl.
  rewrite (Z.add_comm _ 1). rewrite Z.div_add by lia. rewrite Z.mod_add by lia.
  change (1 / 2) with 0. change (1 mod 2) with 1.
  pose proof (Z.div_mod i columns ltac:(lia)). lia.
Qed.

Lemma place_items_keys (count columns : Z) (sel : gset Z) :
  1 <= columns ->
  forall (entries : list ImageEntry) (i : Z),
    entries <> [] ->
    i + Py.len entries = count ->
    cell_key columns <$> (cell_of <$> place_items i entries count columns sel)
      = seqZ (2 * i) (2 * Py.len entries - 1).
Proof.
  intros Hc. induction entries as [|e rest IH]; intros i Hne Hlen; [done|].
  cbn [place_items]. rewrite !fmap_cons. unfold cell_of at 1. cbn [at_row at_column].
  rewrite cell_key_thumbnail by done.
  unfold Py.len in *. simpl length in *.
  destruct rest as [|e' rest'].
  - simpl length in *. destruct (Z.ltb_spec i (count - 1)); [lia|]. simpl.
    by rewrite seqZ_cons by lia.
  - destruct (Z.ltb_spec i (count - 1)); [|simpl length in *; lia].
    cbn [app]. rewrite !fmap_cons. unfold cell_of at 1. cbn [at_row at_column].
    rewrite cell_key_zone by done.
    rewrite (IH (i + 1) ltac:(done) ltac:(simpl length in *; lia)).
    rewrite (seqZ_cons (2 * i)) by (simpl length; lia).
    rewrite (seqZ_cons (Z.succ (2 * i))) by (simpl length; lia).
    f_equal. f_equal. f_equal; simpl length; lia.
Qed.

Lemma place_items_thumbnail (count columns : Z) (sel : gset Z) :
  forall (entries : list ImageEntry) (i k : Z),
    i <= k < i + Py.len entries ->
    {| placed := Thumbnail k (bool_decide (k ∈ sel));
       at_row := k / columns; at_column := k mod columns * 2 |}
      ∈ place_items i entries count columns sel.
Proof.
  induction entries as [|e rest IH]; intros i k Hk.
  - unfold Py.len in Hk. simpl in Hk. lia.
  - cbn [place_items]. destruct (Z.eq_dec k i) as [->|Hne]; [apply list_elem_of_here|].
    apply list_elem_of_further, elem_of_app. right. apply IH.
    unfold Py.len in *. simpl length in Hk. lia.
Qed.

Lemma place_items_zone (count columns : Z) (sel : gset Z) :
  forall (entries : list ImageEntry) (i k : Z),
    i + 1 <= k <= i + Py.len entries -> k < count ->
    {| placed := Zone k;
       at_row := (k - 1) / columns; at_column := (k - 1) mod columns * 2 + 1 |}
      ∈ place_items i entries count columns sel.
Proof.
  induction entries as [|e rest IH]; intros i k Hk Hc.
  - unfold Py.len in Hk. simpl in Hk. lia.
  - cbn [place_items]. apply list_elem_of_further, elem_of_app.
    destruct (Z.eq_dec k (i + 1)) as [->|Hne].
    + left. destruct (Z.ltb_spec i (count - 1)); [|lia].
      replace (i + 1 - 1) with i by lia. apply list_elem_of_here.
    + right. apply IH; [|exact Hc]. unfold Py.len in *. simpl length in Hk. lia.
Qed.

Lemma place_items_inv (count columns : Z) (sel : gset Z) :
  forall (entries : list ImageEntry) (i : Z) (p : Placed),
    p ∈ place_items i entries count columns sel ->
    (exists k, i <= k < i + Py.len entries
               /\ p = {| placed := Thumbnail k (bool_decide (k ∈ sel));
                         at_row := k / columns; at_column := k mod columns * 2 |})
    \/ (exists k, i + 1 <= k <= i + Py.len entries /\ k < count
                  /\ p = {| placed := Zone k;
                            at_row := (k - 1) / columns;
                            at_column := (k - 1) mod columns * 2 + 1 |}).
Proof.
  induction entries as [|e rest IH]; intros i p Hp; [by apply not_elem_of_nil in Hp|].
  cbn [place_items] in Hp. unfold Py.len in *. simpl length.
  apply elem_of_cons in Hp as [->|Hp]; [left; exists i; split; [lia|done]|].
  apply elem_of_app in Hp as [Hp|Hp].
  - destruct (Z.ltb_spec i (count - 1)); [|by apply not_elem_of_nil in Hp].
    apply list_elem_of_singleton in Hp as ->. right. exists (i + 1).
    split; [lia|]. split; [lia|]. by replace (i + 1 - 1) with i by lia.
  - destruct (IH (i + 1) p Hp) as [(k & Hk & ->)|(k & Hk & Hc & ->)].
    + left. exists k. split; [lia|done].
    + right. exists k. split; [lia|]. split; [lia|done].
Qed.

Lemma place_items_length (count columns : Z) (sel : gset Z) :
  forall (entries : list ImageEntry) (i : Z),
    entries <> [] ->
    i + Py.len entries = count ->
    Py.len (place_items i entries count columns sel) = 2 * Py.len entries - 1.
Proof.
  intros entries i Hne Hlen.
  pose proof (place_items_keys count 1 sel ltac:(lia) entries i Hne Hlen) as Hk.
  apply (f_equal length) in Hk. rewrite !length_fmap, length_seqZ in Hk.
  assert (1 <= length entries)%nat by (destruct entries; [done | simpl; lia]).
  unfold Py.len in *.
  assert (length (place_items i entries count columns sel)
          = length (place_items i entries count 1 sel)) as ->; [|lia].
  clear. revert i. induction entries as [|e rest IH]; intros i; [done|].
  cbn [place_items]. simpl length. rewrite !length_app, IH.
  by destruct (i <? count - 1).
Qed.

(** The layout that [rebuild_grid] builds, for a positive thumbnail
    size.  There is at least one column, and when there are several,
    items of [thumbnail_size + 50] pixels fit side by side into the
    viewport less 40 pixels.  Thumbnail [k] stands in row [k div columns] at layout column
    [2 * (k mod columns)] and carries the selection flag of [k]; the drop
    zone of index [k], for [1 <= k < len], stands right of thumbnail
    [k - 1]; during a drag the end zone, of index [len], stands right of
    the last thumbnail.  There is nothing else in the layout, every
    drop zone has an index in [1, len], and no two widgets share a cell. *)
Theorem rebuild_grid_layout (thumbnail_size viewport_width : Z)
    (is_dragging_active : bool) (w : t) :
  0 < thumbnail_size ->
  let columns := calculate_columns thumbnail_size viewport_width w in
  let layout := rebuild_grid thumbnail_size viewport_width is_dragging_active w in
  let n := Py.len (images w) in
  let right_of (k : Z) := ((k - 1) / columns, (k - 1) mod columns * 2 + 1) in
  1 <= columns
  /\ (columns = 1 \/ columns * (thumbnail_size + 50) <= viewport_width - 40)
  /\ (forall k, 0 <= k < n ->
        {| placed := Thumbnail k (bool_decide (k ∈ selected_indices w));
           at_row := k / columns; at_column := k mod columns * 2 |} ∈ layout)
  /\ (forall k, 1 <= k < n ->
        {| placed := Zone k; at_row := (right_of k).1; at_column := (right_of k).2 |} ∈ layout)
  /\ (1 <= n -> is_dragging_active = true ->
        {| placed := EndZone n; at_row := (right_of n).1; at_column := (right_of n).2 |} ∈ layout)
  /\ (forall p, p ∈ layout ->
        0 <= at_row p /\ 0 <= at_column p < 2 * columns
        /\ match placed p with
           | Thumbnail i selected =>
               0 <= i < n /\ selected = bool_decide (i ∈ selected_indices w)
               /\ cell_of p = (i / columns, i mod columns * 2)
           | Zone i => 1 <= i < n /\ cell_of p = right_of i
           | EndZone i => i = n /\ is_dragging_active = true /\ cell_of p = right_of i
           end)
  /\ NoDup (cell_of <$> layout)
  /\ Py.len layout
     = if n =? 0 then 0 else 2 * n - 1 + (if is_dragging_active then 1 else 0).
Proof.
  intros Hsize columns layout n right_of.
  assert (Hc : 1 <= columns).
  { unfold columns, calculate_columns. destruct (images w); lia. }
  assert (Hfit : columns = 1 \/ columns * (thumbnail_size + 50) <= viewport_width - 40).
  { unfold columns, calculate_columns. destruct (images w); [by left|].
    replace (thumbnail_size + 10 + 30 + 10) with (thumbnail_size + 50) by lia.
    pose proof (Z.mul_div_le (viewport_width - 40) (thumbnail_size + 50) ltac:(lia)). lia. }
  assert (Hcell : forall k, 0 <= k ->
            0 <= k / columns /\ 0 <= k mod columns * 2 < 2 * columns
            /\ 0 <= k mod columns * 2 + 1 < 2 * columns).
  { intros k Hk. pose proof (Z.mod_pos_bound k columns ltac:(lia)).
    split; [apply Z.div_pos; lia | lia]. }
  destruct (decide (images w = [])) as [E|Hne].
  { assert (Hn0 : n = 0) by (unfold n; by rewrite E).
    assert (Hl : layout = []) by (unfold layout, rebuild_grid; by rewrite E).
    rewrite Hl, Hn0.
    split; [exact Hc|]. split; [exact Hfit|]. split; [intros; lia|]. split; [intros; lia|]. split; [intros; lia|].
    split; [intros p Hp; by apply not_elem_of_nil in Hp|]. split; [constructor | done]. }
  assert (Hn : 1 <= n).
  { unfold n, Py.len. destruct (images w); [done | simpl; lia]. }
  assert (Hl : layout =
            place_items 0 (images w) n columns (selected_indices w)
            ++ (if is_dragging_active
                then [{| placed := EndZone n; at_row := (n - 1) / columns;
                         at_column := (n - 1) mod columns * 2 + 1 |}]
                else [])).
  { unfold layout, rebuild_grid, n, columns. by destruct (images w). }
  rewrite Hl. clear Hl.
  set (items := place_items 0 (images w) n columns (selected_indices w)).
  split; [exact Hc|]. split; [exact Hfit|]. split; [|split; [|split; [|split; [|split]]]].
  - intros k Hk. apply elem_of_app. left. apply place_items_thumbnail. fold n. lia.
  - intros k Hk. apply elem_of_app. left. apply place_items_zone; fold n; lia.
  - intros _ ->. apply elem_of_app. right. apply list_elem_of_here.
  - intros p Hp. apply elem_of_app in Hp as [Hp|Hp].
    + apply place_items_inv in Hp as [(k & Hk & ->)|(k & Hk & Hlt & ->)]; fold n in Hk;
        cbn [placed at_row at_column].
      * destruct (Hcell k ltac:(lia)) as (H1 & H2 & _). done.
      * destruct (Hcell (k - 1) ltac:(lia)) as (H1 & _ & H2).
        split; [exact H1|]. split; [exact H2|]. split; [lia|done].
    + destruct is_dragging_active; [|by apply not_elem_of_nil in Hp].
      apply list_elem_of_singleton in Hp as ->. cbn [placed at_row at_column].
      destruct (Hcell (n - 1) ltac:(lia)) as (H1 & _ & H2). done.
  - apply (NoDup_fmap_1 (cell_key columns)). rewrite !fmap_app.
    unfold items. rewrite (place_items_keys n columns _ Hc (images w) 0 Hne ltac:(fold n; lia)).
    fold n. destruct is_dragging_active.
    + change (cell_key columns <$> (cell_of <$> [_]))
        with [cell_key columns ((n - 1) / columns, (n - 1) mod columns * 2 + 1)].
      rewrite cell_key_zone by done.
      replace [2 * (n - 1) + 1] with (seqZ (2 * 0 + (2 * n - 1)) 1)
        by (rewrite seqZ_cons by lia; f_equal; lia).
      rewrite <- seqZ_app by lia. apply NoDup_seqZ.
    + simpl. rewrite app_nil_r. apply NoDup_seqZ.
  - rewrite len_app. unfold items.
    rewrite (place_items_length n columns _ (images w) 0 Hne ltac:(fold n; lia)). fold n.
    destruct (Z.eqb_spec n 0); [lia|]. by destruct is_dragging_active.
Qed.

Lemma rebuild_grid_layout_witness :
  let w := with_selection {[ 1 ]} (Some 1) Examples.five in
  NoDup (cell_of <$> rebuild_grid 100 400 true w)
  /\ Py.len (rebuild_grid 100 400 true w) = 10
  /\ {| placed := Thumbnail 3 false; at_row := 1; at_column := 2 |}
       ∈ rebuild_grid 100 400 true w.
Proof.
  intros w.
  destruct (rebuild_grid_layout 100 400 true w ltac:(lia))
    as (_ & _ & Hth & _ & _ & _ & Hnd & Hlen).
  split; [exact Hnd|]. split; [exact Hlen|].
  exact (Hth 3 ltac:(vm_compute; split; [discriminate | reflexivity])).
Defined.

End GridLayout.

(** ** How far undo reaches *)

Section UndoDepth.
Import ImageGridWidget Session.

Lemma step_saves (c : command) (w : t) :
  edit c ->
  if saves c w
  then history (step c w) = history (save_state w) /\ redo_stack (step c w) = []
  else images (step c w) = images w
       /\ history (step c w) = history w
       /\ redo_stack (step c w) = redo_stack w.
Proof.
  intros He.
  assert (Hsel : forall (o : Outcome) (index : Z),
            o = select_single index w \/ o = toggle_selection index w
            \/ o = select_range index w ->
            images (state o) = images w /\ history (state o) = history w
            /\ redo_stack (state o) = redo_stack w).
  { intros o index Ho. destruct (selection_frame o index w Ho) as (H1 & H2 & H3 & _). done. }
  destruct c; unfold step; cbn [call state saves]; simpl in He; try done.
  - by destruct entries.
  - apply (Hsel _ index); tauto.
  - apply (Hsel _ index); tauto.
  - apply (Hsel _ index); tauto.
  - unfold delete_selected. destruct (decide (selected_indices w = ∅)) as [E|E].
    + by rewrite bool_decide_eq_true_2.
    + by rewrite bool_decide_eq_false_2.
  - destruct (handle_drop_stacks indices_str target_index w) as (Hh & Hr & _). done.
Qed.

Lemma run_app (cs ds : list command) :
  forall w, run (cs ++ ds) w = run ds (run cs w).
Proof. induction cs as [|c cs IH]; intros w; [done|]. simpl. apply IH. Qed.

Lemma snapshots_app (cs ds : list command) :
  forall w, snapshots (cs ++ ds) w = snapshots cs w ++ snapshots ds (run cs w).
Proof.
  induction cs as [|c cs IH]; intros w; [done|]. simpl. by rewrite IH, app_assoc.
Qed.

Lemma run_max_history (cs : list command) :
  forall w, max_history (run cs w) = max_history w.
Proof.
  induction cs as [|c cs IH]; intros w; [done|]. simpl. rewrite IH. apply step_max_history.
Qed.

(** The oldest snapshot of a session is the order it started from. *)
Lemma snapshots_first (cs : list command) :
  forall (w : t) (s : list ImageEntry) (rest : list (list ImageEntry)),
    Forall edit cs -> snapshots cs w = s :: rest -> s = images w.
Proof.
  induction cs as [|c cs IH]; intros w s rest He Hs; [done|].
  apply Forall_cons_1 in He as [Hc He]. simpl in Hs.
  pose proof (step_saves c w Hc) as Hstep.
  destruct (saves c w).
  - simpl in Hs. by injection Hs as <- _.
  - destruct Hstep as (Hi & _). simpl in Hs. rewrite <- Hi. by apply (IH _ _ rest).
Qed.

(** A session that saves nothing leaves the order as it was. *)
Lemma snapshots_none (cs : list command) :
  forall w : t, Forall edit cs -> snapshots cs w = [] -> images (run cs w) = images w.
Proof.
  induction cs as [|c cs IH]; intros w He Es; [done|].
  apply Forall_cons_1 in He as [Hc He]. simpl in Es.
  pose proof (step_saves c w Hc) as Hstep. destruct (saves c w); [done|].
  destruct Hstep as (Hi & _). simpl. rewrite (IH (step c w) He Es). exact Hi.
Qed.

(** As long as no more than [max_history] snapshots are saved, the
    history ends with all of them and nothing is left to redo. *)
Lemma run_history (cs : list command) (w : t) :
  Forall edit cs ->
  Py.len (snapshots cs w) <= max_history w ->
  (exists pre, history (run cs w) = pre ++ snapshots cs w)
  /\ (snapshots cs w <> [] -> redo_stack (run cs w) = []).
Proof.
  induction cs as [|c cs IH] using rev_ind; intros He Hcap.
  { split; [exists (history w); by rewrite app_nil_r | done]. }
  apply Forall_app in He as [He Hc]. apply Forall_cons_1 in Hc as [Hc _].
  rewrite snapshots_app, len_app in Hcap.
  pose proof (len_nonneg (snapshots [c] (run cs w))) as Hnn.
  destruct (IH He ltac:(lia)) as ((pre & Hpre) & Hredo).
  rewrite run_app, snapshots_app. simpl. rewrite app_nil_r.
  pose proof (step_saves c (run cs w) Hc) as Hstep.
  simpl in Hcap. rewrite app_nil_r in Hcap.
  destruct (saves c (run cs w)).
  - destruct Hstep as (Hh & Hr). split; [|done].
    rewrite Hh. unfold save_state. cbn [history]. rewrite Hpre, run_max_history.
    change (Py.len [images (run cs w)]) with 1 in Hcap.
    destruct (Z.gtb_spec (Py.len ((pre ++ snapshots cs w) ++ [images (run cs w)]))
                (max_history w)) as [Hgt|Hle].
    + destruct pre as [|p pre].
      * rewrite app_nil_l, len_app in Hgt.
        change (Py.len [images (run cs w)]) with 1 in Hgt. lia.
      * exists pre. unfold Py.pop_first. simpl. rewrite drop_0. by rewrite <- app_assoc.
    + exists pre. by rewrite <- app_assoc.
  - destruct Hstep as (_ & Hh & Hr). rewrite app_nil_r. split.
    + exists pre. by rewrite Hh.
    + intros Hne. rewrite Hr. by apply Hredo.
Qed.

(** [undo] as many times as there are snapshots on top of the history. *)
Lemma undo_pops (snaps : list (list ImageEntry)) :
  forall (s : list ImageEntry) (pre : list (list ImageEntry)) (w : t),
    history w = pre ++ s :: snaps ->
    let w' := Nat.iter (S (length snaps)) undo w in
    images w' = s /\ history w' = pre
    /\ redo_stack w' = redo_stack w ++ images w :: rev snaps.
Proof.
  induction snaps as [|x snaps IH] using rev_ind; intros s pre w Hh.
  - simpl. unfold undo. by rewrite Hh, pop_last_snoc.
  - rewrite length_app. simpl length. replace (length snaps + 1)%nat with (S (length snaps)) by lia.
    cbv zeta. rewrite Nat.iter_succ_r.
    assert (Hu : undo w = {| images := x; selected_indices := ∅; last_selected_index := None;
                             history := pre ++ s :: snaps;
                             redo_stack := redo_stack w ++ [images w];
                             max_history := max_history w |}).
    { unfold undo. rewrite Hh.
      replace (pre ++ s :: snaps ++ [x]) with ((pre ++ s :: snaps) ++ [x])
        by (by rewrite <- app_assoc).
      by rewrite pop_last_snoc. }
    destruct (IH s pre (undo w) ltac:(by rewrite Hu)) as (Hi & Hhist & Hr).
    split; [exact Hi|]. split; [exact Hhist|].
    rewrite Hr, Hu. cbn [redo_stack images]. rewrite rev_app_distr. simpl.
    by rewrite <- app_assoc.
Qed.

(** [redo] as many times as there are orders on top of the redo stack. *)
Lemma redo_pops (rs : list (list ImageEntry)) :
  forall (s : list ImageEntry) (pre : list (list ImageEntry)) (w : t),
    redo_stack w = pre ++ s :: rs ->
    let w' := Nat.iter (S (length rs)) redo w in
    images w' = s /\ redo_stack w' = pre
    /\ history w' = history w ++ images w :: rev rs.
Proof.
  induction rs as [|x rs IH] using rev_ind; intros s pre w Hh.
  - simpl. unfold redo. by rewrite Hh, pop_last_snoc.
  - rewrite length_app. simpl length. replace (length rs + 1)%nat with (S (length rs)) by lia.
    cbv zeta. rewrite Nat.iter_succ_r.
    assert (Hu : redo w = {| images := x; selected_indices := ∅; last_selected_index := None;
                             history := history w ++ [images w];
                             redo_stack := pre ++ s :: rs;
                             max_history := max_history w |}).
    { unfold redo. rewrite Hh.
      replace (pre ++ s :: rs ++ [x]) with ((pre ++ s :: rs) ++ [x])
        by (by rewrite <- app_assoc).
      by rewrite pop_last_snoc. }
    destruct (IH s pre (redo w) ltac:(by rewrite Hu)) as (Hi & Hr & Hhist).
    split; [exact Hi|]. split; [exact Hr|].
    rewrite Hhist, Hu. cbn [history images]. rewrite rev_app_distr. simpl.
    by rewrite <- app_assoc.
Qed.

(** Undo reaches back through a whole session.  The session consists of
    selections, appends, deletions and moves, and saves [k] snapshots,
    no more than [max_history].  Then [k] times [undo] gives back the
    order the session started from; undoing fewer times gives the order
    before the corresponding edit; and [k] times [redo] after the [k]
    undos gives back the order and the history of the end of the
    session. *)
Theorem undo_reaches_session_start (cs : list command) (w : t) :
  Forall edit cs ->
  let w' := run cs w in
  let k := length (snapshots cs w) in
  Z.of_nat k <= max_history w ->
  images (Nat.iter k undo w') = images w
  /\ (forall (j : nat) (s : list ImageEntry),
        snapshots cs w !! j = Some s -> images (Nat.iter (k - j) undo w') = s)
  /\ images (Nat.iter k redo (Nat.iter k undo w')) = images w'
  /\ history (Nat.iter k redo (Nat.iter k undo w')) = history w'.
Proof.
  intros He w' k Hcap.
  destruct (run_history cs w He Hcap) as ((pre & Hpre) & Hredo). fold w' in Hpre, Hredo.
  assert (Hback : forall (j : nat) (s : list ImageEntry),
            snapshots cs w !! j = Some s -> images (Nat.iter (k - j) undo w') = s).
  { intros j s Hj. pose proof (lookup_lt_Some _ _ _ Hj) as Hlt. fold k in Hlt.
    pose proof (take_drop_middle _ _ _ Hj) as Hsplit.
    destruct (undo_pops (drop (S j) (snapshots cs w)) s (pre ++ take j (snapshots cs w)) w')
      as (Hi & _).
    { by rewrite Hpre, <- app_assoc, Hsplit. }
    rewrite length_drop in Hi. fold k in Hi.
    by replace (S (k - S j)) with (k - j)%nat in Hi by lia. }
  destruct (snapshots cs w) as [|s0 rest] eqn:Es.
  { subst k. simpl. split; [|split; [|split]]; try done.
    by apply snapshots_none. }
  assert (Hs0 : s0 = images w) by (by apply (snapshots_first cs w s0 rest)).
  subst k. simpl length.
  destruct (undo_pops rest s0 pre w' Hpre) as (Hi & Hh & Hr).
  rewrite (Hredo ltac:(done)), app_nil_l in Hr.
  split; [by rewrite Hi|]. split; [exact Hback|].
  destruct (redo_pops (rev rest) (images w') [] _ Hr) as (Hi2 & _ & Hh2).
  rewrite length_rev in Hi2, Hh2.
  split; [exact Hi2|]. rewrite Hh2, Hh, Hi, rev_involutive. by rewrite Hpre.
Qed.

Lemma undo_reaches_session_start_witness :
  let cs := [AppendImages [Examples.cell64 5]; SelectSingle 1; SelectRange 2;
             HandleDrop "1,2" 6; ClearSelection; ToggleSelection 0; DeleteSelected] in
  let w' := run cs Examples.five in
  images (Nat.iter 3 undo w') = images Examples.five
  /\ images (Nat.iter 3 redo (Nat.iter 3 undo w')) = images w'.
Proof.
  intros cs w'.
  destruct (undo_reaches_session_start cs Examples.five
              ltac:(repeat constructor) ltac:(vm_compute; discriminate))
    as (H1 & _ & H2 & _).
  split; [exact H1 | exact H2].
Defined.

(** A new edit discards what was undone.  After a command that saves a
    snapshot the redo stack is empty, so [redo] changes nothing, also
    when the command follows an [undo]. *)
Theorem edit_discards_redo (c : command) (w : t) :
  edit c -> saves c w = true ->
  redo_stack (step c w) = [] /\ redo (step c w) = step c w.
Proof.
  intros He Hs. pose proof (step_saves c w He) as H. rewrite Hs in H.
  destruct H as [_ Hr]. split; [exact Hr|]. unfold redo. by rewrite Hr.
Qed.

Lemma edit_discards_redo_witness :
  let w := Examples.after_undo in
  redo_stack w <> []
  /\ redo_stack (step (AppendImages [Examples.cell64 9]) w) = []
  /\ redo (step (AppendImages [Examples.cell64 9]) w) = step (AppendImages [Examples.cell64 9]) w.
Proof.
  intros w. split; [discriminate|].
  apply (edit_discards_redo (AppendImages [Examples.cell64 9]) w); [exact I | reflexivity].
Defined.

End UndoDepth.

(** ** Files and the size label *)

Section Files.
Import FlipbookApp.





Ltac clash H1 H2 i j :=
  let E := fresh in
  pose proof (endswith_agree _ _ _ i j H1 H2) as E;
  simpl in E; specialize (E ltac:(lia) ltac:(lia) ltac:(lia)); discriminate E.

(** A name that ends in .tiff or .tif has none of the extensions of
    [IMAGE_EXTENSIONS]: the last letters differ. *)
Lemma tiff_is_no_image_file (p : string) :
  endswith p ".tiff" = true \/ endswith p ".tif" = true ->
  endswith p ".jpg" = false /\ endswith p ".jpeg" = false
  /\ endswith p ".png" = false /\ endswith p ".webp" = false
  /\ endswith p ".bmp" = false /\ endswith p ".tga" = false.
Proof.
  intros [H|H].
  - repeat split.
    + destruct (endswith p ".jpg") eqn:E; [exfalso; clash H E 4%nat 3%nat | done].
    + destruct (endswith p ".jpeg") eqn:E; [exfalso; clash H E 4%nat 4%nat | done].
    + destruct (endswith p ".png") eqn:E; [exfalso; clash H E 4%nat 3%nat | done].
    + destruct (endswith p ".webp") eqn:E; [exfalso; clash H E 4%nat 4%nat | done].
    + destruct (endswith p ".bmp") eqn:E; [exfalso; clash H E 4%nat 3%nat | done].
    + destruct (endswith p ".tga") eqn:E; [exfalso; clash H E 4%nat 3%nat | done].
  - repeat split.
    + destruct (endswith p ".jpg") eqn:E; [exfalso; clash H E 3%nat 3%nat | done].
    + destruct (endswith p ".jpeg") eqn:E; [exfalso; clash H E 3%nat 4%nat | done].
    + destruct (endswith p ".png") eqn:E; [exfalso; clash H E 3%nat 3%nat | done].
    + destruct (endswith p ".webp") eqn:E; [exfalso; clash H E 3%nat 4%nat | done].
    + destruct (endswith p ".bmp") eqn:E; [exfalso; clash H E 3%nat 3%nat | done].
    + destruct (endswith p ".tga") eqn:E; [exfalso; clash H E 3%nat 3%nat | done].
Qed.

Lemma length_append (a b : string) :
  String.length (a ++ b) = (String.length a + String.length b)%nat.
Proof. induction a as [|c a IH]; simpl; [done | by rewrite IH]. Qed.

Lemma length_lower (s : string) : String.length (lower s) = String.length s.
Proof. induction s as [|c s IH]; simpl; [done | by rewrite IH]. Qed.

Lemma lower_append (a b : string) : lower (a ++ b) = (lower a ++ lower b)%string.
Proof. induction a as [|c a IH]; simpl; [done | by rewrite IH]. Qed.

Lemma get_beyond (s : string) : forall i, (String.length s <= i)%nat -> String.get i s = None.
Proof.
  induction s as [|c s IH]; intros i Hi; [by destruct i|].
  destruct i as [|i]; simpl in *; [lia|]. apply IH. lia.
Qed.

(** [endswith] character by character. *)
Lemma endswith_get (s x : string) :
  endswith s x = true
  <-> (String.length x <= String.length s)%nat
      /\ forall i, (i < String.length x)%nat ->
            String.get (i + (String.length s - String.length x)) s = String.get i x.
Proof.
  split.
  - intros H. apply endswith_inv in H as [Hlen Hsub]. split; [exact Hlen|].
    intros i Hi. rewrite <- Hsub at 2. by rewrite substring_correct1.
  - intros [Hlen Hget]. unfold endswith. apply andb_true_iff.
    split; [by apply Nat.leb_le|]. apply String.eqb_eq, get_correct. intros p.
    destruct (le_lt_dec (String.length x) p) as [Hp|Hp].
    + rewrite substring_correct2 by done. symmetry. by apply get_beyond.
    + rewrite substring_correct1 by done. by apply Hget.
Qed.

(** None of the extensions that the window tests contains a separator. *)
Lemma extension_has_no_separator (x : string) (c : ascii) (i : nat) :
  In x [".jpg"; ".jpeg"; ".png"; ".webp"; ".bmp"; ".tiff"; ".tif"; ".tga"]%string ->
  is_separator c = true ->
  String.get i x <> Some (lower_char c).
Proof.
  intros Hx Hc Hget. unfold is_separator in Hc. apply orb_true_iff in Hc.
  assert (Hl : lower_char c = "/"%char \/ lower_char c = ascii_of_nat 92).
  { destruct Hc as [Hc|Hc]; apply Ascii.eqb_eq in Hc; subst c; [by left | by right]. }
  simpl in Hx.
  repeat (destruct Hx as [<-|Hx];
          [destruct Hl as [Hl|Hl]; rewrite Hl in Hget;
           do 6 (destruct i as [|i]; [discriminate Hget|]); discriminate Hget|]).
  exact Hx.
Qed.

(** The tests on the extension see the file name only: they give the
    same on a path and on its last component. *)
Lemma endswith_path (directory filename x : string) (c : ascii) :
  In x [".jpg"; ".jpeg"; ".png"; ".webp"; ".bmp"; ".tiff"; ".tif"; ".tga"]%string ->
  is_separator c = true ->
  endswith (lower (directory ++ String c filename)) x = endswith (lower filename) x.
Proof.
  intros Hx Hc. rewrite lower_append. cbn [lower].
  set (a := lower directory). set (b := lower filename).
  destruct (endswith b x) eqn:Eb.
  - apply endswith_get in Eb as [Hlen Hget]. apply endswith_get.
    rewrite length_append. simpl String.length. split; [lia|].
    intros i Hi. rewrite <- (Hget i Hi).
    change (String.get (i + (String.length b - String.length x)) b)
      with (String.get (S (i + (String.length b - String.length x))) (String (lower_char c) b)).
    rewrite (append_correct2 a (String (lower_char c) b)). f_equal. lia.
  - destruct (endswith (a ++ String (lower_char c) b) x) eqn:Ea; [|done].
    exfalso. apply endswith_get in Ea as [Hlen Hget].
    rewrite length_append in Hlen, Hget. simpl String.length in Hlen, Hget.
    destruct (le_lt_dec (String.length x) (String.length b)) as [Hle|Hlt].
    + assert (Hb : endswith b x = true); [|congruence].
      apply endswith_get. split; [exact Hle|]. intros i Hi. rewrite <- (Hget i Hi).
      change (String.get (i + (String.length b - String.length x)) b)
        with (String.get (S (i + (String.length b - String.length x))) (String (lower_char c) b)).
      rewrite (append_correct2 a (String (lower_char c) b)). f_equal. lia.
    + apply (extension_has_no_separator x c (String.length x - String.length b - 1) Hx Hc).
      rewrite <- (Hget (String.length x - String.length b - 1)%nat ltac:(lia)).
      replace (String.length x - String.length b - 1
               + (String.length a + S (String.length b) - String.length x))%nat
        with (0 + String.length a)%nat by lia.
      by rewrite <- (append_correct2 a (String (lower_char c) b) 0).
Qed.

(** What the window writes and what it reads.  [file_path] is the path
    that the save dialog returned and [filename] its last component, the
    name that [add_images] and [select_folder] test.  A file that the
    loaders accept was exported in the format its extension names: JPEG,
    PNG, WEBP, BMP or TGA.  A file that the loaders skip was exported
    as TIFF, when its name ends in .tiff or .tif, and as PNG otherwise;
    so a flipbook that was exported as TIFF is skipped when it is added
    or its folder is selected. *)
Theorem exported_file_is_image_file (bits : Texture -> list Z) (image : Texture)
    (directory filename : string) (separator : ascii) :
  is_separator separator = true ->
  let file_path := (directory ++ String separator filename)%string in
  let written := save bits image file_path in
  (is_image_file filename = true ->
     written = QImageSave image file_path "JPEG" (Some 95)
     \/ written = QImageSave image file_path "PNG" None
     \/ written = QImageSave image file_path "WEBP" None
     \/ written = QImageSave image file_path "BMP" None
     \/ written = PILSave (texture_size image) (unpack_BGRA (bits image)) file_path "TGA")
  /\ (is_image_file filename = false ->
        written = QImageSave image file_path "TIFF" None
        \/ written = QImageSave image file_path "PNG" None)
  /\ (written = QImageSave image file_path "TIFF" None -> is_image_file filename = false).
Proof.
  intros Hsep file_path written.
  unfold written, save, is_image_file, IMAGE_EXTENSIONS. cbn [existsb].
  unfold file_path at 1 2 3 4 5 6 7 8.
  rewrite !(endswith_path directory filename _ separator) by (simpl; tauto).
  set (p := lower filename).
  destruct (endswith p ".tiff" || endswith p ".tif") eqn:Et.
  - apply orb_true_iff in Et.
    destruct (tiff_is_no_image_file p Et) as (-> & -> & -> & -> & -> & ->).
    cbn [orb];
      (split; [|split]); intros H; try discriminate H; auto.
  - clear Et.
    destruct (endswith p ".jpg"); destruct (endswith p ".jpeg");
      destruct (endswith p ".png"); destruct (endswith p ".webp");
      destruct (endswith p ".bmp"); destruct (endswith p ".tga");
      cbn [orb]; (split; [|split]); intros H; try discriminate H; auto 6.
Qed.

Lemma exported_file_is_image_file_witness :
  is_image_file "flipbook.TIFF" = false
  /\ is_image_file "flipbook.Png" = true.
Proof.
  split; [|reflexivity].
  apply (exported_file_is_image_file (fun _ => []) (paint (Examples.cell64 0).1.1 Examples.four_loaded)
           "/home/frames" "flipbook.TIFF" "/" eq_refl).
  reflexivity.
Defined.

End Files.

(** ** When a drag starts *)

Section DragStart.
Import ImageThumbnail Pointer.

Lemma run_snoc (es : list event) (e : event) :
  forall d,
    run (es ++ [e]) d
    = ((run es d).1 ++ [(handle e (run es d).2).1], (handle e (run es d).2).2).
Proof.
  induction es as [|x es IH]; intros d; simpl.
  - by destruct (handle e d).
  - destruct (handle x d) as [c d1]. rewrite IH. by destruct (run es d1).
Qed.

Lemma run_length (es : list event) :
  forall d, length (run es d).1 = length es.
Proof.
  induction es as [|x es IH]; intros d; simpl; [done|].
  destruct (handle x d) as [c d1]. specialize (IH d1). destruct (run es d1). simpl in *. lia.
Qed.

(** The field holds a position only while an arming press is pending. *)
Lemma run_pending (es : list event) :
  forall start,
    (run es None).2 = Some start ->
    exists before modifiers raised quiet,
      es = before ++ Press true modifiers raised start :: quiet
      /\ arming modifiers raised
      /\ Forall (pending start) quiet.
Proof.
  induction es as [|e es IH] using rev_ind; intros start Hd; [done|].
  rewrite run_snoc in Hd. cbn [snd] in Hd.
  assert (Hnew : forall m r pos,
            arming m r ->
            exists before modifiers raised quiet,
              es ++ [Press true m r pos] = before ++ Press true modifiers raised pos :: quiet
              /\ arming modifiers raised /\ Forall (pending pos) quiet).
  { intros m r pos Harm. by exists es, m, r, []. }
  destruct (run es None).2 as [p0|] eqn:Ed.
  - destruct (IH p0 eq_refl) as (before & m0 & r0 & quiet & Hes & Harm & Hq).
    assert (Hkeep : forall e', pending p0 e' ->
              exists before modifiers raised quiet,
                es ++ [e'] = before ++ Press true modifiers raised p0 :: quiet
                /\ arming modifiers raised /\ Forall (pending p0) quiet).
    { intros e' He'. exists before, m0, r0, (quiet ++ [e']). rewrite Hes.
      split; [by rewrite <- app_assoc|]. split; [done|].
      apply Forall_app. split; [done|]. by constructor. }
    destruct e as [left m r pos|held r pos|]; simpl in Hd.
    + destruct left.
      * destruct m, r; try discriminate Hd; injection Hd as <-; apply Hnew;
          unfold arming; tauto.
      * injection Hd as <-. by apply Hkeep.
    + destruct held; simpl in Hd.
      * destruct (Z.ltb_spec (manhattanLength (pos.1 - p0.1, pos.2 - p0.2)) drag_threshold).
        -- injection Hd as <-. apply Hkeep. simpl. tauto.
        -- destruct r; [|discriminate Hd]. injection Hd as <-. apply Hkeep. simpl. tauto.
      * injection Hd as <-. apply Hkeep. simpl. tauto.
    + discriminate Hd.
  - destruct e as [left m r pos|held r pos|]; simpl in Hd.
    + destruct left; [|discriminate Hd].
      destruct m, r; try discriminate Hd; injection Hd as <-; apply Hnew;
        unfold arming; tauto.
    + destruct held; discriminate Hd.
    + discriminate Hd.
Qed.

(** When a thumbnail calls [start_drag].  The thumbnail is fresh and
    gets any mouse events.  If event number [i] calls [start_drag], it
    is a move with the left button held, at a Manhattan distance of at
    least [drag_threshold] = 5 from the position of an earlier press of
    the left button that left its position in the field.  That press is
    one that the handler's two equality tests send to the last branch,
    so one with no modifier or with any combination other than exactly
    Ctrl and exactly Shift (Ctrl together with Shift is such a press
    and does start a drag), or it is a press with exactly Ctrl or
    exactly Shift whose selection method raised.  Between that press
    and the move there is no release, no other press of the left button
    and no move with the left button that went as far, except moves
    whose [start_drag] raised.  So when no call raises, a press with
    exactly Ctrl or exactly Shift starts no drag, and a press starts at
    most one. *)
Theorem start_drag_needs_pending_press (es : list event) (i : nat) :
  (run es None).1 !! i = Some true ->
  exists before modifiers raised start quiet raises pos after,
    es = before ++ Press true modifiers raised start :: quiet
                ++ Move true raises pos :: after
    /\ arming modifiers raised
    /\ i = (length before + 1 + length quiet)%nat
    /\ Forall (pending start) quiet
    /\ drag_threshold <= manhattanLength (pos.1 - start.1, pos.2 - start.2).
Proof.
  revert i. induction es as [|e es IH] using rev_ind; intros i Hi; [done|].
  rewrite run_snoc in Hi. cbn [fst] in Hi.
  pose proof (run_length es None) as Hlen.
  destruct (decide (i < length es)%nat) as [Hlt|Hge].
  - rewrite lookup_app_l in Hi by lia.
    destruct (IH i Hi)
      as (before & m & r & start & quiet & r' & pos & after & -> & Harm & Hidx & Hq & Hd).
    exists before, m, r, start, quiet, r', pos, (after ++ [e]).
    split; [|done]. rewrite <- !app_assoc. simpl. by rewrite <- app_assoc.
  - rewrite lookup_app_r in Hi by lia.
    destruct (i - length (run es None).1)%nat as [|n] eqn:En; [|done].
    simpl in Hi. injection Hi as Hc.
    destruct e as [left m r pos|held r pos|]; simpl in Hc.
    + destruct left; [destruct m, r|]; discriminate Hc.
    + destruct held; simpl in Hc; [|discriminate Hc].
      destruct (run es None).2 as [start|] eqn:Ed; [|discriminate Hc].
      destruct (Z.ltb_spec (manhattanLength (pos.1 - start.1, pos.2 - start.2)) drag_threshold);
        [discriminate Hc|].
      destruct (run_pending es start Ed) as (before & m0 & r0 & quiet & -> & Harm & Hq).
      exists before, m0, r0, start, quiet, r, pos, [].
      split; [by rewrite <- app_assoc|]. split; [done|]. split; [|done].
      rewrite length_app in *. simpl length in *. lia.
    + discriminate Hc.
Qed.

Lemma start_drag_needs_pending_press_witness :
  let es := [Press true ControlModifier false (3, 3); Move true false (40, 3); Release;
             Press true OtherModifiers false (10, 10); Move true false (12, 11);
             Move true false (13, 12); Move true false (60, 60)] in
  (run es None).1 = [false; false; false; false; false; true; false]
  /\ exists before modifiers raised start quiet raises pos after,
       es = before ++ Press true modifiers raised start :: quiet
                   ++ Move true raises pos :: after
       /\ arming modifiers raised
       /\ 5%nat = (length before + 1 + length quiet)%nat
       /\ Forall (pending start) quiet
       /\ drag_threshold <= manhattanLength (pos.1 - start.1, pos.2 - start.2).
Proof.
  intros es. split; [reflexivity|].
  apply (start_drag_needs_pending_press es 5). reflexivity.
Defined.

End DragStart.

(** ** Clicks *)

Section Clicks.
Import ImageGridWidget ImageThumbnail.

(** What a click on a thumbnail does.  The thumbnail sits at a
    position of the order, as [rebuild_grid] numbers them, and the
    anchor of the grid, if there is one, is a position too.  Then the
    handler returns, and no click changes the order or the two history
    stacks.  A plain click on a thumbnail that is not selected selects
    exactly it; on a selected one it changes nothing, so that the whole
    selection can be dragged.  A click with Ctrl changes the membership
    of the clicked index and of no other, and a second one gives back
    the selection.  A click with Shift removes nothing from the
    selection: with an anchor [a] it adds the indices from
    [min a index] to [max a index], without one it selects exactly the
    clicked index.  Ctrl and plain clicks move the anchor to the clicked
    index, a Shift click leaves an anchor where it is. *)
Theorem click_changes_selection_only (modifiers : Modifiers) (index : Z)
    (is_selected : bool) (g : t) :
  Session.valid_index index g -> Session.anchor_valid g ->
  exists g',
    mousePressEvent modifiers index is_selected g = Returned g'
    /\ (images g' = images g /\ history g' = history g /\ redo_stack g' = redo_stack g)
    /\ match modifiers with
       | OtherModifiers =>
           if is_selected then g' = g
           else selected_indices g' = {[ index ]} /\ last_selected_index g' = Some index
       | ControlModifier =>
           (index ∈ selected_indices g' <-> index ∉ selected_indices g)
           /\ (forall j, j <> index -> j ∈ selected_indices g' <-> j ∈ selected_indices g)
           /\ last_selected_index g' = Some index
           /\ exists g'',
                mousePressEvent ControlModifier index (negb is_selected) g' = Returned g''
                /\ selected_indices g'' = selected_indices g
       | ShiftModifier =>
           match last_selected_index g with
           | Some a =>
               (forall j, j ∈ selected_indices g'
                          <-> j ∈ selected_indices g \/ Z.min a index <= j <= Z.max a index)
               /\ last_selected_index g' = Some a
           | None => selected_indices g' = {[ index ]} /\ last_selected_index g' = Some index
           end
       end.
Proof.
  intros Hi Ha. unfold Session.valid_index in Hi.
  assert (Hlow : forall w, images w = images g -> - Py.len (images w) <= index).
  { intros w ->. lia. }
  destruct modifiers; cbn [mousePressEvent].
  - assert (Hm : forall w j,
              j ∈ selected_indices
                    (if decide (index ∈ selected_indices w)
                     then with_selection (selected_indices w ∖ {[ index ]}) (Some index) w
                     else with_selection ({[ index ]} ∪ selected_indices w) (Some index) w)
              <-> (j = index /\ index ∉ selected_indices w)
                  \/ (j <> index /\ j ∈ selected_indices w)).
    { intros w j.
      destruct (decide (index ∈ selected_indices w)) as [Hin|Hnot];
        cbn [with_selection selected_indices].
      - rewrite elem_of_difference, elem_of_singleton. tauto.
      - rewrite elem_of_union, elem_of_singleton.
        destruct (decide (j = index)) as [->|Hne]; tauto. }
    eexists. split; [apply toggle_selection_returns; by apply Hlow|].
    split; [by destruct (decide _)|].
    split; [rewrite Hm; tauto|]. split; [intros j Hj; rewrite Hm; tauto|].
    split; [by destruct (decide _)|].
    eexists. split; [apply toggle_selection_returns; apply Hlow; by destruct (decide _)|].
    apply leibniz_equiv. intros j. rewrite !Hm.
    destruct (decide (j = index)) as [->|Hne]; [|tauto].
    destruct (decide (index ∈ selected_indices g)); tauto.
  - destruct (last_selected_index g) as [a|] eqn:Ea.
    + specialize (Ha a Ea). unfold Session.valid_index in Ha.
      eexists. split; [apply (select_range_returns index a g Ea); lia|].
      split; [done|]. cbn [with_selection selected_indices last_selected_index].
      split; [|done].
      intros j. rewrite elem_of_union, elem_of_list_to_set, elem_of_seqZ.
      split; intros [H|H]; [by left | right; lia | by left | right; lia].
    + unfold select_range. rewrite Ea.
      eexists. split; [apply select_single_returns; by apply Hlow|]. done.
  - destruct is_selected.
    + by exists g.
    + eexists. split; [apply select_single_returns; by apply Hlow|]. done.
Qed.

Lemma click_changes_selection_only_witness :
  let g := state (select_single 1 Examples.five) in
  exists g',
    mousePressEvent ShiftModifier 3 false g = Returned g'
    /\ images g' = images g
    /\ (forall j, j ∈ selected_indices g' <-> j ∈ selected_indices g \/ 1 <= j <= 3)
    /\ last_selected_index g' = Some 1.
Proof.
  intros g.
  destruct (click_changes_selection_only ShiftModifier 3 false g)
    as (g' & Hret & (Himg & _ & _) & Hsel & Hanchor).
  - split; by vm_compute.
  - intros i Hi. vm_compute in Hi. injection Hi as <-. split; by vm_compute.
  - exists g'. done.
Defined.

End Clicks.
